(** * OceanofPDFs tag remover and renamer: a shallow embedding

    The development follows [oceanofpdfs_remover_+_renamer.py].  The
    enhanced edition ([..._v2.py]) has the functions embedded here too,
    written more tersely and with the same constants and the same
    behaviour, so one embedding serves both files; its retry loop,
    which is written otherwise, is embedded beside the original and
    proved to agree with it.  What the enhanced edition adds around
    these functions (the log and the resume file, the OCR and upload
    steps, the abort key), and the command line and the console of
    both editions, are not part of the embedding.

    Conventions.
    - A Python [str] is a [list ascii]; an [ascii] stands for a code
      point below 256.  [lit "..."] writes a literal.
    - A Python [int] is a [Z]; the counter [i] of [unique_path] and the
      number of iterations a [for] loop has left are [nat].
    - [pathlib] paths are pure POSIX paths: a parent directory and a
      final component, compared structurally (case-sensitive).
    - Stateful code is written in a state and exception monad [M] over
      a [world]: the file system, the plan of failures of the calls
      that can fail for reasons outside the program, and a trace.
    - [while True] takes a fuel; running out of it is [Diverge], which
      no handler catches.
    - The PDF engine and the host file system are collaborators of the
      program, not part of it.  Their capabilities (open, enumerate
      pages, list and delete links, extract text, mark and apply
      redactions, save; stat, utime, rename, move, exists, unlink) are
      modelled as small executable definitions, each marked as such.
    - Exceptions are the ones deriving from [Exception], the class the
      handlers of the source name.
    - A dictionary is a finite map from its keys; the dictionary
      [errors] of [main], whose order of insertion shows in the
      summary, is an association list.
    - A generator is the list of what it yields.  A scan reads a
      directory tree that does not change while it is read. *)

From Stdlib Require Import ZArith Ascii String List Bool Lia.
From stdpp Require Import base option list gmap strings pretty.

Set Default Proof Using "Type".

(* ================================================================== *)
(** ** Python strings *)
(* ================================================================== *)

Abbreviation str := (list ascii) (only parsing).

Definition lit (s : string) : str := list_ascii_of_string s.

Definition is_nil {A} (l : list A) : bool :=
  match l with [] => true | _ => false end.

(** [str.isspace] on one character, which is also the class [\s] of
    [re] for [str] patterns: TAB..CR, FS..US, space, NEL and NBSP. *)
Definition isspace (c : ascii) : bool :=
  let n := N_of_ascii c in
  ((9 <=? n) && (n <=? 13) || (28 <=? n) && (n <=? 32)
   || (n =? 133) || (n =? 160))%N.

(** [str.lower] on one character: A..Z and the Latin-1 capitals. *)
Definition lower_char (c : ascii) : ascii :=
  let n := N_of_ascii c in
  if ((65 <=? n) && (n <=? 90)
      || (192 <=? n) && (n <=? 222) && negb (n =? 215))%N
  then ascii_of_N (n + 32) else c.

Definition lower (s : str) : str := map lower_char s.

(** [s.startswith(pre)] *)
Fixpoint startswith (s pre : str) {struct pre} : bool :=
  match pre, s with
  | [], _ => true
  | _ :: _, [] => false
  | p :: pre', c :: s' => Ascii.eqb p c && startswith s' pre'
  end.

(** [s.endswith(suf)] *)
Definition endswith (s suf : str) : bool := startswith (rev s) (rev suf).

(** [needle in hay] *)
Fixpoint contains (needle hay : str) : bool :=
  startswith hay needle
  || match hay with [] => false | _ :: hay' => contains needle hay' end.

(** [s.split(sep, 1)] for a non-empty separator: one part when the
    separator does not occur, otherwise the text before and after its
    first occurrence. *)
Fixpoint split1 (sep s : str) : list str :=
  if startswith s sep then [[]; drop (length sep) s]
  else match s with
       | [] => [[]]
       | c :: s' =>
           match split1 sep s' with
           | [a; b] => [c :: a; b]
           | _ => [s]
           end
       end.

Fixpoint lstrip (s : str) : str :=
  match s with
  | [] => []
  | c :: s' => if isspace c then lstrip s' else s
  end.

Definition rstrip (s : str) : str := rev (lstrip (rev s)).

(** [s.strip()] *)
Definition strip (s : str) : str := rstrip (lstrip s).

(** [re.sub(r"[cls]", repl, s)]: every character of the class is
    replaced. *)
Definition re_sub_class (cls : ascii -> bool) (repl s : str) : str :=
  flat_map (fun c => if cls c then repl else [c]) s.

(** [re.sub(r"[cls]+", repl, s)]: every maximal run of characters of the
    class is replaced by one [repl].  [in_run] tells that the previous
    character belonged to the run being replaced. *)
Fixpoint re_sub_plus_go (cls : ascii -> bool) (repl : str)
    (in_run : bool) (s : str) : str :=
  match s with
  | [] => []
  | c :: s' =>
      if cls c
      then (if in_run then [] else repl) ++ re_sub_plus_go cls repl true s'
      else c :: re_sub_plus_go cls repl false s'
  end.

Definition re_sub_plus (cls : ascii -> bool) (repl s : str) : str :=
  re_sub_plus_go cls repl false s.

(* ================================================================== *)
(** ** Regular expressions ([re.compile], [Pattern.search]) *)
(* ================================================================== *)

(** The fragment of [re] the program uses: character sets, sequence and
    star, matched by derivatives.  [re_search] is [Pattern.search]
    turned into a boolean: some substring of the text is in the
    language of the pattern. *)
Inductive regex : Type :=
| ReVoid
| ReEps
| ReSet (p : ascii -> bool)
| ReCat (r1 r2 : regex)
| ReAlt (r1 r2 : regex)
| ReStar (r : regex).

Fixpoint nullable (r : regex) : bool :=
  match r with
  | ReVoid => false
  | ReEps => true
  | ReSet _ => false
  | ReCat r1 r2 => nullable r1 && nullable r2
  | ReAlt r1 r2 => nullable r1 || nullable r2
  | ReStar _ => true
  end.

Fixpoint deriv (c : ascii) (r : regex) : regex :=
  match r with
  | ReVoid => ReVoid
  | ReEps => ReVoid
  | ReSet p => if p c then ReEps else ReVoid
  | ReCat r1 r2 =>
      if nullable r1
      then ReAlt (ReCat (deriv c r1) r2) (deriv c r2)
      else ReCat (deriv c r1) r2
  | ReAlt r1 r2 => ReAlt (deriv c r1) (deriv c r2)
  | ReStar r1 => ReCat (deriv c r1) (ReStar r1)
  end.

(** [Pattern.match]: the pattern matches some prefix of the text. *)
Fixpoint re_match (r : regex) (s : str) : bool :=
  nullable r
  || match s with [] => false | c :: s' => re_match (deriv c r) s' end.

(** [Pattern.search]: the pattern matches at some position. *)
Fixpoint re_search (r : regex) (s : str) : bool :=
  re_match r s
  || match s with [] => false | _ :: s' => re_search r s' end.

Fixpoint re_seq (rs : list regex) : regex :=
  match rs with
  | [] => ReEps
  | [r] => r
  | r :: rs' => ReCat r (re_seq rs')
  end.

(** A letter of the pattern under [(?i)]. *)
Definition ci (c : ascii) : regex :=
  ReSet (fun x => Ascii.eqb (lower_char x) (lower_char c)).

(** [\.] *)
Definition dot : regex := ReSet (Ascii.eqb ".").

(** [\s*] *)
Definition ws : regex := ReStar (ReSet isspace).

(* ================================================================== *)
(** ** Configuration constants *)
(* ================================================================== *)

Definition PHRASE : str := lit "OceanofPDFs.com".
Definition URI_MATCH : str := lit "OceanofPDFs.com".
Definition PREFIX : str := lit "_OceanofPDFs.com_".
Definition ZLIB_SUFFIX : str := lit "_ (Z-Library)".

(** [(?i)o\s*c\s*e\s*a\s*n\s*o\s*f\s*p\s*d\s*f\s*\.\s*c\s*o\s*m] *)
Definition TEXT_PATTERN : regex :=
  re_seq [ci "o"; ws; ci "c"; ws; ci "e"; ws; ci "a"; ws; ci "n"; ws;
          ci "o"; ws; ci "f"; ws; ci "p"; ws; ci "d"; ws; ci "f"; ws;
          dot; ws; ci "c"; ws; ci "o"; ws; ci "m"].

(* ================================================================== *)
(** ** Exceptions and results *)
(* ================================================================== *)

(** The classes the handlers of the source tell apart: [except OSError]
    in [rename_if_needed], [except Exception] everywhere else. *)
Inductive exn_class : Type := OSError | ValueError | OtherError.

Record pyexn : Type := mkExn { exn_cls : exn_class; exn_msg : str }.

(** What a call does: return, raise, or fail to terminate within the
    fuel given to a [while True] loop. *)
Inductive outcome (A : Type) : Type :=
| Ret (a : A)
| Raise (e : pyexn)
| Diverge.
Arguments Ret {A} a.
Arguments Raise {A} e.
Arguments Diverge {A}.

(* ================================================================== *)
(** ** Pure paths ([pathlib.PurePosixPath]) *)
(* ================================================================== *)

Record Path : Type := mkPath { parent : str; name : str }.

#[global] Instance Path_eq_dec : EqDecision Path.
Proof. solve_decision. Defined.

#[global] Instance Path_countable : Countable Path :=
  inj_countable' (fun p => (parent p, name p))
                 (fun '(d, n) => mkPath d n)
                 (fun p => match p with mkPath _ _ => eq_refl end).

(** [s.rfind(c)] *)
Fixpoint rfind (c : ascii) (s : str) : option nat :=
  match s with
  | [] => None
  | a :: s' =>
      match rfind c s' with
      | Some i => Some (S i)
      | None => if Ascii.eqb a c then Some 0 else None
      end
  end.

(** [PurePath.suffix]: from the last dot on, when that dot is neither
    the first nor the last character of the name. *)
Definition suffix (p : Path) : str :=
  match rfind "." (name p) with
  | Some i =>
      if (0 <? i) && (i <? length (name p) - 1)
      then drop i (name p) else []
  | None => []
  end.

(** [PurePath.stem] *)
Definition stem (p : Path) : str :=
  match rfind "." (name p) with
  | Some i =>
      if (0 <? i) && (i <? length (name p) - 1)
      then take i (name p) else name p
  | None => name p
  end.

Definition str_eqb (a b : str) : bool := bool_decide (a = b).

(** The names [with_name] accepts: not empty, no separator, not ["."]. *)
Definition valid_name (n : str) : bool :=
  negb (is_nil n) && negb (existsb (Ascii.eqb "/") n)
  && negb (str_eqb n (lit ".")).

(** [PurePath.with_name] *)
Definition with_name (p : Path) (n : str) : outcome Path :=
  if is_nil (name p)
  then Raise (mkExn ValueError (lit "path has an empty name"))
  else if valid_name n then Ret (mkPath (parent p) n)
  else Raise (mkExn ValueError (lit "Invalid name")).

(** [PurePath.with_stem] *)
Definition with_stem (p : Path) (st : str) : outcome Path :=
  with_name p (st ++ suffix p).

(** [PurePath.with_suffix] *)
Definition with_suffix (p : Path) (sfx : str) : outcome Path :=
  if existsb (Ascii.eqb "/") sfx
  then Raise (mkExn ValueError (lit "Invalid suffix"))
  else if (negb (is_nil sfx) && negb (startswith sfx (lit ".")))
          || str_eqb sfx (lit ".")
  then Raise (mkExn ValueError (lit "Invalid suffix"))
  else if is_nil (name p)
  then Raise (mkExn ValueError (lit "path has an empty name"))
  else
    let old_suffix := suffix p in
    Ret (mkPath (parent p)
           (if is_nil old_suffix then name p ++ sfx
            else take (length (name p) - length old_suffix) (name p) ++ sfx)).

(* ================================================================== *)
(** ** The PDF engine: documents, pages, links, text spans *)
(* ================================================================== *)

(** Modelled from the spec: the data of the PDF engine (a library
    outside the repository).  A link annotation as [page.get_links()]
    lists it: the cross reference number [delete_link] goes by, and the
    ["uri"] entry that only links to a URI have. *)
Record link : Type := mkLink { link_xref : N; link_uri : option str }.

(** A bounding box [x0, y0, x1, y1]; the program only hands it back to
    the engine. *)
Definition rect : Type := (Z * Z * Z * Z)%type.

Record span : Type := mkSpan { span_text : str; span_bbox : rect }.

Record line : Type := mkLine { line_spans : list span }.

(** A block of [page.get_text("dict")]: only text blocks have
    ["lines"]. *)
Inductive block : Type :=
| TextBlock (lines : list line)
| ImageBlock.

(** [block.get("lines", [])] *)
Definition block_lines (b : block) : list line :=
  match b with TextBlock ls => ls | ImageBlock => [] end.

(** A page: its link annotations, its text layout, and the redaction
    annotations marked on it and not yet applied. *)
Record page : Type := mkPage {
  page_links : list link;
  page_blocks : list block;
  page_redactions : list rect
}.

Definition document : Type := list page.

(** Modelled from the spec: the capability "list link annotations",
    [page.get_links()]. *)
Definition get_links (pg : page) : list link := page_links pg.

(** Modelled from the spec: the capability "delete link annotation",
    [page.delete_link(link)]: the annotation with that cross reference
    number is removed, the others stay. *)
Definition delete_link (pg : page) (l : link) : page :=
  mkPage (filter (fun k => link_xref k <> link_xref l) (page_links pg))
         (page_blocks pg) (page_redactions pg).

(** Modelled from the spec: the capability "extract text with layout",
    [page.get_text("dict")["blocks"]]. *)
Definition get_text_dict (pg : page) : list block := page_blocks pg.

Definition line_text (ln : line) : str :=
  flat_map span_text (line_spans ln) ++ lit (String "010" "").

(** Modelled from the spec: the capability "extract plain text",
    [page.get_text("text")]: the lines of the text blocks, each ended by
    a newline. *)
Definition get_text_plain (pg : page) : str :=
  flat_map (fun b => flat_map line_text (block_lines b)) (page_blocks pg).

(** Modelled from the spec: the capability "mark redaction",
    [page.add_redact_annot(rect, fill)]. *)
Definition add_redact_annot (pg : page) (r : rect) : page :=
  mkPage (page_links pg) (page_blocks pg) (page_redactions pg ++ [r]).

Definition redact_line (marks : list rect) (ln : line) : line :=
  mkLine (filter (fun sp => span_bbox sp ∉ marks) (line_spans ln)).

Definition redact_block (marks : list rect) (b : block) : block :=
  match b with
  | TextBlock ls => TextBlock (map (redact_line marks) ls)
  | ImageBlock => ImageBlock
  end.

(** Modelled from the spec: the capability "apply redaction",
    [page.apply_redactions(images=PDF_REDACT_IMAGE_NONE)], the commit of
    the two-step redaction: the content of every span whose box was
    marked is replaced (its text is gone from the text layer), images
    are kept, and the marks are consumed. *)
Definition apply_redactions (pg : page) : page :=
  mkPage (page_links pg)
         (map (redact_block (page_redactions pg)) (page_blocks pg))
         [].

(* ================================================================== *)
(** ** The world: file system, injected failures, trace *)
(* ================================================================== *)

(** Modelled from the spec: the host file system.  A file has its
    contents, a document when the bytes parse as a PDF, and the three
    times [stat] reports.  Times are epoch values; the program only
    copies them.  Reading a file leaves its times alone. *)
Record file : Type := mkFile {
  file_pdf : option document;
  file_atime : Z;
  file_mtime : Z;
  file_ctime : Z
}.

(** A failure planned for an engine or file-system call: the exception
    it raises, and whether a failing [save] leaves a partial file. *)
Record fault : Type := mkFault { fault_exn : pyexn; fault_partial : bool }.

Inductive event : Type :=
| EvRename (src dst : Path)
| EvSleep (seconds : Z).

(** [faults] is consumed by the calls that can fail for reasons outside
    the model, one entry per call: [None] lets the call proceed.  An
    exhausted plan lets every call proceed. *)
Record world : Type := mkWorld {
  fs : gmap Path file;
  faults : list (option fault);
  clock : Z;
  win32 : bool;
  pywin32 : bool;
  trace : list event
}.

Definition set_fs (w : world) (m : gmap Path file) : world :=
  mkWorld m (faults w) (clock w) (win32 w) (pywin32 w) (trace w).

Definition set_faults (w : world) (fl : list (option fault)) : world :=
  mkWorld (fs w) fl (clock w) (win32 w) (pywin32 w) (trace w).

Definition log_event (w : world) (ev : event) : world :=
  mkWorld (fs w) (faults w) (clock w) (win32 w) (pywin32 w) (trace w ++ [ev]).

(** Computations: state passing over the world, with exceptions. *)
Definition M (A : Type) : Type := world -> outcome A * world.

Definition ret {A} (a : A) : M A := fun w => (Ret a, w).

Definition raise {A} (e : pyexn) : M A := fun w => (Raise e, w).

Definition diverge {A} : M A := fun w => (Diverge, w).

Definition bind {A B} (c : M A) (k : A -> M B) : M B :=
  fun w =>
    match c w with
    | (Ret a, w') => k a w'
    | (Raise e, w') => (Raise e, w')
    | (Diverge, w') => (Diverge, w')
    end.

Declare Scope py_scope.
Delimit Scope py_scope with py.
Notation "'let*' x ':=' c 'in' k" := (bind c (fun x => k))
  (at level 10, x name, c at level 100, k at level 200) : py_scope.
Notation "'let*' ' p ':=' c 'in' k" := (bind c (fun p => k))
  (at level 10, p pattern, c at level 100, k at level 200) : py_scope.
Open Scope py_scope.

Definition lift {A} (o : outcome A) : M A := fun w => (o, w).

(** [try: body / except Exception as e: handler(e)] *)
Definition try_except {A} (body : M A) (handler : pyexn -> M A) : M A :=
  fun w =>
    match body w with
    | (Raise e, w') => handler e w'
    | r => r
    end.

(** [try: body / except OSError as e: handler(e)] *)
Definition try_except_OSError {A} (body : M A) (handler : pyexn -> M A)
  : M A :=
  fun w =>
    match body w with
    | (Raise e, w') =>
        match exn_cls e with
        | OSError => handler e w'
        | _ => (Raise e, w')
        end
    | r => r
    end.

(** The next entry of the failure plan. *)
Definition next_fault : M (option fault) :=
  fun w =>
    match faults w with
    | [] => (Ret None, w)
    | f :: rest => (Ret f, set_faults w rest)
    end.

(** A call that fails exactly when the plan says so. *)
Definition may_raise : M unit :=
  let* f := next_fault in
  match f with
  | Some ft => raise (fault_exn ft)
  | None => ret tt
  end.

Definition no_such_file : pyexn :=
  mkExn OSError (lit "[Errno 2] No such file or directory").

(** Modelled from the spec: the file-system capability "exists",
    [Path.exists]. *)
Definition path_exists (p : Path) : M bool :=
  fun w => (Ret (bool_decide (is_Some (fs w !! p))), w).

(** Modelled from the spec: [Path.unlink], which removes an existing
    file. *)
Definition path_unlink (p : Path) : M unit :=
  fun w =>
    match fs w !! p with
    | Some _ => (Ret tt, set_fs w (delete p (fs w)))
    | None => (Raise no_such_file, w)
    end.

(** Modelled from the spec: the file-system capability "stat",
    [Path.stat]. *)
Definition path_stat (p : Path) : M file :=
  fun w =>
    match fs w !! p with
    | Some f => (Ret f, w)
    | None => (Raise no_such_file, w)
    end.

(** Modelled from the spec: the file-system capability "utime",
    [os.utime(path, (atime, mtime))].  The third time of a file is its
    creation time on Windows, which the call leaves alone; elsewhere it
    is the time of the last metadata change, which the call moves to
    the present. *)
Definition os_utime (p : Path) (atime mtime : Z) : M unit :=
  fun w =>
    match fs w !! p with
    | Some f =>
        let ctime := if win32 w then file_ctime f else clock w in
        let f' := mkFile (file_pdf f) atime mtime ctime in
        (Ret tt, set_fs w (<[p := f']> (fs w)))
    | None => (Raise no_such_file, w)
    end.

(** Modelled from the spec: the [pywin32] calls of [restore_times]
    ([CreateFile], [SetFileTime], [CloseHandle]): they set the creation
    time, and fail when the package is not installed. *)
Definition win32_set_creation_time (p : Path) (ctime : Z) : M unit :=
  fun w =>
    if pywin32 w then
      match fs w !! p with
      | Some f =>
          let f' := mkFile (file_pdf f) (file_atime f) (file_mtime f) ctime in
          (Ret tt, set_fs w (<[p := f']> (fs w)))
      | None => (Raise no_such_file, w)
      end
    else (Raise (mkExn OtherError (lit "No module named 'pywintypes'")), w).

(** [sys.platform == 'win32'] *)
Definition platform_is_win32 : M bool := fun w => (Ret (win32 w), w).

(** Modelled from the spec: the move of [src] onto [dst] that
    [Path.rename] and a same-volume [shutil.move] perform ("same-volume
    rename is atomic"): all or nothing, replacing [dst]. *)
Definition move_entry (src dst : Path) : M unit :=
  fun w =>
    match fs w !! src with
    | Some f => (Ret tt, set_fs w (<[dst := f]> (delete src (fs w))))
    | None => (Raise no_such_file, w)
    end.

(** Modelled from the spec: the file-system capability "move",
    [shutil.move(src, dst)]. *)
Definition shutil_move (src dst : Path) : M unit :=
  let* _ := may_raise in
  move_entry src dst.

(** Modelled from the spec: the file-system capability "rename",
    [Path.rename(target)]; every attempt is recorded in the trace. *)
Definition path_rename (src dst : Path) : M unit :=
  let* _ := (fun w => (Ret tt, log_event w (EvRename src dst))) in
  let* _ := may_raise in
  move_entry src dst.

(** [time.sleep(seconds)], recorded in the trace. *)
Definition time_sleep (seconds : Z) : M unit :=
  fun w => (Ret tt, log_event w (EvSleep seconds)).

(** Modelled from the spec: the capability "open document",
    [fitz.open(path)]. *)
Definition fitz_open (p : Path) : M document :=
  let* _ := may_raise in
  fun w =>
    match fs w !! p with
    | Some f =>
        match file_pdf f with
        | Some d => (Ret d, w)
        | None => (Raise (mkExn OtherError (lit "Failed to open file")), w)
        end
    | None => (Raise (mkExn OtherError (lit "no such file")), w)
    end.

(** Modelled from the spec: the capability "save",
    [doc.save(path, garbage=4, deflate=True, clean=True)]: writes the
    document at [path]; a failing save may leave a partial file there. *)
Definition doc_save (d : document) (p : Path) : M unit :=
  let* f := next_fault in
  fun w =>
    let written c := mkFile c (clock w) (clock w) (clock w) in
    match f with
    | Some ft =>
        (Raise (fault_exn ft),
         if fault_partial ft then set_fs w (<[p := written None]> (fs w))
         else w)
    | None => (Ret tt, set_fs w (<[p := written (Some d)]> (fs w)))
    end.

(** Modelled from the spec: [doc.close()]. *)
Definition doc_close : M unit := may_raise.

(* ================================================================== *)
(** ** Timestamp preservation *)
(* ================================================================== *)

(** The triple [(atime, mtime, ctime)], each [None] when the capture
    failed. *)
Definition times : Type := (option Z * option Z * option Z)%type.

Definition get_file_times (path : Path) : M times :=
  try_except
    (let* st := path_stat path in
     let atime := file_atime st in
     let mtime := file_mtime st in
     let* w32 := platform_is_win32 in
     let ctime := if w32 then file_ctime st else file_mtime st in
     ret (Some atime, Some mtime, Some ctime))
    (fun _ => ret (None, None, None)).

Definition restore_times (path : Path) (atime mtime ctime : option Z)
  : M unit :=
  match atime, mtime with
  | Some a, Some m =>
      try_except
        (let* _ := os_utime path a m in
         let* w32 := platform_is_win32 in
         match w32, ctime with
         | true, Some c =>
             try_except (win32_set_creation_time path c) (fun _ => ret tt)
         | _, _ => ret tt
         end)
        (fun _ => ret tt)
  | _, _ => ret tt
  end.

(* ================================================================== *)
(** ** PDF content manipulation *)
(* ================================================================== *)

(** The test of [remove_links]:
    [uri and URI_MATCH in uri.lower()] with [uri = link.get("uri", "")]. *)
Definition link_matches (l : link) : bool :=
  let uri := default [] (link_uri l) in
  negb (is_nil uri) && contains URI_MATCH (lower uri).

(** The body of the loop of [remove_links]. *)
Definition remove_links_step (acc : page * Z) (l : link) : page * Z :=
  let '(pg, removed) := acc in
  if link_matches l then (delete_link pg l, (removed + 1)%Z)
  else (pg, removed).

Definition remove_links (pg : page) : page * Z :=
  fold_left remove_links_step (get_links pg) (pg, 0%Z).

Definition page_might_contain_phrase (pg : page) : bool :=
  let t := get_text_plain pg in
  negb (is_nil t) && re_search TEXT_PATTERN t.

(** The test of [redact_phrase]: [txt and TEXT_PATTERN.search(txt)]. *)
Definition span_matches (sp : span) : bool :=
  let txt := span_text sp in
  negb (is_nil txt) && re_search TEXT_PATTERN txt.

(** The body of the innermost loop of [redact_phrase]. *)
Definition redact_span (acc : page * Z) (sp : span) : page * Z :=
  let '(pg, hits) := acc in
  if span_matches sp
  then (add_redact_annot pg (span_bbox sp), (hits + 1)%Z)
  else (pg, hits).

Definition redact_phrase (pg : page) : page * Z :=
  let data := get_text_dict pg in
  let '(pg, hits) :=
    fold_left
      (fun acc blk =>
         fold_left
           (fun acc ln => fold_left redact_span (line_spans ln) acc)
           (block_lines blk) acc)
      data (pg, 0%Z) in
  if (hits =? 0)%Z then (pg, hits) else (apply_redactions pg, hits).

(** The value [process_pdf] returns:
    [(changed, text_hits, link_hits, error_str)]. *)
Definition result : Type := (bool * Z * Z * option str)%type.

(** [for page in doc: link_hits += remove_links(page)].  The engine may
    fail at every page. *)
Fixpoint links_pass (pages : list page) (link_hits : Z)
  : M (list page * Z) :=
  match pages with
  | [] => ret ([], link_hits)
  | pg :: rest =>
      let* _ := may_raise in
      let '(pg', n) := remove_links pg in
      let* '(rest', total) := links_pass rest (link_hits + n)%Z in
      ret (pg' :: rest', total)
  end.

(** [for page in doc: if page_might_contain_phrase(page):
    text_hits += redact_phrase(page)] *)
Fixpoint text_pass (pages : list page) (text_hits : Z)
  : M (list page * Z) :=
  match pages with
  | [] => ret ([], text_hits)
  | pg :: rest =>
      let* _ := may_raise in
      let '(pg', n) :=
        if page_might_contain_phrase pg then redact_phrase pg
        else (pg, 0%Z) in
      let* '(rest', total) := text_pass rest (text_hits + n)%Z in
      ret (pg' :: rest', total)
  end.

(** [if temp.exists(): temp.unlink()] *)
Definition unlink_if_exists (temp : Path) : M unit :=
  let* ex := path_exists temp in
  if ex then path_unlink temp else ret tt.

(** The [try] block of [process_pdf]. *)
Definition process_pdf_body (pdf_path temp : Path)
    (atime mtime ctime : option Z) (links_only dry_run : bool) : M result :=
  let* doc := fitz_open pdf_path in
  let* '(doc, link_hits) := links_pass doc 0%Z in
  let* '(doc, text_hits) :=
    (if negb links_only then text_pass doc 0%Z else ret (doc, 0%Z)) in
  let changed := (text_hits + link_hits >? 0)%Z in
  if dry_run then
    let* _ := doc_close in
    ret (true, text_hits, link_hits, None)
  else
    let* _ := (if changed then doc_save doc temp else ret tt) in
    let* _ := doc_close in
    if negb changed then
      let* _ := unlink_if_exists temp in
      ret (false, 0%Z, 0%Z, None)
    else
      let* _ := shutil_move temp pdf_path in
      let* _ := restore_times pdf_path atime mtime ctime in
      ret (true, text_hits, link_hits, None).

Definition process_pdf (pdf_path : Path) (links_only dry_run : bool)
  : M result :=
  let* temp := lift (with_suffix pdf_path (suffix pdf_path ++ lit ".tmp")) in
  let* '(atime, mtime, ctime) := get_file_times pdf_path in
  try_except
    (process_pdf_body pdf_path temp atime mtime ctime links_only dry_run)
    (fun e =>
       let* _ := unlink_if_exists temp in
       ret (false, (-1)%Z, (-1)%Z, Some (exn_msg e))).

(* ================================================================== *)
(** ** Filename manipulation *)
(* ================================================================== *)

(** The character class of [sanitize]: backslash, slash, colon, star,
    question mark, double quote, angle brackets and bar. *)
Definition illegal_char (c : ascii) : bool :=
  existsb (Ascii.eqb c)
    ["\"; "/"; ":"; "*"; "?"; "034"; "<"; ">"; "|"]%char.

Definition sanitize (s : str) : str :=
  let cleaned := re_sub_class illegal_char [] s in
  strip cleaned.

(** The [while True] loop of [unique_path], run for at most [fuel]
    candidates. *)
Fixpoint unique_path_loop (fuel : nat) (p : Path) (i : nat) : M Path :=
  match fuel with
  | O => diverge
  | S fuel' =>
      let* cand :=
        lift (with_stem p (stem p ++ lit " (" ++ lit (pretty i) ++ lit ")")) in
      let* ex := path_exists cand in
      if negb ex then ret cand
      else unique_path_loop fuel' p (S i)
  end.

Definition unique_path (fuel : nat) (p : Path) : M Path :=
  let* ex := path_exists p in
  if negb ex then ret p
  else unique_path_loop fuel p 1.

(** Rule 1 of [compute_rename]. *)
Definition strip_zlib (name : str) : str :=
  if endswith name ZLIB_SUFFIX
  then take (length name - length ZLIB_SUFFIX) name
  else name.

(** Rule 2 of [compute_rename]. *)
Definition reformat_prefixed (name : str) : str :=
  if startswith name PREFIX then
    let remainder := drop (length PREFIX) name in
    let parts := split1 (lit "_-_") remainder in
    match parts with
    | [title; author] =>
        let title := sanitize title in
        let author := sanitize author in
        author ++ lit " - " ++ title
    | _ => name
    end
  else name.

(** Rule 3 of [compute_rename]. *)
Definition normalize_name (name : str) : str :=
  let name := re_sub_plus (Ascii.eqb "_") (lit " ") name in
  let name := re_sub_plus isspace (lit " ") name in
  strip name.

Definition compute_rename (fuel : nat) (pdf_path : Path)
  : M (option Path) :=
  let name := stem pdf_path in
  let name := strip_zlib name in
  let name := reformat_prefixed name in
  let name := normalize_name name in
  let* new_path := lift (with_name pdf_path (name ++ suffix pdf_path)) in
  if bool_decide (new_path = pdf_path) then ret None
  else
    let* q := unique_path fuel new_path in
    ret (Some q).

(** The test of the [except OSError] handler of [rename_if_needed]. *)
Definition is_cloud_error (e : pyexn) : bool :=
  let error_msg := lower (exn_msg e) in
  contains (lit "cloud operation") error_msg
  || contains (lit "time-out") error_msg.

(** [for attempt in range(retries): ...], with [n] iterations left. *)
Fixpoint rename_attempts (n : nat) (attempt retries : Z)
    (pdf_path new_path : Path) (atime mtime ctime : option Z)
  : M (bool * Path) :=
  match n with
  | O => ret (false, pdf_path)
  | S n' =>
      try_except_OSError
        (let* _ := path_rename pdf_path new_path in
         let* _ := restore_times new_path atime mtime ctime in
         ret (true, new_path))
        (fun e =>
           if is_cloud_error e && (attempt <? retries - 1)%Z then
             let* _ := time_sleep 1 in
             rename_attempts n' (attempt + 1)%Z retries pdf_path new_path
               atime mtime ctime
           else raise e)
  end.

Definition rename_if_needed (fuel : nat) (pdf_path : Path)
    (dry_run : bool) (retries : Z) : M (bool * Path) :=
  let* new_path := compute_rename fuel pdf_path in
  match new_path with
  | None => ret (false, pdf_path)
  | Some new_path =>
      let* '(atime, mtime, ctime) := get_file_times pdf_path in
      if dry_run then ret (true, new_path)
      else rename_attempts (Z.to_nat retries) 0%Z retries pdf_path new_path
             atime mtime ctime
  end.

(* ================================================================== *)
(** ** The retry loop of the enhanced edition *)
(* ================================================================== *)

(** [rename_if_needed] as the enhanced edition writes its handler: the
    test on the text first, the test on the budget inside it, and one
    [raise] after both. *)
Fixpoint rename_attempts_v2 (n : nat) (attempt retries : Z)
    (pdf_path new_path : Path) (atime mtime ctime : option Z)
  : M (bool * Path) :=
  match n with
  | O => ret (false, pdf_path)
  | S n' =>
      try_except_OSError
        (let* _ := path_rename pdf_path new_path in
         let* _ := restore_times new_path atime mtime ctime in
         ret (true, new_path))
        (fun e =>
           if contains (lit "cloud operation") (lower (exn_msg e))
              || contains (lit "time-out") (lower (exn_msg e))
           then
             if (attempt <? retries - 1)%Z then
               let* _ := time_sleep 1 in
               rename_attempts_v2 n' (attempt + 1)%Z retries pdf_path
                 new_path atime mtime ctime
             else raise e
           else raise e)
  end.

Definition rename_if_needed_v2 (fuel : nat) (pdf_path : Path)
    (dry_run : bool) (retries : Z) : M (bool * Path) :=
  let* new_path := compute_rename fuel pdf_path in
  match new_path with
  | None => ret (false, pdf_path)
  | Some new_path =>
      let* '(atime, mtime, ctime) := get_file_times pdf_path in
      if dry_run then ret (true, new_path)
      else rename_attempts_v2 (Z.to_nat retries) 0%Z retries pdf_path
             new_path atime mtime ctime
  end.

(* ================================================================== *)
(** ** Cloud-sync detection *)
(* ================================================================== *)

Definition CLOUD_PATTERNS : list str :=
  [lit "onedrive"; lit "dropbox"; lit "google drive"; lit "crossdevice";
   lit "icloud"; lit "box sync"; lit "sync"; lit "cloud"].

(** [str(path)] of a pure POSIX path: the parent and the final
    component joined by one separator; the parent alone for a path
    without final component (the root, the current directory); the
    final component alone below the current directory. *)
Definition fspath (p : Path) : str :=
  if is_nil (name p) then parent p
  else if str_eqb (parent p) (lit ".") then name p
  else if endswith (parent p) (lit "/") then parent p ++ name p
  else parent p ++ lit "/" ++ name p.

Definition is_cloud_path (path : Path) : bool :=
  let path_str := lower (fspath path) in
  existsb (fun pattern => contains pattern path_str) CLOUD_PATTERNS.

(* ================================================================== *)
(** ** PDF discovery *)
(* ================================================================== *)

(** Modelled from the spec: what the host file system holds at a path,
    as a scan sees it: a regular file, or a directory with its entries
    in the order the system lists them. *)
#[warnings="-register-all"]
Inductive node : Type :=
| File
| Folder (entries : list (str * node)).

Definition is_folder (n : node) : bool :=
  match n with Folder _ => true | File => false end.

(** Modelled from the spec: [Path.is_file] and [Path.is_dir], over the
    nodes the targets of a scan hold. *)
Definition is_file (disk : gmap Path node) (p : Path) : bool :=
  match disk !! p with Some File => true | _ => false end.

Definition is_dir (disk : gmap Path node) (p : Path) : bool :=
  match disk !! p with Some (Folder _) => true | _ => false end.

(** [current_path / file] for one plain component: the path whose parent
    is [current_path] and whose final component is [file]. *)
Definition joinpath (current_path : Path) (file : str) : Path :=
  mkPath (fspath current_path) file.

(** Modelled from the spec: [os.walk(top)], top-down: one triple
    [(root, dirs, files)] for the directory, then the walks of its
    sub-directories in the order listed.  Each [root] is given as the
    path [Path(root)] it is read back as: [os.walk] joins the text of
    the directory and the name of the sub-directory, which reads back
    as the directory path extended by that name.  Walking what is not a
    directory yields nothing. *)
Fixpoint os_walk (root : Path) (n : node)
  : list (Path * list str * list str) :=
  match n with
  | File => []
  | Folder entries =>
      let dirs := map fst (filter (fun e => is_folder (snd e)) entries) in
      let files :=
        map fst (filter (fun e => negb (is_folder (snd e))) entries) in
      (root, dirs, files)
      :: flat_map
           (fun e =>
              match snd e with
              | Folder _ => os_walk (joinpath root (fst e)) (snd e)
              | File => []
              end)
           entries
  end.

Definition walk (disk : gmap Path node) (target : Path)
  : list (Path * list str * list str) :=
  match disk !! target with
  | Some n => os_walk target n
  | None => []
  end.

(** The test on a target: [target.suffix.lower() == ".pdf"]. *)
Definition has_pdf_suffix (target : Path) : bool :=
  str_eqb (lower (suffix target)) (lit ".pdf").

(** The test on a listed file: [file.lower().endswith('.pdf')]. *)
Definition is_pdf_name (file : str) : bool :=
  endswith (lower file) (lit ".pdf").

(** The generator [collect_pdfs_streaming], as the list of the paths it
    yields, in order.  The callback is told each directory and has no
    part in what is yielded. *)
Definition collect_pdfs_streaming (disk : gmap Path node) (target : Path)
  : list Path :=
  if is_file disk target && has_pdf_suffix target then [target]
  else if is_dir disk target then
    flat_map
      (fun '(current_path, dirs, files) =>
         map (joinpath current_path) (filter is_pdf_name files))
      (walk disk target)
  else [].

(** The variables [local_pdfs], [cloud_pdfs] and [total_found] of
    [collect_pdfs_all]. *)
Definition scan_state : Type := (list Path * list Path * Z)%type.

(** "Categorize as local or cloud", the four lines both branches of
    [collect_pdfs_all] run on a PDF, and the count. *)
Definition add_pdf (st : scan_state) (pdf_path : Path) : scan_state :=
  let '(local_pdfs, cloud_pdfs, total_found) := st in
  if is_cloud_path pdf_path
  then (local_pdfs, cloud_pdfs ++ [pdf_path], (total_found + 1)%Z)
  else (local_pdfs ++ [pdf_path], cloud_pdfs, (total_found + 1)%Z).

(** [for file in files: if file.lower().endswith('.pdf'): ...] *)
Definition scan_files (current_path : Path) (files : list str)
    (st : scan_state) : scan_state :=
  fold_left
    (fun st file =>
       if is_pdf_name file then add_pdf st (joinpath current_path file)
       else st)
    files st.

(** The body of [for target in targets]. *)
Definition scan_target (disk : gmap Path node) (st : scan_state)
    (target : Path) : scan_state :=
  if is_file disk target && has_pdf_suffix target then add_pdf st target
  else if is_dir disk target then
    fold_left
      (fun st '(current_path, dirs, files) =>
         scan_files current_path files st)
      (walk disk target) st
  else st.

Definition collect_pdfs_all_state (disk : gmap Path node)
    (targets : list Path) : scan_state :=
  fold_left (scan_target disk) targets ([], [], 0%Z).

(** [collect_pdfs_all(targets, show_progress)]; [show_progress] only
    chooses what is printed. *)
Definition collect_pdfs_all (disk : gmap Path node) (targets : list Path)
  : list Path * list Path :=
  let '(local_pdfs, cloud_pdfs, total_found) :=
    collect_pdfs_all_state disk targets in
  (local_pdfs, cloud_pdfs).

(* ================================================================== *)
(** ** Processing one file *)
(* ================================================================== *)

(** The values of the dictionary [process_single_pdf] returns. *)
Inductive pyval : Type :=
| VInt (n : Z)
| VStr (s : str).

#[global] Instance pyval_eq_dec : EqDecision pyval.
Proof. solve_decision. Defined.

(** The lines [process_single_pdf] hands to [log_func], by what they
    say: the colours and icons of the text are left out. *)
Inductive message : Type :=
| MsgFailed (original_name err : str)
| MsgRenameFailed (original_name err : str)
| MsgCleaned (dry_run : bool) (original_name : str) (hits : Z)
    (renamed_to : option str)
| MsgRenamed (dry_run : bool) (original_name new_name : str).

(** [if err:] on the error text of [process_pdf]: [None] and the empty
    text are false. *)
Definition truthy (err : option str) : bool :=
  match err with
  | Some s => negb (is_nil s)
  | None => false
  end.

(** [{'failed': 1, 'error': err, 'filename': pdf.name}] *)
Definition failure_dict (err filename : str) : gmap string pyval :=
  {[ "failed"%string := VInt 1;
     "error"%string := VStr err;
     "filename"%string := VStr filename ]}.

(** [rename_if_needed(pdf, dry_run)] takes the default [retries=3].
    The early [return] of the handler is the left injection. *)
Definition process_single_pdf (fuel : nat) (pdf : Path)
    (dry_run links_only no_rename : bool) (log_func : message -> M unit)
  : M (gmap string pyval) :=
  let original_name := name pdf in
  let* '(changed, text_hits, link_hits, err) :=
    process_pdf pdf links_only dry_run in
  if truthy err then
    let err := default [] err in
    let* _ := log_func (MsgFailed original_name err) in
    ret (failure_dict err (name pdf))
  else
    let* renaming :=
      (if negb no_rename then
         try_except
           (let* r := rename_if_needed fuel pdf dry_run 3 in
            ret (inr r))
           (fun e =>
              let* _ := log_func (MsgRenameFailed original_name (exn_msg e)) in
              ret (inl (failure_dict (exn_msg e) (name pdf))))
       else ret (inr (false, pdf))) in
    match renaming with
    | inl failure => ret failure
    | inr (did_rename, new_path) =>
        let result : gmap string pyval :=
          {[ "cleaned"%string := VInt 0;
             "renamed"%string := VInt 0;
             "failed"%string := VInt 0 ]} in
        let result :=
          if did_rename then <["renamed"%string := VInt 1]> result
          else result in
        if changed then
          let result := <["cleaned"%string := VInt 1]> result in
          let rename_str :=
            if did_rename then Some (name new_path) else None in
          let* _ :=
            log_func (MsgCleaned dry_run original_name
                        (text_hits + link_hits)%Z rename_str) in
          ret result
        else if did_rename then
          let* _ :=
            log_func (MsgRenamed dry_run original_name (name new_path)) in
          ret result
        else ret result
    end.

(* ================================================================== *)
(** ** The statistics of [main] *)
(* ================================================================== *)

(** The counters [cleaned], [renamed], [failed] and the dictionary
    [errors] of [main]; [errors] keeps the order of insertion. *)
Record tally : Type := mkTally {
  cleaned : Z;
  renamed : Z;
  failed : Z;
  errors : list (pyval * list pyval)
}.

Definition type_error : pyexn :=
  mkExn OtherError (lit "unsupported operand type(s) for +=: 'int' and 'str'").

(** [KeyError(key)], whose text is the key between quotes. *)
Definition key_error (key : string) : pyexn :=
  mkExn OtherError (lit "'" ++ lit key ++ lit "'").

(** [n += v] for a counter [n]. *)
Definition add_to (n : Z) (v : pyval) : outcome Z :=
  match v with
  | VInt k => Ret (n + k)%Z
  | VStr _ => Raise type_error
  end.

(** [errors.setdefault(key, []).append(filename)] *)
Fixpoint setdefault_append (errors : list (pyval * list pyval))
    (key filename : pyval) : list (pyval * list pyval) :=
  match errors with
  | [] => [(key, [filename])]
  | (k, files) :: rest =>
      if bool_decide (k = key) then (k, files ++ [filename]) :: rest
      else (k, files) :: setdefault_append rest key filename
  end.

(** "Update statistics", the lines both loops of [main] run on the
    result of [process_single_pdf]. *)
Definition update_statistics (t : tally) (result : gmap string pyval)
  : outcome tally :=
  match result !! "failed"%string with
  | Some v =>
      match add_to (failed t) v with
      | Ret failed =>
          match result !! "error"%string with
          | Some err =>
              match result !! "filename"%string with
              | Some filename =>
                  Ret (mkTally (cleaned t) (renamed t) failed
                         (setdefault_append (errors t) err filename))
              | None => Raise (key_error "filename")
              end
          | None => Ret (mkTally (cleaned t) (renamed t) failed (errors t))
          end
      | Raise e => Raise e
      | Diverge => Diverge
      end
  | None =>
      match add_to (cleaned t) (default (VInt 0) (result !! "cleaned"%string)) with
      | Ret cleaned =>
          match add_to (renamed t) (default (VInt 0) (result !! "renamed"%string)) with
          | Ret renamed => Ret (mkTally cleaned renamed (failed t) (errors t))
          | Raise e => Raise e
          | Diverge => Diverge
          end
      | Raise e => Raise e
      | Diverge => Diverge
      end
  end.

(** [for pdf in iterator: result = process_single_pdf(...)] followed by
    the update of the statistics, the loop of the standard mode of
    [main]; the streaming mode runs the same two steps on each path the
    generator yields. *)
Fixpoint main_loop (fuel : nat) (pdfs : list Path)
    (dry_run links_only no_rename : bool) (log : message -> M unit)
    (t : tally) : M tally :=
  match pdfs with
  | [] => ret t
  | pdf :: rest =>
      let* result :=
        process_single_pdf fuel pdf dry_run links_only no_rename log in
      let* t := lift (update_statistics t result) in
      main_loop fuel rest dry_run links_only no_rename log t
  end.

(** [return 0 if not failed else 2] *)
Definition exit_code (t : tally) : Z :=
  if (failed t =? 0)%Z then 0%Z else 2%Z.

(* ================================================================== *)
(** ** Sample inputs *)
(* ================================================================== *)

Definition books : str := lit "/books".

Definition in_books (n : string) : Path := mkPath books (lit n).

Definition watermark_link : link :=
  mkLink 7 (Some (lit "https://OceanofPDFs.com/free-books")).

Definition watermark_span : span :=
  mkSpan (lit "OceanofPDFs.com") (72, 20, 180, 32)%Z.

Definition spaced_span : span :=
  mkSpan (lit "O c e a n o f P D F . c o m") (72, 40, 260, 52)%Z.

Definition body_span : span :=
  mkSpan (lit "Chapter One") (72, 60, 150, 72)%Z.

(** A page that carries the watermark as the site writes it, and a link
    to the site. *)
Definition watermarked_page : page :=
  mkPage [watermark_link]
         [TextBlock [mkLine [watermark_span]; mkLine [body_span]]] [].

(** A page whose watermark lacks the letter "s" and is spaced out. *)
Definition spaced_page : page :=
  mkPage [] [ImageBlock; TextBlock [mkLine [spaced_span; body_span]]] [].

(** A page without watermark and without links. *)
Definition plain_page : page :=
  mkPage [] [TextBlock [mkLine [body_span]]] [].

Definition stored (d : document) : file := mkFile (Some d) 1000 2000 3000.

Definition world_of (m : gmap Path file) (plan : list (option fault))
  : world :=
  mkWorld m plan 5000 false false [].

Definition failure (cls : exn_class) (msg : string) : option fault :=
  Some (mkFault (mkExn cls (lit msg)) true).

(** A cloud-synced folder with two PDFs, one of them in a
    sub-directory, and the disk that holds it. *)
Definition onedrive : Path := mkPath (lit "/home/me") (lit "OneDrive").

Definition library : node :=
  Folder [(lit "a.pdf", File); (lit "notes.txt", File);
          (lit "sub", Folder [(lit "B.PDF", File)])].

Definition sample_disk : gmap Path node := {[ onedrive := library ]}.

(** A world with a watermarked PDF under the name the site gives, and a
    file that is no PDF. *)
Definition sample_run : list Path :=
  [in_books "_OceanofPDFs.com_Gatsby_-_Fitzgerald.pdf"; in_books "broken.pdf"].

Definition sample_world : world :=
  world_of {[ in_books "_OceanofPDFs.com_Gatsby_-_Fitzgerald.pdf"
                := stored [spaced_page];
              in_books "broken.pdf" := mkFile None 1 2 3 ]} [].

(** A logging function that prints and does nothing else. *)
Definition silent : message -> M unit := fun _ => ret tt.


(* ================================================================== *)
(** ** Notions used in the statements *)
(* ================================================================== *)

(** [keeps R c]: whatever [c] does, the worlds before and after are
    related by [R]. *)
Definition keeps {A} (R : world -> world -> Prop) (c : M A) : Prop :=
  forall w o w', c w = (o, w') -> R w w'.

(** The file system is the same. *)
Definition same_fs (w w' : world) : Prop := fs w' = fs w.

(** The file systems agree away from [temp]. *)
Definition fs_frame (temp : Path) (w w' : world) : Prop :=
  forall q, q <> temp -> fs w' !! q = fs w !! q.

(** The spans of a page, in the order [redact_phrase] visits them. *)
Definition all_spans (pg : page) : list span :=
  flat_map (fun b => flat_map line_spans (block_lines b)) (page_blocks pg).

(** What the text pass of [process_pdf] does to one page. *)
Definition redact_if_needed (pg : page) : page * Z :=
  if page_might_contain_phrase pg then redact_phrase pg else (pg, 0%Z).

(** The path [unique_path] tries at step [i]:
    [p.with_stem(f"{p.stem} ({i})")]. *)
Definition candidate (p : Path) (i : nat) : Path :=
  mkPath (parent p)
         (stem p ++ lit " (" ++ lit (pretty i) ++ lit ")" ++ suffix p).

(** No path separator in the text. *)
Definition no_slash (s : str) : Prop := Forall (fun c => c <> "/"%char) s.

(** A planned failure the handler of [rename_if_needed] retries after:
    an [OSError] whose text names a cloud operation or a time-out. *)
Definition transient (ft : fault) : Prop :=
  exn_cls (fault_exn ft) = OSError /\ is_cloud_error (fault_exn ft) = true.

(** The trace of [k] failed attempts, each followed by a sleep of one
    second. *)
Definition retried (src dst : Path) (k : nat) : list event :=
  concat (replicate k [EvRename src dst; EvSleep 1]).

(** The world after [k] failed attempts: the plan is down to [plan], the
    trace has grown, the files are untouched. *)
Definition after_retries (w : world) (src dst : Path) (k : nat)
    (plan : list (option fault)) : world :=
  mkWorld (fs w) plan (clock w) (win32 w) (pywin32 w)
          (trace w ++ retried src dst k).

(** Whitespace occurs only as single spaces; [after_space] tells that
    a space, or the start of the text, comes just before. *)
Fixpoint single_spaced (after_space : bool) (s : str) : bool :=
  match s with
  | [] => true
  | c :: s' =>
      if isspace c
      then Ascii.eqb c " " && negb after_space && single_spaced true s'
      else single_spaced false s'
  end.

Definition ends_with_space (s : str) : bool :=
  match last s with Some c => isspace c | None => false end.

(** A title or an author that the rules of [compute_rename] leave as it
    is: not empty, free of the characters [sanitize] removes and of
    underscores, with whitespace only as single spaces between other
    characters. *)
Definition plain_part (s : str) : bool :=
  negb (is_nil s)
  && forallb (fun c => negb (illegal_char c) && negb (Ascii.eqb c "_")) s
  && single_spaced true s
  && negb (ends_with_space s).

(** The language of a pattern: [matches r s] when the whole of [s] is
    matched by [r]. *)
Inductive matches : regex -> str -> Prop :=
| MEps : matches ReEps []
| MSet p c : p c = true -> matches (ReSet p) [c]
| MCat r1 r2 s1 s2 :
    matches r1 s1 -> matches r2 s2 -> matches (ReCat r1 r2) (s1 ++ s2)
| MAltL r1 r2 s : matches r1 s -> matches (ReAlt r1 r2) s
| MAltR r1 r2 s : matches r2 s -> matches (ReAlt r1 r2) s
| MStarNil r : matches (ReStar r) []
| MStarApp r s1 s2 :
    matches r s1 -> matches (ReStar r) s2 -> matches (ReStar r) (s1 ++ s2).

(** A text lower-cased and without its whitespace. *)
Definition squeeze (s : str) : str :=
  filter (fun c => isspace c = false) (lower s).

(** The state of a scan after the PDFs [found] have been categorized
    one after the other. *)
Definition categorized (st : scan_state) (found : list Path) : scan_state :=
  let '(local_pdfs, cloud_pdfs, total_found) := st in
  (local_pdfs ++ filter (fun p => is_cloud_path p = false) found,
   cloud_pdfs ++ filter (fun p => is_cloud_path p = true) found,
   (total_found + Z.of_nat (length found))%Z).

(** [lies_in root n p]: the directory tree [n], found at [root], holds
    at [p] a file (not a directory) whose name ends in [.pdf] in some
    letter case. *)
Inductive lies_in : Path -> node -> Path -> Prop :=
| LiesHere root entries file :
    (file, File) ∈ entries ->
    is_pdf_name file = true ->
    lies_in root (Folder entries) (joinpath root file)
| LiesBelow root entries dir sub p :
    (dir, Folder sub) ∈ entries ->
    lies_in (joinpath root dir) (Folder sub) p ->
    lies_in root (Folder entries) p.

(** Only the files at the paths [touched] may differ. *)
Definition fs_only (touched : list Path) (w w' : world) : Prop :=
  forall q, q ∉ touched -> fs w' !! q = fs w !! q.

(** A computation that never runs out of fuel. *)
Definition halts {A} (c : M A) : Prop :=
  forall w w', c w <> (Diverge, w').

(** A text as rule 3 of [compute_rename] leaves it: no underscore, and
    whitespace only as single spaces between other characters. *)
Definition tidy (s : str) : bool :=
  forallb (fun c => negb (Ascii.eqb "_" c)) s
  && single_spaced true s
  && negb (ends_with_space s).

(** A character that is neither an underscore, nor whitespace, nor a
    dot, nor a separator. *)
Definition solid (c : ascii) : bool :=
  negb (Ascii.eqb "_" c) && negb (isspace c)
  && negb (Ascii.eqb c ".") && negb (Ascii.eqb c "/").

(** [{'cleaned': c, 'renamed': r, 'failed': 0}], the dictionary
    [process_single_pdf] returns for a file that did not fail. *)
Definition success_dict (c r : Z) : gmap string pyval :=
  {[ "cleaned"%string := VInt c;
     "renamed"%string := VInt r;
     "failed"%string := VInt 0 ]}.

(** The statistics [main] starts from. *)
Definition no_statistics : tally := mkTally 0 0 0 [].

(** The file names listed in [errors], over all error texts. *)
Definition listed (t : tally) : list pyval := flat_map snd (errors t).

(** A logging function that only prints. *)
Definition quiet (log_func : message -> M unit) : Prop :=
  forall m w, log_func m w = (Ret tt, w).

(** No file exists after that did not exist before. *)
Definition no_new_file (w w' : world) : Prop :=
  forall q, is_Some (fs w' !! q) -> is_Some (fs w !! q).

(** The temporary path of [process_pdf] for a file: its name with
    [.tmp] appended. *)
Definition temp_of (pdf_path : Path) : Path :=
  mkPath (parent pdf_path) (name pdf_path ++ lit ".tmp").

(** A page on which [redact_phrase] finds nothing. *)
Definition clean_page (pg : page) : Prop :=
  Forall (fun sp => span_matches sp = false) (all_spans pg).

(** The world is the same. *)
Definition same_world (w w' : world) : Prop := w' = w.

(* ================================================================== *)
(** * Properties *)
(* ================================================================== *)

(** ** The embedding on the examples of the source *)

Example suffix_of_pdf_name :
  suffix (in_books "document.pdf") = lit ".pdf"
  /\ stem (in_books "document.pdf") = lit "document"
  /\ stem (in_books ".hidden") = lit ".hidden"
  /\ suffix (in_books "archive.tar.gz") = lit ".gz".
Proof. repeat split; reflexivity. Qed.

Example temporary_path :
  with_suffix (in_books "book.pdf") (suffix (in_books "book.pdf") ++ lit ".tmp")
  = Ret (in_books "book.pdf.tmp").
Proof. reflexivity. Qed.

Example sanitize_quotes :
  sanitize (lit "Book: The <Great> Novel? ") = lit "Book The Great Novel".
Proof. vm_compute. reflexivity. Qed.

Example compute_rename_gatsby :
  fst (compute_rename 1 (in_books "_OceanofPDFs.com_Gatsby_-_Fitzgerald.pdf")
         (world_of ∅ []))
  = Ret (Some (in_books "Fitzgerald - Gatsby.pdf")).
Proof. vm_compute. reflexivity. Qed.

Example compute_rename_zlib :
  fst (compute_rename 1 (in_books "Book_ (Z-Library).pdf") (world_of ∅ []))
  = Ret (Some (in_books "Book.pdf")).
Proof. vm_compute. reflexivity. Qed.

Example compute_rename_underscores :
  fst (compute_rename 1 (in_books "Book___Title__Name.pdf") (world_of ∅ []))
  = Ret (Some (in_books "Book Title Name.pdf")).
Proof. vm_compute. reflexivity. Qed.

Example compute_rename_no_change :
  fst (compute_rename 1 (in_books "Book Title.pdf") (world_of ∅ []))
  = Ret None.
Proof. vm_compute. reflexivity. Qed.

Example unique_path_second_collision :
  fst (unique_path 3 (in_books "document.pdf")
         (world_of {[ in_books "document.pdf" := stored [];
                      in_books "document (1).pdf" := stored [] ]} []))
  = Ret (in_books "document (2).pdf").
Proof. vm_compute. reflexivity. Qed.

Example redact_phrase_spaced :
  redact_phrase spaced_page
  = (mkPage [] [ImageBlock; TextBlock [mkLine [body_span]]] [], 1%Z).
Proof. vm_compute. reflexivity. Qed.

Example process_pdf_cleans :
  let p := in_books "novel.pdf" in
  let w := world_of {[ p := stored [spaced_page] ]} [] in
  let '(r, w') := process_pdf p false false w in
  r = Ret (true, 1%Z, 0%Z, None)
  /\ fs w' !! p
     = Some (mkFile (Some [mkPage [] [ImageBlock; TextBlock [mkLine [body_span]]] []])
               1000 2000 5000)
  /\ fs w' !! in_books "novel.pdf.tmp" = None.
Proof. vm_compute. repeat split; reflexivity. Qed.


(** ** The matcher and the language of a pattern *)

Lemma nullable_matches r : nullable r = true <-> matches r [].
Proof.
  induction r as [| |p|r1 IH1 r2 IH2|r1 IH1 r2 IH2|r IH]; cbn [nullable].
  - split; [discriminate | intros H; inversion H].
  - split; [constructor | reflexivity].
  - split; [discriminate | intros H; inversion H].
  - rewrite andb_true_iff, IH1, IH2. split.
    + intros [H1 H2]. exact (MCat _ _ [] [] H1 H2).
    + intros H. inversion H as [| |? ? s1 s2 H1 H2| | | |]; subst.
      match goal with
      | E : _ ++ _ = [] |- _ => apply app_eq_nil in E as [-> ->]
      end.
      auto.
  - rewrite orb_true_iff, IH1, IH2. split.
    + intros [H|H]; [apply MAltL | apply MAltR]; exact H.
    + intros H. inversion H; subst; auto.
  - split; [constructor | reflexivity].
Qed.

(** A non-empty match of a star starts with a non-empty match of its
    body. *)
Lemma matches_star_cons r c s :
  matches (ReStar r) (c :: s) ->
  exists s1 s2, s = s1 ++ s2 /\ matches r (c :: s1) /\ matches (ReStar r) s2.
Proof.
  intros H. remember (ReStar r) as r' eqn:Er. remember (c :: s) as t eqn:Et.
  revert c s Et.
  induction H as [| | | | | |r0 s1 s2 H1 _ H2 IH2]; intros x t Et;
    try discriminate.
  injection Er as ->.
  destruct s1 as [|c1 s1].
  - simpl in Et. apply IH2; [reflexivity | exact Et].
  - injection Et as -> <-. exists s1, s2. auto.
Qed.

Lemma deriv_matches c r : forall s, matches (deriv c r) s <-> matches r (c :: s).
Proof.
  induction r as [| |p|r1 IH1 r2 IH2|r1 IH1 r2 IH2|r IH]; intros s;
    cbn [deriv].
  - split; intros H; inversion H.
  - split; intros H; inversion H.
  - destruct (p c) eqn:Ep; split; intros H; inversion H; subst.
    + constructor. exact Ep.
    + constructor.
    + congruence.
  - assert (matches (ReCat (deriv c r1) r2) s
            <-> exists s1 s2, s = s1 ++ s2 /\ matches r1 (c :: s1)
                              /\ matches r2 s2) as Hcat.
    { split.
      - intros H. inversion H as [| |? ? s1 s2 H1 H2| | | |]; subst.
        exists s1, s2. rewrite <- IH1. auto.
      - intros (s1 & s2 & -> & H1 & H2). constructor; [apply IH1, H1 | exact H2]. }
    assert (matches (ReCat r1 r2) (c :: s)
            <-> (exists s1 s2, s = s1 ++ s2 /\ matches r1 (c :: s1)
                               /\ matches r2 s2)
                \/ (matches r1 [] /\ matches r2 (c :: s))) as Hall.
    { split.
      - intros H. inversion H as [| |? ? s1 s2 H1 H2 Er E| | | |]; subst.
        destruct s1 as [|c1 s1].
        + right. simpl in E. subst. auto.
        + left. injection E as -> <-. exists s1, s2. auto.
      - intros [(s1 & s2 & -> & H1 & H2)|[H1 H2]].
        + exact (MCat _ _ (c :: s1) s2 H1 H2).
        + exact (MCat _ _ [] (c :: s) H1 H2). }
    rewrite Hall. destruct (nullable r1) eqn:En.
    + split.
      * intros H. inversion H; subst.
        -- left. apply Hcat. assumption.
        -- right. split; [apply nullable_matches, En | apply IH2; assumption].
      * intros [H|[_ H]].
        -- apply MAltL, Hcat, H.
        -- apply MAltR, IH2, H.
    + rewrite Hcat. split; [auto|].
      intros [H|[H _]]; [exact H|].
      apply nullable_matches in H. congruence.
  - split.
    + intros H. inversion H; subst;
        [apply MAltL, IH1 | apply MAltR, IH2]; assumption.
    + intros H. inversion H; subst;
        [apply MAltL, IH1 | apply MAltR, IH2]; assumption.
  - split.
    + intros H. inversion H as [| |? ? s1 s2 H1 H2| | | |]; subst.
      apply IH in H1. exact (MStarApp _ (c :: s1) s2 H1 H2).
    + intros H. apply matches_star_cons in H as (s1 & s2 & -> & H1 & H2).
      constructor; [apply IH, H1 | exact H2].
Qed.

(** [re_match] holds exactly when the pattern matches a prefix. *)
Lemma re_match_spec s : forall r,
  re_match r s = true <-> exists p q, s = p ++ q /\ matches r p.
Proof.
  induction s as [|c s IH]; intros r; cbn [re_match].
  - rewrite orb_false_r, nullable_matches. split.
    + intros H. exists [], []. auto.
    + intros (p & q & E & H). symmetry in E.
      apply app_eq_nil in E as [-> _]. exact H.
  - rewrite orb_true_iff, nullable_matches, IH. split.
    + intros [H|(p & q & -> & H)].
      * exists [], (c :: s). auto.
      * exists (c :: p), q. split; [reflexivity | apply deriv_matches, H].
    + intros (p & q & E & H). destruct p as [|c' p].
      * left. exact H.
      * right. injection E as <- ->. exists p, q.
        split; [reflexivity | apply deriv_matches, H].
Qed.

(** [re_search] holds exactly when the pattern matches a substring. *)
Lemma re_search_spec r s :
  re_search r s = true <-> exists a p b, s = a ++ p ++ b /\ matches r p.
Proof.
  induction s as [|c s IH]; cbn [re_search].
  - rewrite orb_false_r, re_match_spec. split.
    + intros (p & q & E & H). exists [], p, q. auto.
    + intros (a & p & b & E & H). symmetry in E.
      apply app_eq_nil in E as [-> E]. apply app_eq_nil in E as [-> ->].
      exists [], []. auto.
  - rewrite orb_true_iff, re_match_spec, IH. split.
    + intros [(p & q & E & H)|(a & p & b & -> & H)].
      * exists [], p, q. auto.
      * exists (c :: a), p, b. auto.
    + intros (a & p & b & E & H). destruct a as [|c' a].
      * left. exists p, b. auto.
      * right. injection E as <- ->. exists a, p, b. auto.
Qed.

(** ** What the text pattern matches *)

Lemma squeeze_app a b : squeeze (a ++ b) = squeeze a ++ squeeze b.
Proof. unfold squeeze, lower. rewrite map_app, filter_app. reflexivity. Qed.

Lemma isspace_lower_char c : isspace (lower_char c) = isspace c.
Proof. destruct c as [[] [] [] [] [] [] [] []]; vm_compute; reflexivity. Qed.

Lemma squeeze_cons_space c s : isspace c = true -> squeeze (c :: s) = squeeze s.
Proof.
  intros H. unfold squeeze, lower. cbn [map]. rewrite filter_cons.
  rewrite decide_False; [reflexivity|]. rewrite isspace_lower_char, H.
  discriminate.
Qed.

Lemma squeeze_cons_other c s :
  isspace c = false -> squeeze (c :: s) = lower_char c :: squeeze s.
Proof.
  intros H. unfold squeeze, lower. cbn [map]. rewrite filter_cons.
  rewrite decide_True; [reflexivity|]. rewrite isspace_lower_char. exact H.
Qed.

Lemma matches_cat r1 r2 s :
  matches (ReCat r1 r2) s ->
  exists s1 s2, s = s1 ++ s2 /\ matches r1 s1 /\ matches r2 s2.
Proof.
  intros H. inversion H as [| |? ? s1 s2 H1 H2| | | |]; subst.
  exists s1, s2. auto.
Qed.

Lemma matches_star_set p s :
  matches (ReStar (ReSet p)) s <-> Forall (fun c => p c = true) s.
Proof.
  split.
  - intros H. remember (ReStar (ReSet p)) as r eqn:Er.
    induction H as [| | | | | |r0 s1 s2 H1 _ H2 IH2]; try discriminate.
    + constructor.
    + injection Er as ->. inversion H1; subst.
      constructor; [assumption | apply IH2; reflexivity].
  - induction 1 as [|c s Hc _ IH]; [constructor|].
    exact (MStarApp _ [c] s (MSet p c Hc) IH).
Qed.

Lemma matches_ws_squeeze s : matches ws s -> squeeze s = [].
Proof.
  intros H. apply matches_star_set in H.
  induction H as [|c s Hc _ IH]; [reflexivity|].
  rewrite (squeeze_cons_space _ _ Hc). exact IH.
Qed.

Lemma matches_ci_squeeze x s :
  isspace (lower_char x) = false ->
  matches (ci x) s -> squeeze s = [lower_char x].
Proof.
  intros Hx H. inversion H as [|p c Hc| | | | |]; subst.
  apply Ascii.eqb_eq in Hc.
  rewrite squeeze_cons_other by (rewrite <- isspace_lower_char, Hc; exact Hx).
  rewrite Hc. reflexivity.
Qed.

Lemma matches_dot_squeeze s : matches dot s -> squeeze s = ["."%char].
Proof.
  intros H. inversion H as [|p c Hc| | | | |]; subst.
  apply Ascii.eqb_eq in Hc. subst c. reflexivity.
Qed.

(** Whatever the pattern matches reads "oceanofpdf.com" once lower-cased
    and rid of its whitespace. *)
Lemma matches_TEXT_PATTERN_squeeze p :
  matches TEXT_PATTERN p -> squeeze p = lit "oceanofpdf.com".
Proof.
  unfold TEXT_PATTERN. cbn [re_seq]. intros H.
  repeat match goal with
         | H : matches (ReCat _ _) _ |- _ =>
             apply matches_cat in H as (? & ? & -> & ? & ?)
         end.
  rewrite !squeeze_app.
  repeat match goal with
         | H : matches ws _ |- _ => rewrite (matches_ws_squeeze _ H); clear H
         | H : matches (ci ?c) ?t |- _ =>
             rewrite (matches_ci_squeeze c t eq_refl H); clear H
         | H : matches dot _ |- _ => rewrite (matches_dot_squeeze _ H); clear H
         end.
  reflexivity.
Qed.

(** No text that reads "oceanofpdfs.com" once lower-cased and rid of
    its whitespace is matched: the phrase in any letter case, with any
    whitespace between its characters, escapes the pattern. *)
Lemma TEXT_PATTERN_misses_every_variant s :
  squeeze s = lit "oceanofpdfs.com" -> re_search TEXT_PATTERN s = false.
Proof.
  intros Hs. destruct (re_search TEXT_PATTERN s) eqn:E; [exfalso | reflexivity].
  apply re_search_spec in E as (a & p & b & -> & Hp).
  apply matches_TEXT_PATTERN_squeeze in Hp.
  rewrite !squeeze_app, Hp in Hs.
  pose proof (f_equal length Hs) as Hlen.
  rewrite !length_app in Hlen. cbn in Hlen.
  destruct (squeeze a) as [|x [|? ?]]; cbn in Hs, Hlen; try lia;
    discriminate Hs.
Qed.

Lemma squeeze_nil_inv s : squeeze s = [] -> Forall (fun c => isspace c = true) s.
Proof.
  induction s as [|c s IH]; intros H; [constructor|].
  destruct (isspace c) eqn:Ec.
  - rewrite squeeze_cons_space in H by exact Ec. constructor; auto.
  - rewrite squeeze_cons_other in H by exact Ec. discriminate.
Qed.

Lemma squeeze_cons_inv s : forall c rest,
  squeeze s = c :: rest ->
  exists gap x s',
    s = gap ++ x :: s'
    /\ Forall (fun c => isspace c = true) gap
    /\ isspace x = false /\ lower_char x = c /\ squeeze s' = rest.
Proof.
  induction s as [|a s IH]; intros c rest H; [discriminate|].
  destruct (isspace a) eqn:Ea.
  - rewrite squeeze_cons_space in H by exact Ea.
    apply IH in H as (gap & x & s' & -> & Hg & Hx & Hl & Hr).
    exists (a :: gap), x, s'. repeat split; auto.
  - rewrite squeeze_cons_other in H by exact Ea. injection H as <- <-.
    exists [], a, s. repeat split; auto.
Qed.

Lemma lower_char_dot x : lower_char x = "."%char -> x = "."%char.
Proof.
  destruct x as [[] [] [] [] [] [] [] []]; vm_compute; intros H;
    first [reflexivity | discriminate H].
Qed.

Lemma matches_ci x c : lower_char x = lower_char c -> matches (ci c) [x].
Proof. intros H. constructor. apply Ascii.eqb_eq, H. Qed.

Lemma matches_ws_gap gap :
  Forall (fun c => isspace c = true) gap -> matches ws gap.
Proof. apply matches_star_set. Qed.

Ltac pattern_letter :=
  match goal with
  | |- matches (ReCat _ _) (?x :: ?t) =>
      change (x :: t) with ([x] ++ t); apply MCat
  end.

Ltac pattern_gap G := apply MCat; [apply matches_ws_gap, G|].

(** Every text that reads "oceanofpdf.com" once lower-cased and rid of
    its whitespace is matched. *)
Lemma TEXT_PATTERN_matches_every_variant_without_s s :
  squeeze s = lit "oceanofpdf.com" -> re_search TEXT_PATTERN s = true.
Proof.
  intros H. unfold lit in H. cbn [list_ascii_of_string] in H.
  apply squeeze_cons_inv in H as (g1 & x1 & s1 & -> & G1 & _ & L1 & H).
  apply squeeze_cons_inv in H as (g2 & x2 & s2 & -> & G2 & _ & L2 & H).
  apply squeeze_cons_inv in H as (g3 & x3 & s3 & -> & G3 & _ & L3 & H).
  apply squeeze_cons_inv in H as (g4 & x4 & s4 & -> & G4 & _ & L4 & H).
  apply squeeze_cons_inv in H as (g5 & x5 & s5 & -> & G5 & _ & L5 & H).
  apply squeeze_cons_inv in H as (g6 & x6 & s6 & -> & G6 & _ & L6 & H).
  apply squeeze_cons_inv in H as (g7 & x7 & s7 & -> & G7 & _ & L7 & H).
  apply squeeze_cons_inv in H as (g8 & x8 & s8 & -> & G8 & _ & L8 & H).
  apply squeeze_cons_inv in H as (g9 & x9 & s9 & -> & G9 & _ & L9 & H).
  apply squeeze_cons_inv in H as (g10 & x10 & s10 & -> & G10 & _ & L10 & H).
  apply squeeze_cons_inv in H as (g11 & x11 & s11 & -> & G11 & _ & L11 & H).
  apply squeeze_cons_inv in H as (g12 & x12 & s12 & -> & G12 & _ & L12 & H).
  apply squeeze_cons_inv in H as (g13 & x13 & s13 & -> & G13 & _ & L13 & H).
  apply squeeze_cons_inv in H as (g14 & x14 & s14 & -> & G14 & _ & L14 & H).
  apply re_search_spec.
  exists g1,
    (x1 :: g2 ++ x2 :: g3 ++ x3 :: g4 ++ x4 :: g5 ++ x5 :: g6 ++ x6
     :: g7 ++ x7 :: g8 ++ x8 :: g9 ++ x9 :: g10 ++ x10 :: g11 ++ x11
     :: g12 ++ x12 :: g13 ++ x13 :: g14 ++ [x14]),
    s14.
  split; [cbn [app]; repeat (rewrite <- app_assoc; cbn [app]); reflexivity|].
  unfold TEXT_PATTERN. cbn [re_seq].
  pattern_letter; [apply matches_ci; rewrite L1; reflexivity|]. pattern_gap G2.
  pattern_letter; [apply matches_ci; rewrite L2; reflexivity|]. pattern_gap G3.
  pattern_letter; [apply matches_ci; rewrite L3; reflexivity|]. pattern_gap G4.
  pattern_letter; [apply matches_ci; rewrite L4; reflexivity|]. pattern_gap G5.
  pattern_letter; [apply matches_ci; rewrite L5; reflexivity|]. pattern_gap G6.
  pattern_letter; [apply matches_ci; rewrite L6; reflexivity|]. pattern_gap G7.
  pattern_letter; [apply matches_ci; rewrite L7; reflexivity|]. pattern_gap G8.
  pattern_letter; [apply matches_ci; rewrite L8; reflexivity|]. pattern_gap G9.
  pattern_letter; [apply matches_ci; rewrite L9; reflexivity|]. pattern_gap G10.
  pattern_letter; [apply matches_ci; rewrite L10; reflexivity|]. pattern_gap G11.
  apply lower_char_dot in L11; subst x11.
  pattern_letter; [constructor; reflexivity|]. pattern_gap G12.
  pattern_letter; [apply matches_ci; rewrite L12; reflexivity|]. pattern_gap G13.
  pattern_letter; [apply matches_ci; rewrite L13; reflexivity|]. pattern_gap G14.
  apply matches_ci. rewrite L14. reflexivity.
Qed.

(** C1 (the code departs from the claim).  The pattern has no letter
    "s": the watermark phrase itself, as the constant [PHRASE] spells
    it, is not matched, with or without spaces between its characters;
    a span holding it is neither counted nor marked.
    [TEXT_PATTERN_misses_every_variant] extends this to every letter
    case and every whitespace. *)
Theorem TEXT_PATTERN_misses_phrase :
  re_search TEXT_PATTERN PHRASE = false
  /\ re_search TEXT_PATTERN (lit "O c e a n o f P D F s . c o m") = false
  /\ page_might_contain_phrase watermarked_page = false
  /\ redact_phrase watermarked_page = (watermarked_page, 0%Z).
Proof. repeat split; vm_compute; reflexivity. Qed.


(** ** Link removal *)

Lemma lower_char_not_O (c : ascii) : lower_char c <> "O"%char.
Proof.
  destruct c as [[] [] [] [] [] [] [] []]; vm_compute; discriminate.
Qed.

Lemma startswith_lower_URI_MATCH (s : str) :
  startswith (lower s) URI_MATCH = false.
Proof.
  destruct s as [|c s]; [reflexivity|].
  change (Ascii.eqb "O" (lower_char c) && startswith (lower s) (tl URI_MATCH)
          = false).
  destruct (Ascii.eqb_spec "O" (lower_char c)) as [E|]; [|reflexivity].
  exfalso. exact (lower_char_not_O c (eq_sym E)).
Qed.

(** The needle has capitals and the haystack is lower-cased: the test
    of [remove_links] fails for every URI. *)
Lemma contains_URI_MATCH_lower (s : str) :
  contains URI_MATCH (lower s) = false.
Proof.
  induction s as [|c s IH].
  - reflexivity.
  - change (startswith (lower (c :: s)) URI_MATCH
            || contains URI_MATCH (lower s) = false).
    rewrite startswith_lower_URI_MATCH, IH. reflexivity.
Qed.

Lemma link_matches_never (l : link) : link_matches l = false.
Proof.
  unfold link_matches. rewrite contains_URI_MATCH_lower.
  apply andb_false_r.
Qed.

(** C2 (the code departs from the claim).  A link whose URI contains
    the domain is kept, and the count is zero. *)
Theorem remove_links_keeps_watermark_link :
  contains (lower URI_MATCH) (lower (default [] (link_uri watermark_link)))
  = true
  /\ remove_links watermarked_page = (watermarked_page, 0%Z).
Proof. split; vm_compute; reflexivity. Qed.

(** ** The result of [process_pdf] *)

(** C3 (the code departs from the claim).  A dry run over a file
    without watermark and without links reports [changed = True] with
    both counts zero. *)
Theorem process_pdf_dry_run_reports_changed :
  let w := world_of {[ in_books "novel.pdf" := stored [plain_page] ]} [] in
  process_pdf (in_books "novel.pdf") false true w
  = (Ret (true, 0%Z, 0%Z, None), w)
  /\ (0 + 0 >? 0)%Z = false.
Proof. split; vm_compute; reflexivity. Qed.

(** ** Reasoning about computations *)

Lemma bind_inv_Ret {A B} (c : M A) (k : A -> M B) w b w' :
  bind c k w = (Ret b, w') ->
  exists a w1, c w = (Ret a, w1) /\ k a w1 = (Ret b, w').
Proof.
  unfold bind. destruct (c w) as [[a| |] w1]; intros H; try discriminate.
  exists a, w1. split; [reflexivity | exact H].
Qed.

Lemma bind_inv_Raise {A B} (c : M A) (k : A -> M B) w e w' :
  bind c k w = (Raise e, w') ->
  c w = (Raise e, w')
  \/ exists a w1, c w = (Ret a, w1) /\ k a w1 = (Raise e, w').
Proof.
  unfold bind. destruct (c w) as [[a|e1|] w1]; intros H; try discriminate.
  - right. exists a, w1. split; [reflexivity | exact H].
  - left. injection H as <- <-. reflexivity.
Qed.

Section Keeps.
Variable R : world -> world -> Prop.
Hypothesis R_refl : forall w, R w w.
Hypothesis R_trans : forall w1 w2 w3, R w1 w2 -> R w2 w3 -> R w1 w3.

Lemma keeps_ret {A} (a : A) : keeps R (ret a).
Proof using R_refl. intros w o w' [= <- <-]. apply R_refl. Qed.

Lemma keeps_raise {A} e : keeps R (@raise A e).
Proof using R_refl. intros w o w' [= <- <-]. apply R_refl. Qed.

Lemma keeps_bind {A B} (c : M A) (k : A -> M B) :
  keeps R c -> (forall a, keeps R (k a)) -> keeps R (bind c k).
Proof using R_trans.
  intros Hc Hk w o w'. unfold bind.
  destruct (c w) as [[a|e|] w1] eqn:E; intros H.
  - eapply R_trans; [eapply Hc, E | eapply Hk, H].
  - injection H as <- <-. eapply Hc, E.
  - injection H as <- <-. eapply Hc, E.
Qed.

(** When the first part keeps [R], a failure of the whole is a failure
    of one of the parts, and [R] holds if it holds for the second. *)
Lemma bind_Raise_keeps {A B} (c : M A) (k : A -> M B) w e w' :
  keeps R c ->
  (forall a w1, k a w1 = (Raise e, w') -> R w1 w') ->
  bind c k w = (Raise e, w') -> R w w'.
Proof using R_trans.
  intros Hc Hk H. apply bind_inv_Raise in H as [H|(a & w1 & H1 & H2)].
  - eapply Hc, H.
  - eapply R_trans; [eapply Hc, H1 | eapply Hk, H2].
Qed.
End Keeps.

(** ** Atomic replacement *)

Lemma same_fs_refl w : same_fs w w.
Proof. reflexivity. Qed.

Lemma same_fs_trans w1 w2 w3 : same_fs w1 w2 -> same_fs w2 w3 -> same_fs w1 w3.
Proof. unfold same_fs. congruence. Qed.

Lemma fs_frame_refl temp w : fs_frame temp w w.
Proof. intros q _. reflexivity. Qed.

Lemma fs_frame_trans temp w1 w2 w3 :
  fs_frame temp w1 w2 -> fs_frame temp w2 w3 -> fs_frame temp w1 w3.
Proof. intros H12 H23 q Hq. rewrite (H23 q Hq). exact (H12 q Hq). Qed.

Lemma same_fs_frame {A} temp (c : M A) :
  keeps same_fs c -> keeps (fs_frame temp) c.
Proof. intros H w o w' E q _. rewrite (H w o w' E). reflexivity. Qed.

(** Composition steps for the two relations. *)
Ltac keeps_step :=
  first
    [ apply (keeps_ret same_fs same_fs_refl)
    | apply (keeps_raise same_fs same_fs_refl)
    | apply (keeps_bind same_fs same_fs_trans)
    | match goal with
      | |- keeps (fs_frame ?t) _ =>
          first [ apply (keeps_ret (fs_frame t) (fs_frame_refl t))
                | apply (keeps_raise (fs_frame t) (fs_frame_refl t))
                | apply (keeps_bind (fs_frame t) (fs_frame_trans t)) ]
      end ].

Lemma keeps_next_fault : keeps same_fs next_fault.
Proof.
  intros w o w'. unfold next_fault.
  destruct (faults w); intros [= <- <-]; reflexivity.
Qed.

Lemma keeps_may_raise : keeps same_fs may_raise.
Proof.
  unfold may_raise. keeps_step; [apply keeps_next_fault|].
  intros [ft|]; keeps_step.
Qed.

Lemma keeps_fitz_open p : keeps same_fs (fitz_open p).
Proof.
  unfold fitz_open. keeps_step; [apply keeps_may_raise|].
  intros _ w o w'.
  destruct (fs w !! p) as [f|]; [destruct (file_pdf f)|];
    intros [= <- <-]; reflexivity.
Qed.

Lemma keeps_links_pass pages : forall hits, keeps same_fs (links_pass pages hits).
Proof.
  induction pages as [|pg rest IH]; intros hits; simpl.
  - keeps_step.
  - keeps_step; [apply keeps_may_raise|].
    intros _. destruct (remove_links pg) as [pg' n].
    keeps_step; [apply IH|].
    intros [rest' total]. keeps_step.
Qed.

Lemma keeps_text_pass pages : forall hits, keeps same_fs (text_pass pages hits).
Proof.
  induction pages as [|pg rest IH]; intros hits; simpl.
  - keeps_step.
  - keeps_step; [apply keeps_may_raise|].
    intros _.
    destruct (if page_might_contain_phrase pg then _ else _) as [pg' n].
    keeps_step; [apply IH|].
    intros [rest' total]. keeps_step.
Qed.

Lemma keeps_doc_save d temp : keeps (fs_frame temp) (doc_save d temp).
Proof.
  intros w o w'. unfold doc_save, bind.
  destruct (next_fault w) as [[f| |] w1] eqn:E; intros H;
    pose proof (keeps_next_fault _ _ _ E) as Efs; unfold same_fs in Efs.
  - destruct f as [ft|].
    + injection H as <- <-. intros q Hq.
      destruct (fault_partial ft); simpl; rewrite ?lookup_insert_ne by auto;
        rewrite Efs; reflexivity.
    + injection H as <- <-. intros q Hq. simpl.
      rewrite lookup_insert_ne by auto. rewrite Efs. reflexivity.
  - injection H as <- <-. intros q _. rewrite Efs. reflexivity.
  - injection H as <- <-. intros q _. rewrite Efs. reflexivity.
Qed.

(** [if temp.exists(): temp.unlink()] always returns, leaves no file at
    [temp] and touches nothing else. *)
Lemma unlink_if_exists_spec temp w :
  exists w', unlink_if_exists temp w = (Ret tt, w')
             /\ fs w' !! temp = None /\ fs_frame temp w w'.
Proof.
  unfold unlink_if_exists, bind, path_exists, path_unlink.
  destruct (fs w !! temp) as [f|] eqn:E.
  - rewrite bool_decide_eq_true_2 by eauto. rewrite E.
    eexists. split; [reflexivity|]. split; simpl.
    + apply lookup_delete_eq.
    + intros q Hq. simpl. apply lookup_delete_ne. auto.
  - rewrite bool_decide_eq_false_2 by (intros [? ?]; discriminate).
    exists w. split; [reflexivity|]. split; [exact E | apply fs_frame_refl].
Qed.

Lemma keeps_unlink_if_exists temp : keeps (fs_frame temp) (unlink_if_exists temp).
Proof.
  intros w o w' H. destruct (unlink_if_exists_spec temp w) as (w2 & E & _ & F).
  rewrite E in H. injection H as <- <-. exact F.
Qed.

(** A [shutil.move] that raises has moved nothing. *)
Lemma shutil_move_Raise src dst w e w' :
  shutil_move src dst w = (Raise e, w') -> same_fs w w'.
Proof.
  intros H. apply bind_inv_Raise in H as [H|(a & w1 & H1 & H2)].
  - eapply keeps_may_raise, H.
  - apply keeps_may_raise in H1. unfold move_entry in H2.
    destruct (fs w1 !! src); [discriminate|].
    injection H2 as <- <-. exact H1.
Qed.

(** Capturing the times never fails and changes nothing. *)
Lemma get_file_times_total p w : exists t, get_file_times p w = (Ret t, w).
Proof.
  unfold get_file_times, try_except, bind, path_stat, platform_is_win32, ret.
  destruct (fs w !! p); eexists; reflexivity.
Qed.

(** Restoring the times never fails. *)
Lemma restore_times_returns p atime mtime ctime w :
  exists w', restore_times p atime mtime ctime w = (Ret tt, w').
Proof.
  destruct atime as [a|], mtime as [m|]; simpl; try (eexists; reflexivity).
  unfold try_except at 1, bind at 1, os_utime.
  destruct (fs w !! p) as [f|]; [|eexists; reflexivity].
  unfold bind, platform_is_win32. simpl.
  destruct (win32 w); [|eexists; reflexivity].
  destruct ctime as [c|]; [|eexists; reflexivity].
  unfold try_except, win32_set_creation_time. simpl.
  destruct (pywin32 w); [|eexists; reflexivity].
  rewrite lookup_insert_eq. eexists; reflexivity.
Qed.

(** The temporary path differs from the path it was derived from. *)
Lemma length_suffix_le p : length (suffix p) <= length (name p).
Proof.
  unfold suffix. destruct (rfind "." (name p)) as [i|]; simpl; [|lia].
  destruct (_ && _); simpl; [|lia]. rewrite length_drop. lia.
Qed.

Lemma with_suffix_tmp_fresh p temp :
  with_suffix p (suffix p ++ lit ".tmp") = Ret temp -> temp <> p.
Proof.
  unfold with_suffix. pose proof (length_suffix_le p) as Hle.
  destruct (existsb _ _); [discriminate|].
  destruct (_ || _); [discriminate|].
  destruct (is_nil (name p)); [discriminate|].
  intros [= <-] E. apply (f_equal name) in E. simpl in E.
  apply (f_equal length) in E.
  destruct (is_nil (suffix p));
    rewrite ?length_app, ?length_take in E; simpl in E; lia.
Qed.

(** Until the final move succeeds the [try] block writes at [temp] only;
    once it has succeeded nothing can raise any more. *)
Lemma process_pdf_body_Raise
    pdf_path temp atime mtime ctime links_only dry_run w e w' :
  process_pdf_body pdf_path temp atime mtime ctime links_only dry_run w
  = (Raise e, w') ->
  fs_frame temp w w'.
Proof.
  pose proof (fs_frame_trans temp) as T.
  unfold process_pdf_body.
  apply (bind_Raise_keeps _ T).
  { apply same_fs_frame, keeps_fitz_open. }
  intros doc w1. apply (bind_Raise_keeps _ T).
  { apply same_fs_frame, keeps_links_pass. }
  intros [doc1 link_hits] w2. apply (bind_Raise_keeps _ T).
  { apply same_fs_frame. destruct (negb links_only);
      [apply keeps_text_pass | keeps_step]. }
  intros [doc2 text_hits] w3.
  destruct dry_run.
  { apply (bind_Raise_keeps _ T).
    - apply same_fs_frame, keeps_may_raise.
    - intros _ w4. discriminate. }
  apply (bind_Raise_keeps _ T).
  { destruct (_ >? _)%Z; [apply keeps_doc_save | keeps_step]. }
  intros _ w4. apply (bind_Raise_keeps _ T).
  { apply same_fs_frame, keeps_may_raise. }
  intros _ w5. destruct (negb _).
  { apply (bind_Raise_keeps _ T).
    - apply keeps_unlink_if_exists.
    - intros _ w6. discriminate. }
  intros H. apply bind_inv_Raise in H as [H|(a & w6 & H1 & H2)].
  - apply shutil_move_Raise in H. intros q _. rewrite H. reflexivity.
  - exfalso. apply bind_inv_Raise in H2 as [H2|(a' & w7 & H2 & H3)].
    + destruct (restore_times_returns pdf_path atime mtime ctime w6)
        as (w8 & E).
      rewrite E in H2. discriminate.
    + discriminate.
Qed.

(** C4.  When anything in the [try] block of [process_pdf] raises
    (opening, link removal, redaction, saving, closing, the final
    move), [process_pdf] returns the failure tuple carrying the text of
    the exception; the file at [pdf_path] is exactly what it was, bytes
    and times, and no file is left at the temporary path. *)
Theorem process_pdf_failure_is_atomic
    pdf_path links_only dry_run temp atime mtime ctime e w w1 :
  with_suffix pdf_path (suffix pdf_path ++ lit ".tmp") = Ret temp ->
  get_file_times pdf_path w = (Ret (atime, mtime, ctime), w) ->
  process_pdf_body pdf_path temp atime mtime ctime links_only dry_run w
  = (Raise e, w1) ->
  exists w',
    process_pdf pdf_path links_only dry_run w
    = (Ret (false, (-1)%Z, (-1)%Z, Some (exn_msg e)), w')
    /\ fs w' !! pdf_path = fs w !! pdf_path
    /\ fs w' !! temp = None.
Proof.
  intros Htemp Htimes Hbody.
  destruct (unlink_if_exists_spec temp w1) as (w' & Hun & Hnone & Hframe).
  exists w'. split; [|split].
  - unfold process_pdf, bind at 1, lift. rewrite Htemp.
    unfold bind at 1. rewrite Htimes.
    unfold try_except. rewrite Hbody.
    unfold bind. rewrite Hun. reflexivity.
  - pose proof (with_suffix_tmp_fresh _ _ Htemp) as Hne.
    rewrite (Hframe pdf_path) by auto.
    apply (process_pdf_body_Raise _ _ _ _ _ _ _ _ _ _ Hbody). auto.
  - exact Hnone.
Qed.

Lemma process_pdf_failure_is_atomic_witness :
  let p := in_books "novel.pdf" in
  let w := world_of {[ p := stored [spaced_page] ]}
             [None; None; None; failure OSError "No space left on device"] in
  exists w',
    process_pdf p false false w
    = (Ret (false, (-1)%Z, (-1)%Z, Some (lit "No space left on device")), w')
    /\ fs w' !! p = fs w !! p
    /\ fs w' !! in_books "novel.pdf.tmp" = None.
Proof.
  intros p w.
  apply (process_pdf_failure_is_atomic p false false (in_books "novel.pdf.tmp")
           (Some 1000%Z) (Some 2000%Z) (Some 2000%Z)
           (mkExn OSError (lit "No space left on device")) w
           (set_fs (set_faults w [])
              (<[in_books "novel.pdf.tmp" := mkFile None 5000 5000 5000]> (fs w)))).
  - vm_compute. reflexivity.
  - vm_compute. reflexivity.
  - vm_compute. reflexivity.
Defined.

(** ** The failure tuple *)

(** What the [try] block returns never carries an error text. *)
Lemma process_pdf_body_Ret
    pdf_path temp atime mtime ctime links_only dry_run w r w' :
  process_pdf_body pdf_path temp atime mtime ctime links_only dry_run w
  = (Ret r, w') ->
  snd r = None.
Proof.
  unfold process_pdf_body. intros H.
  apply bind_inv_Ret in H as (doc & w1 & _ & H).
  apply bind_inv_Ret in H as ([doc1 link_hits] & w2 & _ & H).
  apply bind_inv_Ret in H as ([doc2 text_hits] & w3 & _ & H).
  destruct dry_run.
  { apply bind_inv_Ret in H as (_ & w4 & _ & H).
    injection H as <- <-. reflexivity. }
  apply bind_inv_Ret in H as (_ & w4 & _ & H).
  apply bind_inv_Ret in H as (_ & w5 & _ & H).
  destruct (negb _).
  - apply bind_inv_Ret in H as (_ & w6 & _ & H).
    injection H as <- <-. reflexivity.
  - apply bind_inv_Ret in H as (_ & w6 & _ & H).
    apply bind_inv_Ret in H as (_ & w7 & _ & H).
    injection H as <- <-. reflexivity.
Qed.

(** Outside dry-run mode the flag is what the counts say. *)
Lemma process_pdf_body_flag
    pdf_path temp atime mtime ctime links_only w changed th lh err w' :
  process_pdf_body pdf_path temp atime mtime ctime links_only false w
  = (Ret (changed, th, lh, err), w') ->
  changed = (th + lh >? 0)%Z.
Proof.
  unfold process_pdf_body. intros H.
  apply bind_inv_Ret in H as (doc & w1 & _ & H).
  apply bind_inv_Ret in H as ([doc1 link_hits] & w2 & _ & H).
  apply bind_inv_Ret in H as ([doc2 text_hits] & w3 & _ & H).
  cbv iota in H.
  apply bind_inv_Ret in H as (_ & w4 & _ & H).
  apply bind_inv_Ret in H as (_ & w5 & _ & H).
  destruct (text_hits + link_hits >? 0)%Z eqn:E; cbn [negb] in H; cbv iota in H.
  - apply bind_inv_Ret in H as (_ & w6 & _ & H).
    apply bind_inv_Ret in H as (_ & w7 & _ & H).
    injection H as <- <- <- _ _. symmetry. exact E.
  - apply bind_inv_Ret in H as (_ & w6 & _ & H).
    injection H as <- <- <- _ _. reflexivity.
Qed.

(** In dry-run mode the flag is [True] whatever the counts. *)
Lemma process_pdf_body_dry_run_flag
    pdf_path temp atime mtime ctime links_only w changed th lh err w' :
  process_pdf_body pdf_path temp atime mtime ctime links_only true w
  = (Ret (changed, th, lh, err), w') ->
  changed = true.
Proof.
  unfold process_pdf_body. intros H.
  apply bind_inv_Ret in H as (doc & w1 & _ & H).
  apply bind_inv_Ret in H as ([doc1 link_hits] & w2 & _ & H).
  apply bind_inv_Ret in H as ([doc2 text_hits] & w3 & _ & H).
  cbv iota in H.
  apply bind_inv_Ret in H as (_ & w4 & _ & H).
  injection H as <- _ _ _ _. reflexivity.
Qed.

(** C10.  Whenever [process_pdf] returns an error text, the tuple is
    exactly [(False, -1, -1, error)]: the flag is [False], both
    counters are the sentinel [-1] whatever had been counted, and the
    text is that of the exception the [try] block raised. *)
Theorem process_pdf_error_tuple
    pdf_path links_only dry_run w changed text_hits link_hits err w' :
  process_pdf pdf_path links_only dry_run w
  = (Ret (changed, text_hits, link_hits, Some err), w') ->
  changed = false /\ text_hits = (-1)%Z /\ link_hits = (-1)%Z
  /\ exists temp atime mtime ctime e w1,
       process_pdf_body pdf_path temp atime mtime ctime links_only dry_run w
       = (Raise e, w1)
       /\ err = exn_msg e.
Proof.
  unfold process_pdf. intros H.
  apply bind_inv_Ret in H as (temp & w0 & Htemp & H).
  injection Htemp as _ <-.
  apply bind_inv_Ret in H as (t & w0 & Ht & H).
  destruct (get_file_times_total pdf_path w) as (t' & Et).
  rewrite Et in Ht. injection Ht as <- <-.
  destruct t' as [[atime mtime] ctime].
  unfold try_except in H.
  destruct (process_pdf_body pdf_path temp atime mtime ctime links_only
              dry_run w) as [[r|e|] w1] eqn:Eb.
  - apply process_pdf_body_Ret in Eb. injection H as -> _.
    simpl in Eb. discriminate.
  - destruct (unlink_if_exists_spec temp w1) as (w2 & Eu & _).
    unfold bind in H. rewrite Eu in H. injection H as <- <- <- <- _.
    split; [reflexivity|]. split; [reflexivity|]. split; [reflexivity|].
    exists temp, atime, mtime, ctime, e, w1.
    split; [exact Eb | reflexivity].
  - discriminate.
Qed.

Lemma process_pdf_error_tuple_witness :
  let p := in_books "novel.pdf" in
  let w := world_of {[ p := stored [spaced_page] ]}
             [None; None; None; None; failure OtherError "cannot close"] in
  false = false /\ (-1)%Z = (-1)%Z /\ (-1)%Z = (-1)%Z
  /\ exists temp atime mtime ctime e w1,
       process_pdf_body p temp atime mtime ctime false false w
       = (Raise e, w1)
       /\ lit "cannot close" = exn_msg e.
Proof.
  intros p w.
  apply (process_pdf_error_tuple p false false w false (-1) (-1)
           (lit "cannot close") (set_faults w [])).
  vm_compute. reflexivity.
Defined.

(** ** Idempotence of the content passes *)


Lemma remove_links_unfold pg :
  remove_links pg = fold_left remove_links_step (get_links pg) (pg, 0%Z).
Proof.
  reflexivity.
Qed.

(** The loop of [remove_links] only ever shrinks the list of links, and
    no matching link it has visited survives. *)
Lemma remove_links_loop ls : forall pg n pg' n',
  fold_left remove_links_step ls (pg, n) = (pg', n') ->
  page_blocks pg' = page_blocks pg
  /\ page_redactions pg' = page_redactions pg
  /\ forall k, k ∈ page_links pg' ->
       k ∈ page_links pg
       /\ forall l, l ∈ ls -> link_matches l = true ->
            link_xref k <> link_xref l.
Proof.
  induction ls as [|l ls IH]; intros pg n pg' n' H; simpl in H.
  - injection H as <- <-. repeat split; auto.
    intros l Hl. inversion Hl.
  - destruct (link_matches l) eqn:Em.
    + apply IH in H as (Hb & Hr & Hk). simpl in *.
      repeat split; auto.
      * apply Hk in H as [H _]. apply list_elem_of_filter in H. tauto.
      * intros l0 Hl0 Hm0. apply Hk in H as [H1 H2].
        apply list_elem_of_filter in H1 as [H1 _].
        apply elem_of_cons in Hl0 as [->|Hl0]; auto.
    + apply IH in H as (Hb & Hr & Hk).
      repeat split; auto.
      * apply Hk in H. tauto.
      * intros l0 Hl0 Hm0. apply Hk in H as [H1 H2].
        apply elem_of_cons in Hl0 as [->|Hl0]; [congruence | auto].
Qed.

Lemma remove_links_loop_clean ls : forall acc,
  Forall (fun l => link_matches l = false) ls ->
  fold_left remove_links_step ls acc = acc.
Proof.
  induction ls as [|l ls IH]; intros [pg n] H; simpl; [reflexivity|].
  inversion H as [|? ? Hl Hls]; subst. rewrite Hl. apply IH, Hls.
Qed.

(** A page none of whose links matches is left alone. *)
Lemma remove_links_clean pg :
  Forall (fun l => link_matches l = false) (page_links pg) ->
  remove_links pg = (pg, 0%Z).
Proof.
  intros H. rewrite remove_links_unfold. apply remove_links_loop_clean, H.
Qed.

(** As the test never holds ([link_matches_never]), [remove_links]
    removes nothing from any page. *)
Lemma remove_links_never_removes pg : remove_links pg = (pg, 0%Z).
Proof.
  apply remove_links_clean, Forall_forall.
  intros l _. apply link_matches_never.
Qed.

(** After [remove_links] no link of the page matches. *)
Lemma remove_links_result pg :
  let pg' := fst (remove_links pg) in
  page_blocks pg' = page_blocks pg
  /\ page_redactions pg' = page_redactions pg
  /\ Forall (fun l => link_matches l = false) (page_links pg').
Proof.
  simpl. rewrite remove_links_unfold.
  destruct (fold_left _ _ _) as [pg' n'] eqn:E.
  apply remove_links_loop in E as (Hb & Hr & Hk). simpl.
  repeat split; auto.
  apply Forall_forall. intros k Hin.
  destruct (link_matches k) eqn:Em; [|reflexivity].
  exfalso. destruct (Hk k Hin) as [Hin0 Hne].
  apply (Hne k); auto.
Qed.

(** The three nested loops of [redact_phrase] visit [all_spans]. *)
Lemma fold_left_flat_map {A B C} (f : A -> C -> A) (g : B -> list C) l :
  forall a,
    fold_left (fun acc x => fold_left f (g x) acc) l a
    = fold_left f (flat_map g l) a.
Proof.
  induction l as [|x l IH]; intros a; simpl; [reflexivity|].
  rewrite fold_left_app. apply IH.
Qed.

Lemma redact_loops_all_spans bs : forall a,
  fold_left
    (fun acc blk =>
       fold_left (fun acc ln => fold_left redact_span (line_spans ln) acc)
         (block_lines blk) acc)
    bs a
  = fold_left redact_span
      (flat_map (fun b => flat_map line_spans (block_lines b)) bs) a.
Proof.
  induction bs as [|b bs IH]; intros a; simpl; [reflexivity|].
  rewrite fold_left_app, <- IH. f_equal.
  apply (fold_left_flat_map redact_span line_spans).
Qed.

Lemma redact_phrase_unfold pg :
  redact_phrase pg
  = let '(pg1, hits) := fold_left redact_span (all_spans pg) (pg, 0%Z) in
    if (hits =? 0)%Z then (pg1, hits) else (apply_redactions pg1, hits).
Proof.
  unfold redact_phrase, get_text_dict, all_spans.
  rewrite redact_loops_all_spans. reflexivity.
Qed.

(** The marking loop: links and text stay, one mark and one hit are
    added per matching span. *)
Lemma redact_span_loop sps : forall pg n,
  fold_left redact_span sps (pg, n)
  = (mkPage (page_links pg) (page_blocks pg)
       (page_redactions pg ++ map span_bbox (filter span_matches sps)),
     (n + Z.of_nat (length (filter span_matches sps)))%Z).
Proof.
  induction sps as [|sp sps IH]; intros pg n.
  - simpl. rewrite app_nil_r, Z.add_0_r. destruct pg; reflexivity.
  - rewrite filter_cons. cbn [fold_left redact_span].
    destruct (span_matches sp) eqn:Em.
    + rewrite decide_True by exact I.
      rewrite IH. simpl. rewrite <- app_assoc. simpl. f_equal. lia.
    + rewrite decide_False by auto.
      apply IH.
Qed.

Lemma all_spans_apply_redactions pg :
  all_spans (apply_redactions pg)
  = filter (fun sp => span_bbox sp ∉ page_redactions pg) (all_spans pg).
Proof.
  unfold all_spans, apply_redactions. simpl.
  induction (page_blocks pg) as [|b bs IH]; simpl; [reflexivity|].
  rewrite filter_app, IH. f_equal.
  destruct b as [ls|]; simpl; [|reflexivity].
  induction ls as [|ln ls IHl]; simpl; [reflexivity|].
  rewrite filter_app, IHl. reflexivity.
Qed.

(** A page none of whose spans matches is left alone. *)
Lemma redact_phrase_clean pg :
  Forall (fun sp => span_matches sp = false) (all_spans pg) ->
  redact_phrase pg = (pg, 0%Z).
Proof.
  intros H. rewrite redact_phrase_unfold, redact_span_loop.
  assert (filter span_matches (all_spans pg) = []) as ->.
  { induction H as [|sp sps Hsp _ IH]; [reflexivity|].
    rewrite filter_cons, decide_False by (rewrite Hsp; auto). exact IH. }
  simpl. rewrite app_nil_r. destruct pg; reflexivity.
Qed.

(** After [redact_phrase] no span of the page matches, and the links are
    the same. *)
Lemma redact_phrase_result pg :
  let pg' := fst (redact_phrase pg) in
  page_links pg' = page_links pg
  /\ Forall (fun sp => span_matches sp = false) (all_spans pg').
Proof.
  simpl. rewrite redact_phrase_unfold, redact_span_loop.
  set (hit := filter span_matches (all_spans pg)).
  destruct (0 + Z.of_nat (length hit) =? 0)%Z eqn:E0; simpl.
  - split; [reflexivity|].
    assert (hit = []) as Hnil.
    { destruct hit; [reflexivity|]. simpl in E0. lia. }
    apply Forall_forall. intros sp Hin.
    destruct (span_matches sp) eqn:Em; [|reflexivity].
    exfalso. assert (sp ∈ hit) as Hh.
    { apply list_elem_of_filter. split; [rewrite Em; exact I | exact Hin]. }
    rewrite Hnil in Hh. inversion Hh.
  - split; [reflexivity|].
    rewrite all_spans_apply_redactions. simpl.
    apply Forall_forall. intros sp Hin.
    apply list_elem_of_filter in Hin as [Hnot Hin].
    destruct (span_matches sp) eqn:Em; [|reflexivity].
    exfalso. apply Hnot. apply elem_of_app. right.
    apply list_elem_of_fmap. exists sp. split; [reflexivity|].
    apply list_elem_of_filter. split; [rewrite Em; exact I | exact Hin].
Qed.

(** One page after both passes: a second [remove_links] and a second
    redaction step find nothing and return the page as it is. *)
Lemma page_settled pg :
  let pg2 := fst (redact_if_needed (fst (remove_links pg))) in
  remove_links pg2 = (pg2, 0%Z) /\ redact_if_needed pg2 = (pg2, 0%Z).
Proof.
  simpl. destruct (remove_links_result pg) as (_ & _ & Hl).
  set (pg1 := fst (remove_links pg)) in *.
  destruct (page_might_contain_phrase pg1) eqn:Ep.
  - assert (redact_if_needed pg1 = redact_phrase pg1) as ->
      by (unfold redact_if_needed; rewrite Ep; reflexivity).
    destruct (redact_phrase_result pg1) as (Hlinks & Hs).
    split.
    + apply remove_links_clean. rewrite Hlinks. exact Hl.
    + unfold redact_if_needed. rewrite (redact_phrase_clean _ Hs).
      destruct (page_might_contain_phrase (fst (redact_phrase pg1)));
        reflexivity.
  - assert (redact_if_needed pg1 = (pg1, 0%Z)) as E
      by (unfold redact_if_needed; rewrite Ep; reflexivity).
    rewrite E. simpl. split; [apply remove_links_clean, Hl | exact E].
Qed.

Lemma remove_links_idempotent pg :
  remove_links (fst (remove_links pg)) = (fst (remove_links pg), 0%Z).
Proof.
  destruct (remove_links_result pg) as (_ & _ & H).
  apply remove_links_clean, H.
Qed.

Lemma redact_phrase_idempotent pg :
  redact_phrase (fst (redact_phrase pg)) = (fst (redact_phrase pg), 0%Z).
Proof.
  destruct (redact_phrase_result pg) as (_ & H).
  apply redact_phrase_clean, H.
Qed.

Lemma may_raise_no_faults w : faults w = [] -> may_raise w = (Ret tt, w).
Proof. intros H. unfold may_raise, bind, next_fault. rewrite H. reflexivity. Qed.

(** Without engine failures the passes are maps over the pages. *)
Lemma links_pass_no_faults w pages : forall hits,
  faults w = [] ->
  exists total,
    links_pass pages hits w
    = (Ret (map (fun pg => fst (remove_links pg)) pages, total), w)
    /\ (Forall (fun pg => snd (remove_links pg) = 0%Z) pages -> total = hits).
Proof.
  induction pages as [|pg rest IH]; intros hits Hw; simpl.
  - exists hits. split; [reflexivity | auto].
  - unfold bind at 1. rewrite (may_raise_no_faults w Hw).
    destruct (remove_links pg) as [pg' n] eqn:E.
    destruct (IH (hits + n)%Z Hw) as (total & Ht & Hz).
    exists total. unfold bind. rewrite Ht. split; [reflexivity|].
    intros Hall. inversion Hall as [|? ? H1 H2]; subst.
    rewrite E in H1. simpl in H1. subst n. rewrite (Hz H2). lia.
Qed.

Lemma text_pass_no_faults w pages : forall hits,
  faults w = [] ->
  exists total,
    text_pass pages hits w
    = (Ret (map (fun pg => fst (redact_if_needed pg)) pages, total), w)
    /\ (Forall (fun pg => snd (redact_if_needed pg) = 0%Z) pages -> total = hits).
Proof.
  induction pages as [|pg rest IH]; intros hits Hw; simpl.
  - exists hits. split; [reflexivity | auto].
  - unfold bind at 1. rewrite (may_raise_no_faults w Hw).
    change (if page_might_contain_phrase pg then redact_phrase pg else (pg, 0%Z))
      with (redact_if_needed pg).
    destruct (redact_if_needed pg) as [pg' n] eqn:E.
    destruct (IH (hits + n)%Z Hw) as (total & Ht & Hz).
    exists total. unfold bind. rewrite Ht. split; [reflexivity|].
    intros Hall. inversion Hall as [|? ? H1 H2]; subst.
    rewrite E in H1. simpl in H1. subst n. rewrite (Hz H2). lia.
Qed.

(** C9.  Both content passes are idempotent: on the document a first
    run of the link pass and of the text pass has produced, a second
    run of each removes no link, redacts no span, and returns the
    document unchanged (the engine not failing). *)
Theorem content_passes_idempotent doc w d1 link_hits w1 d2 text_hits w2 :
  faults w = [] ->
  links_pass doc 0%Z w = (Ret (d1, link_hits), w1) ->
  text_pass d1 0%Z w1 = (Ret (d2, text_hits), w2) ->
  links_pass d2 0%Z w2 = (Ret (d2, 0%Z), w2)
  /\ text_pass d2 0%Z w2 = (Ret (d2, 0%Z), w2).
Proof.
  intros Hw H1 H2.
  destruct (links_pass_no_faults w doc 0%Z Hw) as (l1 & E1 & _).
  rewrite E1 in H1. injection H1 as <- _ <-.
  destruct (text_pass_no_faults w
              (map (fun pg => fst (remove_links pg)) doc) 0%Z Hw)
    as (t1 & E2 & _).
  rewrite E2 in H2. injection H2 as <- _ <-.
  rewrite map_map.
  set (d2 := map _ doc).
  assert (Forall (fun pg => remove_links pg = (pg, 0%Z)
                            /\ redact_if_needed pg = (pg, 0%Z)) d2) as Hall.
  { apply Forall_forall. intros pg Hin.
    apply list_elem_of_fmap in Hin as (pg0 & -> & _).
    apply page_settled. }
  assert (map (fun pg => fst (remove_links pg)) d2 = d2) as Hl.
  { clear -Hall. induction Hall as [|pg ps [Hp _] _ IH]; simpl; [reflexivity|].
    rewrite Hp, IH. reflexivity. }
  assert (map (fun pg => fst (redact_if_needed pg)) d2 = d2) as Ht.
  { clear -Hall. induction Hall as [|pg ps [_ Hp] _ IH]; simpl; [reflexivity|].
    rewrite Hp, IH. reflexivity. }
  split.
  - destruct (links_pass_no_faults w d2 0%Z Hw) as (l2 & E & Hz).
    rewrite E, Hl. rewrite Hz; [reflexivity|].
    eapply Forall_impl; [exact Hall|]. intros pg [-> _]. reflexivity.
  - destruct (text_pass_no_faults w d2 0%Z Hw) as (t2 & E & Hz).
    rewrite E, Ht. rewrite Hz; [reflexivity|].
    eapply Forall_impl; [exact Hall|]. intros pg [_ ->]. reflexivity.
Qed.

Lemma content_passes_idempotent_witness :
  let w := world_of ∅ [] in
  let cleaned := [mkPage [] [ImageBlock; TextBlock [mkLine [body_span]]] [];
                  watermarked_page] in
  links_pass cleaned 0%Z w = (Ret (cleaned, 0%Z), w)
  /\ text_pass cleaned 0%Z w = (Ret (cleaned, 0%Z), w).
Proof.
  intros w cleaned.
  apply (content_passes_idempotent [spaced_page; watermarked_page] w
           [spaced_page; watermarked_page] 0%Z w cleaned 1%Z w).
  - reflexivity.
  - vm_compute. reflexivity.
  - vm_compute. reflexivity.
Defined.

(** ** Collision-free names *)

Lemma existsb_slash_false s : existsb (Ascii.eqb "/") s = false <-> no_slash s.
Proof.
  unfold no_slash. induction s as [|c s IH]; cbn [existsb].
  - split; [constructor | reflexivity].
  - rewrite orb_false_iff, IH, Forall_cons, Ascii.eqb_neq.
    split; intros [H1 H2]; split; auto; congruence.
Qed.

Lemma lit_inj s1 s2 : lit s1 = lit s2 -> s1 = s2.
Proof.
  unfold lit. intros H. apply (f_equal string_of_list_ascii) in H.
  rewrite !string_of_list_ascii_of_string in H. exact H.
Qed.

Lemma pretty_N_char_no_slash x : pretty_N_char x <> "/"%char.
Proof. unfold pretty_N_char. repeat case_match; discriminate. Qed.

Lemma pretty_N_go_no_slash x : forall s,
  no_slash (lit s) -> no_slash (lit (pretty_N_go x s)).
Proof.
  induction (N.lt_wf_0 x) as [x _ IH]; intros s Hs.
  assert (x = 0 \/ 0 < x)%N as [->|Hpos] by lia.
  - rewrite pretty_N_go_0. exact Hs.
  - rewrite pretty_N_go_step by exact Hpos. apply IH.
    + apply N.div_lt; [exact Hpos | reflexivity].
    + apply Forall_cons. split; [apply pretty_N_char_no_slash | exact Hs].
Qed.

(** The decimal numeral of [i] has no separator in it. *)
Lemma pretty_nat_no_slash (i : nat) : no_slash (lit (pretty i)).
Proof.
  unfold pretty, pretty_nat, pretty, pretty_N.
  case_decide.
  - repeat constructor; discriminate.
  - apply pretty_N_go_no_slash. constructor.
Qed.

Lemma stem_suffix p : stem p ++ suffix p = name p.
Proof.
  unfold stem, suffix. destruct (rfind "." (name p)) as [i|].
  - destruct (_ && _); [apply take_drop | apply app_nil_r].
  - apply app_nil_r.
Qed.

Lemma valid_name_spec n :
  valid_name n = true <-> n <> [] /\ no_slash n /\ n <> lit ".".
Proof.
  unfold valid_name, str_eqb. rewrite !andb_true_iff, !negb_true_iff.
  rewrite existsb_slash_false, bool_decide_eq_false.
  destruct n; simpl; intuition congruence.
Qed.

(** [with_stem] succeeds on a path that has a final component. *)
Lemma with_stem_candidate p i :
  valid_name (name p) = true ->
  with_stem p (stem p ++ lit " (" ++ lit (pretty i) ++ lit ")")
  = Ret (candidate p i).
Proof.
  intros Hv. apply valid_name_spec in Hv as (Hne & Hsl & _).
  unfold with_stem, with_name.
  destruct (name p) as [|c n] eqn:En; [congruence|]. simpl is_nil. cbv iota.
  assert (valid_name ((stem p ++ lit " (" ++ lit (pretty i) ++ lit ")") ++ suffix p)
          = true) as ->.
  { apply valid_name_spec. rewrite <- (stem_suffix p) in En.
    assert (no_slash (stem p) /\ no_slash (suffix p)) as [H1 H2].
    { rewrite <- En in Hsl. apply Forall_app in Hsl. exact Hsl. }
    split; [|split].
    - intros E. apply (f_equal length) in E.
      rewrite !length_app in E. simpl in E. lia.
    - unfold no_slash. rewrite !Forall_app. repeat split; auto.
      + repeat constructor; discriminate.
      + apply pretty_nat_no_slash.
      + repeat constructor; discriminate.
    - intros E. apply (f_equal length) in E.
      rewrite !length_app in E. simpl in E. lia. }
  unfold candidate. rewrite <- !app_assoc. reflexivity.
Qed.

(** Different steps try different paths. *)
Lemma candidate_inj p i j : candidate p i = candidate p j -> i = j.
Proof.
  unfold candidate. intros [= H].
  apply app_inv_head in H. injection H as H.
  apply app_inv_tail in H. apply lit_inj in H.
  apply (inj pretty) in H. exact H.
Qed.

(** Pigeonhole: the candidates already found to exist are no more than
    the files there are. *)
Lemma tried_candidates_bound p (m : gmap Path file) i :
  (forall j, 1 <= j < i -> is_Some (m !! candidate p j)) ->
  i - 1 <= size m.
Proof.
  intros Hall.
  set (l := candidate p <$> seq 1 (i - 1)).
  assert (NoDup l) as Hnd.
  { apply NoDup_fmap_2_strong; [|apply NoDup_seq].
    intros x y _ _ E. apply (candidate_inj p), E. }
  assert (list_to_set l ⊆ dom m) as Hsub.
  { intros q Hq. apply elem_of_list_to_set in Hq.
    apply list_elem_of_fmap in Hq as (j & -> & Hj).
    apply elem_of_seq in Hj. apply elem_of_dom, Hall. lia. }
  apply subseteq_size in Hsub.
  rewrite size_list_to_set in Hsub by exact Hnd.
  rewrite size_dom in Hsub. unfold l in Hsub.
  rewrite length_fmap, length_seq in Hsub. exact Hsub.
Qed.

Lemma path_exists_spec q w :
  path_exists q w = (Ret (bool_decide (is_Some (fs w !! q))), w).
Proof. reflexivity. Qed.

(** The loop stops at the first candidate that does not exist, and the
    fuel suffices once it exceeds the number of files. *)
Lemma unique_path_loop_spec p w :
  valid_name (name p) = true ->
  forall fuel i,
    1 <= i ->
    (forall j, 1 <= j < i -> is_Some (fs w !! candidate p j)) ->
    size (fs w) < fuel + (i - 1) ->
    exists k,
      i <= k
      /\ unique_path_loop fuel p i w = (Ret (candidate p k), w)
      /\ fs w !! candidate p k = None
      /\ forall j, 1 <= j < k -> is_Some (fs w !! candidate p j).
Proof.
  intros Hv. induction fuel as [|fuel IH]; intros i Hi Hall Hsize.
  - pose proof (tried_candidates_bound p (fs w) i Hall). lia.
  - cbn [unique_path_loop]. unfold bind at 1, lift.
    rewrite (with_stem_candidate p i Hv).
    unfold bind at 1. rewrite path_exists_spec.
    destruct (fs w !! candidate p i) as [f|] eqn:Ei.
    + rewrite bool_decide_eq_true_2 by eauto. simpl negb. cbv iota.
      destruct (IH (S i)) as (k & Hk & Hrun & Hnone & Hbelow).
      * lia.
      * intros j Hj. destruct (decide (j = i)) as [->|]; [eauto|].
        apply Hall. lia.
      * lia.
      * exists k. repeat split; auto. lia.
    + rewrite bool_decide_eq_false_2 by (intros [? ?]; discriminate).
      exists i. repeat split; auto.
Qed.

(** Whatever the fuel and the path, a path [unique_path] returns does
    not exist. *)
Lemma unique_path_loop_fresh fuel : forall p i w q w',
  unique_path_loop fuel p i w = (Ret q, w') -> fs w !! q = None.
Proof.
  induction fuel as [|fuel IH]; intros p i w q w' H; [discriminate|].
  cbn [unique_path_loop] in H.
  apply bind_inv_Ret in H as (cand & w1 & Hc & H).
  injection Hc as _ <-.
  apply bind_inv_Ret in H as (ex & w1 & He & H).
  rewrite path_exists_spec in He. injection He as <- <-.
  destruct (fs w !! cand) as [f|] eqn:Ec.
  - rewrite bool_decide_eq_true_2 in H by eauto. apply IH in H. exact H.
  - rewrite bool_decide_eq_false_2 in H by (intros [? ?]; discriminate).
    injection H as <- <-. exact Ec.
Qed.

Lemma unique_path_fresh fuel p w q w' :
  unique_path fuel p w = (Ret q, w') -> fs w !! q = None.
Proof.
  unfold unique_path. intros H.
  apply bind_inv_Ret in H as (ex & w1 & He & H).
  rewrite path_exists_spec in He. injection He as <- <-.
  destruct (fs w !! p) as [f|] eqn:Ep.
  - rewrite bool_decide_eq_true_2 in H by eauto.
    apply unique_path_loop_fresh in H. exact H.
  - rewrite bool_decide_eq_false_2 in H by (intros [? ?]; discriminate).
    injection H as <- <-. exact Ep.
Qed.

(** With fuel above the number of files, [unique_path] returns. *)
Lemma unique_path_returns fuel p w :
  valid_name (name p) = true ->
  size (fs w) < fuel ->
  exists q, unique_path fuel p w = (Ret q, w).
Proof.
  intros Hv Hfuel. unfold unique_path, bind at 1. rewrite path_exists_spec.
  destruct (fs w !! p) as [f|] eqn:Ep.
  - rewrite bool_decide_eq_true_2 by eauto. simpl negb. cbv iota.
    destruct (unique_path_loop_spec p w Hv fuel 1) as (k & _ & Hrun & _).
    + lia.
    + intros j Hj. lia.
    + lia.
    + exists (candidate p k). exact Hrun.
  - rewrite bool_decide_eq_false_2 by (intros [? ?]; discriminate).
    exists p. reflexivity.
Qed.

(** C7.  [unique_path] never returns a path that exists.  For a path
    with a final component and a fuel above the number of files, it
    returns [p] itself when [p] does not exist, and otherwise the
    candidate [stem (i)] of the least [i = 1, 2, ...] that does not
    exist, all candidates before it existing. *)
Theorem unique_path_spec fuel p w :
  valid_name (name p) = true ->
  size (fs w) < fuel ->
  exists q,
    unique_path fuel p w = (Ret q, w)
    /\ fs w !! q = None
    /\ (fs w !! p = None -> q = p)
    /\ (is_Some (fs w !! p) ->
        exists i, 1 <= i /\ q = candidate p i
                  /\ forall j, 1 <= j < i -> is_Some (fs w !! candidate p j)).
Proof.
  intros Hv Hfuel. unfold unique_path, bind at 1. rewrite path_exists_spec.
  destruct (fs w !! p) as [f|] eqn:Ep.
  - rewrite bool_decide_eq_true_2 by eauto. simpl negb. cbv iota.
    destruct (unique_path_loop_spec p w Hv fuel 1)
      as (k & Hk & Hrun & Hnone & Hbelow).
    + lia.
    + intros j Hj. lia.
    + lia.
    + exists (candidate p k). repeat split; auto; [discriminate|].
      intros _. exists k. auto.
  - rewrite bool_decide_eq_false_2 by (intros [? ?]; discriminate).
    exists p. repeat split; auto.
    intros [? ?]. discriminate.
Qed.

Lemma unique_path_spec_witness :
  let p := in_books "Book.pdf" in
  let w := world_of {[ p := stored []; in_books "Book (1).pdf" := stored [] ]} [] in
  exists q,
    unique_path 3 p w = (Ret q, w)
    /\ fs w !! q = None
    /\ (fs w !! p = None -> q = p)
    /\ (is_Some (fs w !! p) ->
        exists i, 1 <= i /\ q = candidate p i
                  /\ forall j, 1 <= j < i -> is_Some (fs w !! candidate p j)).
Proof.
  intros p w. apply (unique_path_spec 3 p w).
  - vm_compute. reflexivity.
  - vm_compute. lia.
Defined.

(** ** Renaming with retries *)

Lemma path_rename_fault src dst w ft rest :
  faults w = Some ft :: rest ->
  path_rename src dst w
  = (Raise (fault_exn ft), set_faults (log_event w (EvRename src dst)) rest).
Proof.
  intros H. unfold path_rename, bind, may_raise, bind, next_fault. simpl.
  rewrite H. reflexivity.
Qed.

Lemma path_rename_ok src dst w f plan :
  faults w = [] /\ plan = [] \/ faults w = None :: plan ->
  fs w !! src = Some f ->
  path_rename src dst w
  = (Ret tt,
     mkWorld (<[dst := f]> (delete src (fs w))) plan (clock w) (win32 w)
             (pywin32 w) (trace w ++ [EvRename src dst])).
Proof.
  intros H Hf. unfold path_rename, bind, may_raise, bind, next_fault,
    move_entry. simpl.
  destruct H as [[H ->]|H]; rewrite H; simpl; rewrite Hf;
    unfold set_fs, set_faults, log_event; simpl; rewrite ?H; reflexivity.
Qed.

(** Restoring captured times on an existing file sets its access and
    modification times.  Its third time is left alone on Windows, or
    set to the captured one when [pywin32] is installed; elsewhere it
    becomes the present.  Contents, plan, clock and trace are left
    alone. *)
Lemma restore_times_exact p a m c w f :
  fs w !! p = Some f ->
  let c' := if win32 w
            then (if pywin32 w then default (file_ctime f) c
                  else file_ctime f)
            else clock w in
  restore_times p (Some a) (Some m) c w
  = (Ret tt, set_fs w (<[p := mkFile (file_pdf f) a m c']> (fs w))).
Proof.
  intros Hf. simpl.
  unfold try_except at 1, bind at 1, os_utime. rewrite Hf.
  unfold bind, platform_is_win32. simpl.
  destruct (win32 w); [|reflexivity].
  destruct c as [c|].
  - unfold try_except, win32_set_creation_time. simpl.
    destruct (pywin32 w); [|reflexivity].
    rewrite lookup_insert_eq. unfold set_fs. simpl.
    rewrite insert_insert_eq. reflexivity.
  - destruct (pywin32 w); reflexivity.
Qed.

Lemma restore_times_spec p a m c w f :
  fs w !! p = Some f ->
  exists c' w',
    restore_times p (Some a) (Some m) c w = (Ret tt, w')
    /\ fs w' = <[p := mkFile (file_pdf f) a m c']> (fs w)
    /\ faults w' = faults w /\ trace w' = trace w.
Proof.
  intros Hf. eexists _, _. split; [apply restore_times_exact, Hf|].
  simpl. auto.
Qed.

(** A transient failure with budget left: sleep one second, try again. *)
Lemma rename_attempts_retry
    n attempt retries src dst atime mtime ctime w ft rest :
  faults w = Some ft :: rest ->
  transient ft ->
  (attempt < retries - 1)%Z ->
  rename_attempts (S n) attempt retries src dst atime mtime ctime w
  = rename_attempts n (attempt + 1)%Z retries src dst atime mtime ctime
      (after_retries w src dst 1 rest).
Proof.
  intros Hw [Hcls Hcloud] Hlt. cbn [rename_attempts].
  unfold try_except_OSError, bind at 1.
  rewrite (path_rename_fault _ _ _ _ _ Hw). rewrite Hcls, Hcloud.
  apply Z.ltb_lt in Hlt. rewrite Hlt. simpl.
  unfold bind, time_sleep. f_equal.
  unfold after_retries, retried, log_event, set_faults. simpl.
  rewrite <- app_assoc. reflexivity.
Qed.

Lemma after_retries_S w src dst k plan' plan :
  after_retries (after_retries w src dst 1 plan') src dst k plan
  = after_retries w src dst (S k) plan.
Proof.
  unfold after_retries, retried. simpl. rewrite <- !app_assoc.
  reflexivity.
Qed.

(** [k] transient failures in a row, the budget allowing one more
    attempt: the loop has slept [k] times and is at attempt [k]. *)
Lemma rename_attempts_skip src dst atime mtime ctime retries es :
  forall n attempt w plan,
  Forall transient es ->
  faults w = (Some <$> es) ++ plan ->
  length es < n ->
  (Z.of_nat n + attempt = retries)%Z ->
  rename_attempts n attempt retries src dst atime mtime ctime w
  = rename_attempts (n - length es) (attempt + Z.of_nat (length es))%Z
      retries src dst atime mtime ctime
      (after_retries w src dst (length es) plan).
Proof.
  induction es as [|ft es IH]; intros n attempt w plan Hall Hw Hlen Hinv.
  - simpl in *. rewrite Nat.sub_0_r, Z.add_0_r. f_equal.
    unfold after_retries, retried. simpl. rewrite app_nil_r.
    destruct w; simpl in *; congruence.
  - inversion Hall as [|? ? Hft Hes]; subst.
    destruct n as [|n]; [simpl in Hlen; lia|].
    simpl in Hlen. simpl in Hw.
    rewrite (rename_attempts_retry n attempt _ src dst atime mtime ctime w
               ft _ Hw Hft) by lia.
    rewrite (IH n (attempt + 1)%Z _ plan Hes); simpl; try lia; try reflexivity.
    rewrite after_retries_S. f_equal. lia.
Qed.

(** An attempt that fails for another reason raises at once. *)
Lemma rename_attempts_fatal
    n attempt retries src dst atime mtime ctime w ft rest :
  faults w = Some ft :: rest ->
  ~ transient ft ->
  rename_attempts (S n) attempt retries src dst atime mtime ctime w
  = (Raise (fault_exn ft), set_faults (log_event w (EvRename src dst)) rest).
Proof.
  intros Hw Hnt. cbn [rename_attempts].
  unfold try_except_OSError, bind at 1.
  rewrite (path_rename_fault _ _ _ _ _ Hw).
  destruct (exn_cls (fault_exn ft)) eqn:Ecls; try reflexivity.
  destruct (is_cloud_error (fault_exn ft)) eqn:Ecloud.
  - exfalso. apply Hnt. split; assumption.
  - reflexivity.
Qed.

(** A transient failure at the last attempt of the budget raises. *)
Lemma rename_attempts_exhausted retries src dst atime mtime ctime w ft rest :
  faults w = Some ft :: rest ->
  rename_attempts 1 (retries - 1)%Z retries src dst atime mtime ctime w
  = (Raise (fault_exn ft), set_faults (log_event w (EvRename src dst)) rest).
Proof.
  intros Hw. cbn [rename_attempts].
  unfold try_except_OSError, bind at 1.
  rewrite (path_rename_fault _ _ _ _ _ Hw).
  rewrite Z.ltb_irrefl, andb_false_r.
  destruct (exn_cls (fault_exn ft)); reflexivity.
Qed.

(** An attempt that succeeds moves the file and restores its times:
    the access and modification times are the captured ones, the third
    time is as [restore_times] leaves it. *)
Lemma rename_attempts_success n attempt retries src dst a m c w f plan :
  faults w = [] /\ plan = [] \/ faults w = None :: plan ->
  fs w !! src = Some f ->
  let c' := if win32 w
            then (if pywin32 w then default (file_ctime f) c
                  else file_ctime f)
            else clock w in
  exists w',
    rename_attempts (S n) attempt retries src dst (Some a) (Some m) c w
    = (Ret (true, dst), w')
    /\ fs w' = <[dst := mkFile (file_pdf f) a m c']> (delete src (fs w))
    /\ faults w' = plan
    /\ trace w' = trace w ++ [EvRename src dst].
Proof.
  intros Hw Hf c'. cbn [rename_attempts].
  unfold try_except_OSError, bind at 1.
  rewrite (path_rename_ok _ _ _ _ _ Hw Hf).
  set (w1 := mkWorld _ _ _ _ _ _).
  assert (fs w1 !! dst = Some f) as Hdst by apply lookup_insert_eq.
  unfold bind. rewrite (restore_times_exact dst a m c w1 f Hdst).
  eexists. split; [reflexivity|]. cbn [fs set_fs faults trace w1 win32
    pywin32 clock].
  rewrite insert_insert_eq. auto.
Qed.

Lemma get_file_times_existing p w f :
  fs w !! p = Some f ->
  get_file_times p w
  = (Ret (Some (file_atime f), Some (file_mtime f),
          Some (if win32 w then file_ctime f else file_mtime f)), w).
Proof.
  intros Hf.
  unfold get_file_times, try_except, bind, path_stat, platform_is_win32.
  rewrite Hf. reflexivity.
Qed.

(** C8 (amended).  [rename_if_needed], once a new name has been computed
    for an existing file.  [retries] is its budget of rename attempts
    in total, the first one included: it attempts again only after an
    [OSError] whose text contains "cloud operation" or "time-out" in
    any letter case, only while an attempt of the budget is left, so at
    most [retries - 1] times, and it sleeps one second before each new
    attempt.
    - When [k] such failures are followed by a success within the
      budget, it returns [(True, new_path)] after [k] sleeps.  The file
      has moved to [new_path] with its contents, and the captured times
      have been reapplied there: its access and modification times are
      those the file had before; its third time is the creation time
      the file had on Windows, and the present elsewhere, where setting
      the two others counts as a metadata change.
    - When they are followed by any other exception, that exception
      propagates at once, after [k] sleeps.
    - When such failures use the budget up, the exception of attempt
      number [retries] propagates, after [retries - 1] sleeps.
    In the last two cases no file has moved. *)
Theorem rename_if_needed_retries
    fuel pdf_path new_path f retries w es o plan :
  compute_rename fuel pdf_path w = (Ret (Some new_path), w) ->
  fs w !! pdf_path = Some f ->
  Forall transient es ->
  faults w = (Some <$> es) ++ o :: plan ->
  let k := length es in
  let n := Z.to_nat retries in
  (k < n -> o = None ->
   exists w',
     rename_if_needed fuel pdf_path false retries w = (Ret (true, new_path), w')
     /\ trace w' = trace w ++ retried pdf_path new_path k
                   ++ [EvRename pdf_path new_path]
     /\ fs w' = <[new_path := mkFile (file_pdf f) (file_atime f) (file_mtime f)
                                (if win32 w then file_ctime f else clock w)]>
                  (delete pdf_path (fs w)))
  /\ (k < n -> forall ft, o = Some ft -> ~ transient ft ->
      exists w',
        rename_if_needed fuel pdf_path false retries w
        = (Raise (fault_exn ft), w')
        /\ trace w' = trace w ++ retried pdf_path new_path k
                      ++ [EvRename pdf_path new_path]
        /\ fs w' = fs w)
  /\ (0 < n <= k ->
      exists ft w',
        es !! (n - 1) = Some ft
        /\ rename_if_needed fuel pdf_path false retries w
           = (Raise (fault_exn ft), w')
        /\ trace w' = trace w ++ retried pdf_path new_path (n - 1)
                      ++ [EvRename pdf_path new_path]
        /\ fs w' = fs w).
Proof.
  intros Hnew Hf Hes Hw k n.
  assert (rename_if_needed fuel pdf_path false retries w
          = rename_attempts n 0%Z retries pdf_path new_path
              (Some (file_atime f)) (Some (file_mtime f))
              (Some (if win32 w then file_ctime f else file_mtime f)) w)
    as Hrun.
  { unfold rename_if_needed, bind at 1. rewrite Hnew.
    unfold bind. rewrite (get_file_times_existing _ _ _ Hf). reflexivity. }
  rewrite Hrun. clear Hrun.
  split; [|split].
  - intros Hk ->.
    rewrite (rename_attempts_skip _ _ _ _ _ _ es n 0%Z w (None :: plan)) by
      (auto; unfold n in *; lia).
    fold k. destruct (n - k) as [|n'] eqn:En; [lia|].
    set (wk := after_retries w pdf_path new_path k (None :: plan)).
    destruct (rename_attempts_success n' (0 + Z.of_nat k)%Z retries
                pdf_path new_path (file_atime f) (file_mtime f)
                (Some (if win32 w then file_ctime f else file_mtime f))
                wk f plan) as (w' & Hr & Hfs & _ & Htr).
    { right. reflexivity. }
    { exact Hf. }
    exists w'. split; [exact Hr|].
    split; [rewrite Htr; simpl; rewrite <- app_assoc; reflexivity|].
    rewrite Hfs. cbn [wk after_retries win32 pywin32 clock fs].
    destruct (win32 w), (pywin32 w); reflexivity.
  - intros Hk ft -> Hnt.
    rewrite (rename_attempts_skip _ _ _ _ _ _ es n 0%Z w (Some ft :: plan)) by
      (auto; unfold n in *; lia).
    fold k. destruct (n - k) as [|n'] eqn:En; [lia|].
    rewrite (rename_attempts_fatal n' _ _ _ _ _ _ _ _ ft plan)
      by (auto; reflexivity).
    eexists. split; [reflexivity|]. simpl. rewrite <- app_assoc. auto.
  - intros [Hn Hk].
    destruct (lookup_lt_is_Some_2 es (n - 1)) as [ft Hft]; [fold k; lia|].
    pose proof (take_drop_middle es (n - 1) ft Hft) as Hsplit.
    assert (faults w = (Some <$> take (n - 1) es)
                       ++ Some ft :: (Some <$> drop (S (n - 1)) es) ++ o :: plan)
      as Hw'.
    { rewrite Hw. rewrite <- Hsplit at 1.
      rewrite fmap_app, fmap_cons, <- app_assoc. reflexivity. }
    assert (length (take (n - 1) es) = n - 1) as Hlen
      by (rewrite length_take; fold k; lia).
    rewrite (rename_attempts_skip _ _ _ _ _ _ (take (n - 1) es) n 0%Z w _
               (Forall_take _ _ _ Hes) Hw') by (unfold n in *; lia).
    rewrite Hlen. replace (n - (n - 1)) with 1 by lia.
    replace (0 + Z.of_nat (n - 1))%Z with (retries - 1)%Z by (unfold n in *; lia).
    rewrite (rename_attempts_exhausted _ _ _ _ _ _ _ ft
               ((Some <$> drop (S (n - 1)) es) ++ o :: plan)) by reflexivity.
    exists ft. eexists. split; [exact Hft|]. split; [reflexivity|].
    simpl. rewrite <- app_assoc. auto.
Qed.

Lemma rename_if_needed_retries_witness :
  let p := in_books "a_b.pdf" in
  let q := in_books "a b.pdf" in
  let w := world_of {[ p := stored [] ]}
             [failure OSError "The Cloud Operation was not completed"; None] in
  exists w',
    rename_if_needed 1 p false 3 w = (Ret (true, q), w')
    /\ trace w' = [EvRename p q; EvSleep 1; EvRename p q]
    /\ fs w' = {[ q := mkFile (Some []) 1000 2000 5000 ]}.
Proof.
  intros p q w.
  destruct (rename_if_needed_retries 1 p q (stored []) 3 w
              [mkFault
                 (mkExn OSError (lit "The Cloud Operation was not completed"))
                 true]
              None []) as [H _].
  - vm_compute. reflexivity.
  - vm_compute. reflexivity.
  - constructor; [|constructor]. split; vm_compute; reflexivity.
  - reflexivity.
  - destruct H as (w' & Hr & Htr & Hfs); [simpl; lia | reflexivity |].
    exists w'. split; [exact Hr|]. split; [exact Htr|].
    rewrite Hfs. cbn [win32 clock world_of fs w stored file_pdf file_atime
      file_mtime]. rewrite delete_singleton_eq. apply insert_empty.
Defined.

(** C8 (as stated) fails: with the default budget of 3, the rename is
    attempted three times and so re-attempted twice, not three times.
    After three failures that name a time-out the third one propagates,
    though a fourth attempt would have succeeded: two sleeps, three
    attempts, no file moved. *)
Lemma rename_if_needed_retries_counterexample :
  let p := in_books "a_b.pdf" in
  let q := in_books "a b.pdf" in
  let busy i := mkFault (mkExn OSError (lit "time-out, attempt " ++ lit i))
                  true in
  let w := world_of {[ p := stored [] ]}
             [Some (busy "1"); Some (busy "2"); Some (busy "3"); None] in
  let run := rename_if_needed 1 p false 3 w in
  compute_rename 1 p w = (Ret (Some q), w)
  /\ Forall transient [busy "1"; busy "2"; busy "3"]
  /\ fst run = Raise (fault_exn (busy "3"))
  /\ fst run <> Ret (true, q)
  /\ trace (snd run)
     = [EvRename p q; EvSleep 1; EvRename p q; EvSleep 1; EvRename p q]
  /\ faults (snd run) = [None]
  /\ fs (snd run) = fs w.
Proof.
  intros p q busy w run.
  assert (fst run = Raise (fault_exn (busy "3"))) as E
    by (vm_compute; reflexivity).
  split; [vm_compute; reflexivity|].
  split; [repeat constructor; vm_compute; reflexivity|].
  split; [exact E|].
  split; [rewrite E; discriminate|].
  split; [vm_compute; reflexivity|].
  split; vm_compute; reflexivity.
Qed.

(** ** Strings *)

Lemma startswith_cons_inv c s p pre :
  startswith (c :: s) (p :: pre) = true -> p = c /\ startswith s pre = true.
Proof.
  cbn [startswith]. intros H. apply andb_prop in H as [H1 H2].
  apply Ascii.eqb_eq in H1. auto.
Qed.

Lemma startswith_spec s pre :
  startswith s pre = true <-> exists r, s = pre ++ r.
Proof.
  revert s. induction pre as [|p pre IH]; intros s.
  - simpl. split; [intros _; exists s; reflexivity | reflexivity].
  - destruct s as [|c s].
    + simpl. split; [discriminate | intros [r Hr]; discriminate].
    + split.
      * intros H. apply startswith_cons_inv in H as [-> H].
        apply IH in H as [r ->]. exists r. reflexivity.
      * intros [r Hr]. injection Hr as -> ->. cbn [startswith].
        rewrite Ascii.eqb_refl. apply IH. eauto.
Qed.

Lemma endswith_spec s suf :
  endswith s suf = true <-> exists x, s = x ++ suf.
Proof.
  unfold endswith. rewrite startswith_spec. split.
  - intros [r Hr]. exists (rev r).
    rewrite <- (rev_involutive s), Hr, rev_app_distr, rev_involutive.
    reflexivity.
  - intros [x ->]. exists (rev x). apply rev_app_distr.
Qed.

Lemma re_sub_plus_go_id cls repl s : forall b,
  Forall (fun c => cls c = false) s -> re_sub_plus_go cls repl b s = s.
Proof.
  induction s as [|c s IH]; intros b H; [reflexivity|].
  inversion H as [|? ? Hc Hs]; subst. cbn [re_sub_plus_go].
  rewrite Hc, (IH false Hs). reflexivity.
Qed.

Lemma re_sub_class_id cls s :
  Forall (fun c => cls c = false) s -> re_sub_class cls [] s = s.
Proof.
  unfold re_sub_class. induction 1 as [|c s Hc _ IH]; [reflexivity|].
  cbn [flat_map]. rewrite Hc, IH. reflexivity.
Qed.

Lemma single_spaced_sub s : forall b,
  single_spaced b s = true -> re_sub_plus_go isspace (lit " ") b s = s.
Proof.
  induction s as [|c s IH]; intros b H; [reflexivity|].
  cbn [single_spaced re_sub_plus_go] in *.
  destruct (isspace c).
  - apply andb_prop in H as [H Hs]. apply andb_prop in H as [Hc Hb].
    apply Ascii.eqb_eq in Hc. subst c.
    destruct b; [discriminate|]. rewrite (IH true Hs). reflexivity.
  - rewrite (IH false H). reflexivity.
Qed.

Lemma ends_with_space_cons c s :
  ends_with_space (c :: s) = if is_nil s then isspace c else ends_with_space s.
Proof. destruct s; reflexivity. Qed.

Lemma single_spaced_app s1 : forall b s2,
  single_spaced b (s1 ++ s2)
  = single_spaced b s1
    && single_spaced (if is_nil s1 then b else ends_with_space s1) s2.
Proof.
  induction s1 as [|c s1 IH]; intros b s2; [reflexivity|].
  cbn [app single_spaced is_nil]. rewrite ends_with_space_cons.
  destruct (isspace c) eqn:Ec.
  - rewrite IH. destruct s1; simpl; rewrite <- !andb_assoc; reflexivity.
  - rewrite IH. destruct s1; reflexivity.
Qed.

Lemma single_spaced_weaken s :
  single_spaced true s = true -> single_spaced false s = true.
Proof.
  destruct s as [|c s]; [reflexivity|]. cbn [single_spaced].
  destruct (isspace c); [|auto].
  rewrite andb_false_r. discriminate.
Qed.

Lemma single_spaced_head s :
  single_spaced true s = true -> s <> [] ->
  exists c s', s = c :: s' /\ isspace c = false.
Proof.
  destruct s as [|c s]; [congruence|]. intros H _. exists c, s.
  split; [reflexivity|]. cbn [single_spaced] in H.
  destruct (isspace c); [|reflexivity].
  rewrite andb_false_r in H. discriminate.
Qed.

Lemma lstrip_nonspace c s : isspace c = false -> lstrip (c :: s) = c :: s.
Proof. intros H. cbn [lstrip]. rewrite H. reflexivity. Qed.

Lemma rstrip_nonspace s c : isspace c = false -> rstrip (s ++ [c]) = s ++ [c].
Proof.
  intros H. unfold rstrip. rewrite rev_app_distr. cbn [rev app].
  rewrite (lstrip_nonspace _ _ H). cbn [rev]. rewrite rev_involutive.
  reflexivity.
Qed.

Lemma not_ends_with_space s :
  s <> [] -> ends_with_space s = false ->
  exists s0 c, s = s0 ++ [c] /\ isspace c = false.
Proof.
  intros Hne H. unfold ends_with_space in H.
  destruct (last s) as [c|] eqn:El.
  - apply last_Some in El as [s0 ->]. eauto.
  - apply last_None in El. congruence.
Qed.

(** A text that neither starts nor ends with whitespace is its own
    [strip]. *)
Lemma strip_id s :
  (exists c s', s = c :: s' /\ isspace c = false) ->
  ends_with_space s = false ->
  strip s = s.
Proof.
  intros (c & s' & -> & Hc) He. unfold strip.
  rewrite (lstrip_nonspace _ _ Hc).
  destruct (not_ends_with_space (c :: s')) as (s0 & d & -> & Hd);
    [discriminate | exact He |].
  apply rstrip_nonspace, Hd.
Qed.

Lemma plain_part_spec s :
  plain_part s = true ->
  s <> []
  /\ Forall (fun c => illegal_char c = false) s
  /\ Forall (fun c => Ascii.eqb "_" c = false) s
  /\ single_spaced true s = true
  /\ ends_with_space s = false.
Proof.
  unfold plain_part. rewrite !andb_true_iff, !negb_true_iff.
  intros [[[H1 H2] H3] H4].
  assert (forall c, c ∈ s ->
            illegal_char c = false /\ Ascii.eqb "_" c = false) as Hc.
  { intros c Hc. apply list_elem_of_In in Hc.
    rewrite forallb_forall in H2. specialize (H2 c Hc).
    apply andb_prop in H2 as [Ha Hb].
    rewrite negb_true_iff in Ha, Hb. rewrite Ascii.eqb_sym. auto. }
  split; [destruct s; [discriminate|congruence]|].
  split; [apply Forall_forall; intros c Hin; apply Hc, Hin|].
  split; [apply Forall_forall; intros c Hin; apply Hc, Hin|].
  auto.
Qed.

Lemma sanitize_plain s : plain_part s = true -> sanitize s = s.
Proof.
  intros H. apply plain_part_spec in H as (Hne & Hill & _ & Hsp & He).
  unfold sanitize. rewrite (re_sub_class_id _ _ Hill).
  apply strip_id; [apply single_spaced_head; assumption | exact He].
Qed.

(** The separator is found right after a title without underscore. *)
Lemma split1_title T A :
  Forall (fun c => Ascii.eqb "_" c = false) T ->
  split1 (lit "_-_") (T ++ lit "_-_" ++ A) = [T; A].
Proof.
  induction 1 as [|c T Hc _ IH].
  - reflexivity.
  - cbn [app split1]. rewrite IH.
    change (lit "_-_") with ("_" :: lit "-_")%char. cbn [startswith].
    rewrite Hc. reflexivity.
Qed.

(** ** Stem and suffix of a [.pdf] name *)

Lemma rfind_app_pdf s : rfind "." (s ++ lit ".pdf") = Some (length s).
Proof.
  induction s as [|c s IH]; [reflexivity|].
  cbn [app rfind length]. rewrite IH. reflexivity.
Qed.

Lemma stem_pdf dir s : s <> [] -> stem (mkPath dir (s ++ lit ".pdf")) = s.
Proof.
  intros Hne. unfold stem. cbn [name]. rewrite rfind_app_pdf.
  assert (0 < length s) as Hlen by (destruct s; [congruence | simpl; lia]).
  rewrite length_app. change (length (lit ".pdf")) with 4.
  replace ((0 <? length s) && (length s <? length s + 4 - 1)) with true.
  - apply take_app_length.
  - symmetry. apply andb_true_iff. split; apply Nat.ltb_lt; lia.
Qed.

Lemma suffix_pdf dir s :
  s <> [] -> suffix (mkPath dir (s ++ lit ".pdf")) = lit ".pdf".
Proof.
  intros Hne. unfold suffix. cbn [name]. rewrite rfind_app_pdf.
  assert (0 < length s) as Hlen by (destruct s; [congruence | simpl; lia]).
  rewrite length_app. change (length (lit ".pdf")) with 4.
  replace ((0 <? length s) && (length s <? length s + 4 - 1)) with true.
  - apply drop_app_length.
  - symmetry. apply andb_true_iff. split; apply Nat.ltb_lt; lia.
Qed.

(** ** The Z-Library suffix does not end a stem whose author is plain *)

Ltac zlib_here H Hsp :=
  simpl app in H;
  apply startswith_cons_inv in H as [<- H];
  apply startswith_cons_inv in H as [H _];
  first [ discriminate H | vm_compute in Hsp; discriminate Hsp ].

Lemma not_zlib_reversed R : forall a Y,
  Forall (fun c => Ascii.eqb "_" c = false) R ->
  Ascii.eqb "_" a = false ->
  isspace a = false ->
  startswith (R ++ a :: "_"%char :: Y) (rev ZLIB_SUFFIX) = false.
Proof.
  intros a Y Hus Ha Hsp.
  destruct (startswith _ _) eqn:H; [exfalso | reflexivity].
  change (rev ZLIB_SUFFIX) with (lit ")yrarbiL-Z( _") in H.
  unfold lit in H. cbn [list_ascii_of_string] in H.
  do 12 (destruct R as [|? R];
         [ zlib_here H Hsp
         | cbn [app] in H; apply startswith_cons_inv in H as [<- H] ]).
  destruct R as [|r R]; cbn [app] in H;
    apply startswith_cons_inv in H as [<- _].
  - discriminate Ha.
  - rewrite Forall_forall in Hus. specialize (Hus "_"%char).
    assert (Ascii.eqb "_" "_" = false) as Habs
      by (apply Hus; repeat constructor).
    discriminate Habs.
Qed.

Lemma endswith_zlib_plain X A :
  plain_part A = true ->
  endswith (X ++ lit "_" ++ A) ZLIB_SUFFIX = false.
Proof.
  intros H. apply plain_part_spec in H as (Hne & _ & Hus & Hsp & _).
  destruct (single_spaced_head A Hsp Hne) as (a & A' & -> & Ha).
  unfold endswith. rewrite rev_app_distr. cbn [lit list_ascii_of_string app rev].
  rewrite <- !app_assoc. cbn [app].
  inversion Hus as [|? ? Hua HuA]; subst.
  apply not_zlib_reversed; auto. apply Forall_rev, HuA.
Qed.

(** ** Rule 3 leaves a plain "author - title" as it is *)

Lemma normalize_plain A T :
  plain_part T = true -> plain_part A = true ->
  normalize_name (A ++ lit " - " ++ T) = A ++ lit " - " ++ T.
Proof.
  intros HT HA.
  apply plain_part_spec in HT as (HTne & _ & HTus & HTsp & HTe).
  apply plain_part_spec in HA as (HAne & _ & HAus & HAsp & HAe).
  unfold normalize_name, re_sub_plus.
  rewrite (re_sub_plus_go_id (Ascii.eqb "_")).
  2:{ rewrite !Forall_app. repeat split; auto. repeat constructor. }
  rewrite single_spaced_sub.
  2:{ rewrite single_spaced_app, (single_spaced_weaken _ HAsp).
      destruct A as [|a A]; [congruence|]. cbn [is_nil]. rewrite HAe.
      cbn [andb]. rewrite (single_spaced_app (lit " - ")).
      change (single_spaced false (lit " - ")) with true.
      change (ends_with_space (lit " - ")) with true.
      exact HTsp. }
  apply strip_id.
  - destruct (single_spaced_head A HAsp HAne) as (a & A' & -> & Ha).
    exists a, (A' ++ lit " - " ++ T). split; [reflexivity | exact Ha].
  - unfold ends_with_space in *. rewrite !last_app.
    destruct (last T) as [c|] eqn:El; [exact HTe|].
    apply last_None in El. congruence.
Qed.

(** C6 (as amended).  For a title [T] and an author [A] that are plain
    (not empty, no illegal character, no underscore, whitespace only as
    single spaces between other characters), when [A - T.pdf] does not
    exist in the directory, [compute_rename] of
    [_OceanofPDFs.com_T_-_A.pdf] yields [A - T.pdf] in the same
    directory. *)
Theorem compute_rename_prefixed fuel dir T A w :
  plain_part T = true ->
  plain_part A = true ->
  fs w !! mkPath dir (A ++ lit " - " ++ T ++ lit ".pdf") = None ->
  compute_rename fuel
    (mkPath dir (PREFIX ++ T ++ lit "_-_" ++ A ++ lit ".pdf")) w
  = (Ret (Some (mkPath dir (A ++ lit " - " ++ T ++ lit ".pdf"))), w).
Proof.
  intros HT HA Hfree.
  set (S := PREFIX ++ T ++ lit "_-_" ++ A).
  assert (PREFIX ++ T ++ lit "_-_" ++ A ++ lit ".pdf" = S ++ lit ".pdf") as ->
    by (unfold S; rewrite <- !app_assoc; reflexivity).
  assert (S <> []) as HS by (unfold S; discriminate).
  unfold compute_rename.
  rewrite (stem_pdf dir S HS), (suffix_pdf dir S HS).
  assert (strip_zlib S = S) as ->.
  { unfold strip_zlib.
    replace S with ((PREFIX ++ T ++ lit "_-") ++ lit "_" ++ A)
      by (unfold S; rewrite <- !app_assoc; reflexivity).
    rewrite (endswith_zlib_plain _ A HA). reflexivity. }
  assert (reformat_prefixed S = A ++ lit " - " ++ T) as ->.
  { unfold reformat_prefixed.
    assert (startswith S PREFIX = true) as ->
      by (apply startswith_spec; eexists; reflexivity).
    unfold S. rewrite drop_app_length.
    pose proof (plain_part_spec T HT) as (_ & _ & HTus & _).
    rewrite (split1_title T A HTus).
    rewrite (sanitize_plain T HT), (sanitize_plain A HA). reflexivity. }
  rewrite (normalize_plain A T HT HA).
  pose proof (plain_part_spec A HA) as (HAne & HAill & HAus & HAsp & _).
  pose proof (plain_part_spec T HT) as (_ & HTill & _).
  destruct (single_spaced_head A HAsp HAne) as (a & A' & -> & Ha).
  assert (Forall (fun c => c <> "/"%char) (a :: A')) as HAsl.
  { eapply Forall_impl; [exact HAill|]. intros c Hc ->. discriminate Hc. }
  assert (Forall (fun c => c <> "/"%char) T) as HTsl.
  { eapply Forall_impl; [exact HTill|]. intros c Hc ->. discriminate Hc. }
  unfold bind at 1, lift, with_name. cbn [name].
  assert (is_nil (S ++ lit ".pdf") = false) as ->
    by (unfold S; reflexivity).
  assert (valid_name (((a :: A') ++ lit " - " ++ T) ++ lit ".pdf") = true) as ->.
  { apply valid_name_spec. split; [discriminate|]. split.
    - unfold no_slash. rewrite !Forall_app. repeat split; auto;
        repeat constructor; discriminate.
    - intros E. apply (f_equal length) in E.
      rewrite !length_app in E. simpl in E. lia. }
  rewrite bool_decide_eq_false_2.
  2:{ intros E. apply (f_equal name) in E. cbn [name] in E.
      unfold S, PREFIX, lit in E. cbn [list_ascii_of_string app] in E.
      injection E as E _. subst a.
      inversion HAus as [|? ? Hu _]; subst. discriminate Hu. }
  rewrite <- !app_assoc in *. cbn [parent].
  unfold unique_path, bind. rewrite path_exists_spec, Hfree.
  rewrite bool_decide_eq_false_2 by (intros [? ?]; discriminate).
  reflexivity.
Qed.

Lemma compute_rename_prefixed_witness :
  compute_rename 1
    (in_books "_OceanofPDFs.com_The Great Gatsby_-_F. Scott Fitzgerald.pdf")
    (world_of ∅ [])
  = (Ret (Some (in_books "F. Scott Fitzgerald - The Great Gatsby.pdf")),
     world_of ∅ []).
Proof.
  apply (compute_rename_prefixed 1 books (lit "The Great Gatsby")
           (lit "F. Scott Fitzgerald") (world_of ∅ [])).
  - vm_compute. reflexivity.
  - vm_compute. reflexivity.
  - vm_compute. reflexivity.
Defined.

(** C6 (as stated) fails: a title free of illegal characters may hold
    underscores, and rule 3 turns them into spaces. *)
Lemma compute_rename_prefixed_counterexample :
  let T := lit "Great_Gatsby" in
  let A := lit "Fitzgerald" in
  let w := world_of ∅ [] in
  let source := mkPath books (PREFIX ++ T ++ lit "_-_" ++ A ++ lit ".pdf") in
  forallb (fun c => negb (illegal_char c)) (T ++ A) = true
  /\ fs w !! mkPath books (A ++ lit " - " ++ T ++ lit ".pdf") = None
  /\ fst (compute_rename 1 source w)
     = Ret (Some (in_books "Fitzgerald - Great Gatsby.pdf"))
  /\ fst (compute_rename 1 source w)
     <> Ret (Some (mkPath books (A ++ lit " - " ++ T ++ lit ".pdf"))).
Proof.
  intros T A w source.
  assert (fst (compute_rename 1 source w)
          = Ret (Some (in_books "Fitzgerald - Great Gatsby.pdf"))) as E
    by (vm_compute; reflexivity).
  repeat split; try (vm_compute; reflexivity).
  rewrite E. vm_compute. discriminate.
Qed.

(** ** A prefixed stem without separator *)

Lemma startswith_take_mono s pre m :
  startswith (take m s) pre = true -> startswith s pre = true.
Proof.
  rewrite !startswith_spec. intros [r Hr]. exists (r ++ drop m s).
  rewrite app_assoc, <- Hr. symmetry. apply take_drop.
Qed.

Lemma contains_take sep s : forall m,
  contains sep (take m s) = true -> contains sep s = true.
Proof.
  induction s as [|c s IH]; intros m H.
  - rewrite take_nil in H. exact H.
  - destruct m as [|m].
    + cbn [take contains] in H. rewrite orb_false_r in H.
      cbn [contains]. apply orb_true_iff. left.
      apply (startswith_take_mono _ _ 0). exact H.
    + cbn [take contains] in *. apply orb_true_iff in H as [H|H];
        apply orb_true_iff.
      * left. apply (startswith_take_mono (c :: s) sep (S m)). exact H.
      * right. apply (IH m H).
Qed.

(** [split1] gives two parts exactly when the separator occurs. *)
Lemma split1_length sep s :
  length (split1 sep s) = if contains sep s then 2 else 1.
Proof.
  induction s as [|c s IH].
  - cbn [split1 contains]. rewrite orb_false_r.
    destruct (startswith [] sep); reflexivity.
  - cbn [split1 contains].
    destruct (startswith (c :: s) sep); [reflexivity|]. cbn [orb].
    destruct (contains sep s).
    + destruct (split1 sep s) as [|a [|b [|? ?]]]; try discriminate IH.
      reflexivity.
    + destruct (split1 sep s) as [|a [|b [|? ?]]]; try discriminate IH;
        reflexivity.
Qed.

(** Rule 1 keeps the first sixteen characters of a prefixed stem. *)
Lemma strip_zlib_prefixed s :
  startswith s PREFIX = true ->
  startswith (strip_zlib s) (lit "_OceanofPDFs.com") = true.
Proof.
  intros Hp. unfold strip_zlib.
  destruct (endswith s ZLIB_SUFFIX) eqn:Ez.
  - apply endswith_spec in Ez as [X ->].
    rewrite length_app, Nat.add_sub, take_app_length.
    apply startswith_spec in Hp as [R HR].
    unfold PREFIX, ZLIB_SUFFIX, lit in HR. cbn [list_ascii_of_string] in HR.
    do 16 (destruct X as [|? X]; [cbn [app] in HR; discriminate HR|];
           cbn [app] in HR; injection HR as -> HR).
    reflexivity.
  - apply startswith_spec in Hp as [R ->]. reflexivity.
Qed.

(** Without separator in the remainder, rule 2 changes nothing, whether
    rule 1 has removed a suffix or not. *)
Lemma reformat_prefixed_unsplit s :
  length (split1 (lit "_-_") (drop (length PREFIX) s)) <> 2 ->
  reformat_prefixed (strip_zlib s) = strip_zlib s.
Proof.
  intros Hparts. unfold reformat_prefixed.
  destruct (startswith (strip_zlib s) PREFIX); [|reflexivity].
  assert (contains (lit "_-_") (drop (length PREFIX) s) = false) as Hno.
  { rewrite split1_length in Hparts. destruct (contains _ _); congruence. }
  assert (contains (lit "_-_") (drop (length PREFIX) (strip_zlib s)) = false)
    as Hno'.
  { unfold strip_zlib. destruct (endswith s ZLIB_SUFFIX); [|exact Hno].
    rewrite skipn_firstn_comm.
    destruct (contains _ (take _ _)) eqn:E; [|reflexivity].
    apply contains_take in E. congruence. }
  pose proof (split1_length (lit "_-_") (drop (length PREFIX) (strip_zlib s)))
    as Hlen.
  rewrite Hno' in Hlen.
  destruct (split1 (lit "_-_") (drop (length PREFIX) (strip_zlib s)))
    as [|a [|b [|? ?]]]; try reflexivity.
  discriminate Hlen.
Qed.

Lemma lstrip_app_nonspace U c V :
  isspace c = false -> exists U', lstrip (U ++ c :: V) = U' ++ c :: V.
Proof.
  intros Hc. induction U as [|u U IH].
  - exists []. simpl. rewrite Hc. reflexivity.
  - cbn [app lstrip]. destruct (isspace u).
    + exact IH.
    + exists (u :: U). reflexivity.
Qed.

(** [rstrip] keeps everything up to a character that is not
    whitespace. *)
Lemma rstrip_keeps P c Y :
  isspace c = false -> exists Y', rstrip (P ++ c :: Y) = P ++ c :: Y'.
Proof.
  intros Hc. unfold rstrip. rewrite rev_app_distr. cbn [rev].
  rewrite <- app_assoc. cbn [app].
  destruct (lstrip_app_nonspace (rev Y) c (rev P) Hc) as (U' & ->).
  exists (rev U'). rewrite rev_app_distr. cbn [rev].
  rewrite rev_involutive, <- app_assoc. reflexivity.
Qed.

(** Rule 3 keeps the domain that follows the leading underscore. *)
Lemma normalize_name_keeps_domain s :
  startswith s (lit "_OceanofPDFs.com") = true ->
  startswith (normalize_name s) (lit "OceanofPDFs.com") = true.
Proof.
  intros H. apply startswith_spec in H as [Y ->].
  unfold normalize_name, re_sub_plus.
  unfold lit. cbn [list_ascii_of_string app].
  cbn [re_sub_plus_go Ascii.eqb Bool.eqb andb].
  set (Y1 := re_sub_plus_go (Ascii.eqb "_") _ false Y).
  change (list_ascii_of_string " ") with [" "%char]. cbn [app].
  assert (re_sub_plus_go isspace [" "%char] false
            (" " :: "O" :: "c" :: "e" :: "a" :: "n" :: "o" :: "f" :: "P"
             :: "D" :: "F" :: "s" :: "." :: "c" :: "o" :: "m" :: Y1)%char
          = (" " :: "O" :: "c" :: "e" :: "a" :: "n" :: "o" :: "f" :: "P"
             :: "D" :: "F" :: "s" :: "." :: "c" :: "o" :: "m"
             :: re_sub_plus_go isspace [" "%char] false Y1)%char) as ->.
  { reflexivity. }
  set (Y2 := re_sub_plus_go isspace _ false Y1).
  unfold strip. cbn [lstrip]. change (isspace " ") with true.
  change (isspace "O") with false. cbv iota.
  destruct (rstrip_keeps (lit "OceanofPDFs.co") "m"%char Y2 eq_refl)
    as (Y' & E).
  unfold lit in E. cbn [list_ascii_of_string app] in E. rewrite E.
  reflexivity.
Qed.

(** The rules introduce no character but the space. *)
Lemma Forall_re_sub_plus_go (P : ascii -> Prop) cls repl s : forall b,
  Forall P repl -> Forall P s -> Forall P (re_sub_plus_go cls repl b s).
Proof.
  intros b Hr Hs. revert b.
  induction Hs as [|c s Hc _ IH]; intros b; cbn [re_sub_plus_go].
  - constructor.
  - destruct (cls c).
    + apply Forall_app. split; [destruct b; [constructor | exact Hr] | apply IH].
    + constructor; [exact Hc | apply IH].
Qed.

Lemma Forall_lstrip (P : ascii -> Prop) s : Forall P s -> Forall P (lstrip s).
Proof.
  induction 1 as [|c s Hc Hs IH]; cbn [lstrip]; [constructor|].
  destruct (isspace c); [exact IH | constructor; assumption].
Qed.

Lemma Forall_normalize_name (P : ascii -> Prop) s :
  P " "%char -> Forall P s -> Forall P (normalize_name s).
Proof.
  intros Hsp Hs. unfold normalize_name, strip, rstrip, re_sub_plus.
  apply Forall_rev, Forall_lstrip, Forall_rev, Forall_lstrip.
  apply Forall_re_sub_plus_go; [repeat constructor; exact Hsp|].
  apply Forall_re_sub_plus_go; [repeat constructor; exact Hsp | exact Hs].
Qed.

Lemma Forall_strip_zlib (P : ascii -> Prop) s :
  Forall P s -> Forall P (strip_zlib s).
Proof.
  intros H. unfold strip_zlib. destruct (endswith s ZLIB_SUFFIX); [|exact H].
  apply Forall_take, H.
Qed.

(** C5 (as amended).  For a stem that starts with the prefix
    [_OceanofPDFs.com_] and whose remainder has no separator [_-_],
    [compute_rename] neither splits the stem nor removes the prefix:
    rules 3 and 4 are applied to the whole stem (less the Z-Library
    suffix), so that the stem it produces begins with
    [OceanofPDFs.com], and the target goes through the collision
    resolution. *)
Theorem compute_rename_unsplit fuel p w :
  valid_name (name p) = true ->
  startswith (stem p) PREFIX = true ->
  length (split1 (lit "_-_") (drop (length PREFIX) (stem p))) <> 2 ->
  size (fs w) < fuel ->
  let kept := normalize_name (strip_zlib (stem p)) in
  startswith kept (lit "OceanofPDFs.com") = true
  /\ exists q,
       compute_rename fuel p w = (Ret (Some q), w)
       /\ unique_path fuel (mkPath (parent p) (kept ++ suffix p)) w
          = (Ret q, w).
Proof.
  intros Hv Hp Hparts Hfuel kept.
  assert (startswith kept (lit "OceanofPDFs.com") = true) as Hkept
    by (apply normalize_name_keeps_domain, strip_zlib_prefixed, Hp).
  split; [exact Hkept|].
  pose proof Hv as Hv'. apply valid_name_spec in Hv' as (Hne & Hsl & _).
  assert (no_slash (stem p) /\ no_slash (suffix p)) as [Hst Hsu].
  { rewrite <- (stem_suffix p) in Hsl. apply Forall_app in Hsl. exact Hsl. }
  apply startswith_spec in Hkept as [Y HY].
  assert (valid_name (kept ++ suffix p) = true) as Hvalid.
  { apply valid_name_spec. rewrite HY. split; [discriminate|]. split.
    - rewrite <- HY. apply Forall_app. split; [|exact Hsu].
      apply Forall_normalize_name; [discriminate|].
      apply Forall_strip_zlib, Hst.
    - discriminate. }
  destruct (unique_path_returns fuel (mkPath (parent p) (kept ++ suffix p)) w
              Hvalid Hfuel) as (q & Hq).
  exists q. split; [|exact Hq].
  unfold compute_rename. rewrite (reformat_prefixed_unsplit _ Hparts).
  fold kept. unfold bind at 1, lift, with_name.
  destruct (name p) as [|c n] eqn:En; [congruence|]. cbn [is_nil].
  rewrite Hvalid.
  rewrite bool_decide_eq_false_2.
  - unfold bind. rewrite Hq. reflexivity.
  - intros E. apply (f_equal name) in E. cbn [name] in E.
    rewrite En, HY in E. injection E as <- _.
    apply startswith_spec in Hp as [R HR].
    pose proof (stem_suffix p) as Hss. rewrite HR, En in Hss.
    discriminate Hss.
Qed.

Lemma compute_rename_unsplit_witness :
  let p := in_books "_OceanofPDFs.com_Moby_Dick.pdf" in
  let w := world_of {[ in_books "OceanofPDFs.com Moby Dick.pdf" := stored [] ]} [] in
  let kept := normalize_name (strip_zlib (stem p)) in
  startswith kept (lit "OceanofPDFs.com") = true
  /\ exists q,
       compute_rename 2 p w = (Ret (Some q), w)
       /\ unique_path 2 (mkPath (parent p) (kept ++ suffix p)) w = (Ret q, w).
Proof.
  intros p w. apply (compute_rename_unsplit 2 p w).
  - vm_compute. reflexivity.
  - vm_compute. reflexivity.
  - vm_compute. lia.
  - vm_compute. lia.
Defined.

(** C5 (as stated) fails: the stem produced is not the remainder after
    the prefix, the domain is still in it. *)
Lemma compute_rename_unsplit_counterexample :
  let p := in_books "_OceanofPDFs.com_Moby_Dick.pdf" in
  let w := world_of ∅ [] in
  startswith (stem p) PREFIX = true
  /\ split1 (lit "_-_") (drop (length PREFIX) (stem p)) = [lit "Moby_Dick"]
  /\ fst (compute_rename 1 p w)
     = Ret (Some (in_books "OceanofPDFs.com Moby Dick.pdf"))
  /\ fst (compute_rename 1 p w)
     <> Ret (Some (mkPath (parent p)
                     (normalize_name (drop (length PREFIX) (stem p))
                      ++ suffix p))).
Proof.
  intros p w.
  assert (fst (compute_rename 1 p w)
          = Ret (Some (in_books "OceanofPDFs.com Moby Dick.pdf"))) as E
    by (vm_compute; reflexivity).
  repeat split; try (vm_compute; reflexivity).
  rewrite E. vm_compute. discriminate.
Qed.

(** ** The two editions retry alike *)

Lemma rename_attempts_v2_agrees n : forall attempt retries src dst a m c w,
  rename_attempts_v2 n attempt retries src dst a m c w
  = rename_attempts n attempt retries src dst a m c w.
Proof.
  induction n as [|n IH]; intros attempt retries src dst a m c w;
    [reflexivity|].
  cbn [rename_attempts_v2 rename_attempts]. unfold try_except_OSError.
  destruct (bind (path_rename src dst) _ w) as [[r|e|] w1]; try reflexivity.
  destruct (exn_cls e); try reflexivity.
  unfold is_cloud_error.
  destruct (_ || _); cbn [andb]; [|reflexivity].
  destruct (attempt <? retries - 1)%Z; [|reflexivity].
  unfold bind, time_sleep. apply IH.
Qed.

(** X1.  The handler of [rename_if_needed] in the enhanced edition,
    with its nested tests and single [raise], behaves as the handler of
    the original: on every path, flag, budget and world the two
    functions give the same outcome and leave the same world. *)
Theorem rename_if_needed_v2_agrees fuel pdf_path dry_run retries w :
  rename_if_needed_v2 fuel pdf_path dry_run retries w
  = rename_if_needed fuel pdf_path dry_run retries w.
Proof.
  unfold rename_if_needed_v2, rename_if_needed, bind.
  destruct (compute_rename fuel pdf_path w) as [[[q|]|e|] w1]; try reflexivity.
  destruct (get_file_times pdf_path w1) as [[[[a m] c]|e|] w2];
    try reflexivity.
  destruct dry_run; [reflexivity|]. apply rename_attempts_v2_agrees.
Qed.

(** ** Substrings *)

Lemma contains_spec needle hay :
  contains needle hay = true <-> exists a b, hay = a ++ needle ++ b.
Proof.
  induction hay as [|c hay IH].
  - cbn [contains]. rewrite orb_false_r, startswith_spec. split.
    + intros [r Hr]. exists [], r. exact Hr.
    + intros (a & b & H). symmetry in H.
      apply app_eq_nil in H as [-> H]. apply app_eq_nil in H as [-> ->].
      exists []. reflexivity.
  - cbn [contains]. rewrite orb_true_iff, startswith_spec, IH. split.
    + intros [[r Hr]|(a & b & ->)].
      * exists [], r. exact Hr.
      * exists (c :: a), b. reflexivity.
    + intros (a & b & H). destruct a as [|x a].
      * left. exists b. exact H.
      * right. injection H as -> ->. eauto.
Qed.

Lemma contains_trans a b c :
  contains a b = true -> contains b c = true -> contains a c = true.
Proof.
  rewrite !contains_spec. intros (x & y & ->) (u & v & ->).
  exists (u ++ x), (y ++ v). rewrite <- !app_assoc. reflexivity.
Qed.

Lemma contains_app_l needle x y :
  contains needle x = true -> contains needle (x ++ y) = true.
Proof.
  rewrite !contains_spec. intros (a & b & ->).
  exists a, (b ++ y). rewrite <- !app_assoc. reflexivity.
Qed.

Lemma contains_app_r needle x y :
  contains needle y = true -> contains needle (x ++ y) = true.
Proof.
  rewrite !contains_spec. intros (a & b & ->).
  exists (x ++ a), b. rewrite <- !app_assoc. reflexivity.
Qed.

Lemma lower_app x y : lower (x ++ y) = lower x ++ lower y.
Proof. apply map_app. Qed.

(** ** Cloud-sync detection *)

(** X2.  Two of the eight patterns of [CLOUD_PATTERNS] never decide:
    a text that contains "icloud" contains "cloud", and one that
    contains "box sync" contains "sync".  [is_cloud_path] is the test
    for the six other patterns. *)
Theorem is_cloud_path_six_patterns path :
  is_cloud_path path
  = existsb (fun pattern => contains pattern (lower (fspath path)))
      [lit "onedrive"; lit "dropbox"; lit "google drive";
       lit "crossdevice"; lit "sync"; lit "cloud"].
Proof.
  unfold is_cloud_path, CLOUD_PATTERNS. cbn [existsb].
  set (t := lower (fspath path)).
  assert (contains (lit "icloud") t = true -> contains (lit "cloud") t = true)
    as Hi by (apply contains_trans; reflexivity).
  assert (contains (lit "box sync") t = true -> contains (lit "sync") t = true)
    as Hb by (apply contains_trans; reflexivity).
  destruct (contains (lit "icloud") t), (contains (lit "box sync") t),
    (contains (lit "sync") t), (contains (lit "cloud") t);
    try reflexivity;
    try (specialize (Hi eq_refl); discriminate);
    try (specialize (Hb eq_refl); discriminate);
    rewrite ?orb_true_r, ?orb_false_r; reflexivity.
Qed.

Lemma is_cloud_path_spec path :
  is_cloud_path path = true
  <-> exists pattern, pattern ∈ CLOUD_PATTERNS
        /\ contains pattern (lower (fspath path)) = true.
Proof.
  unfold is_cloud_path. rewrite existsb_exists.
  split; intros (x & Hx & H); exists x; split; auto;
    apply list_elem_of_In; exact Hx.
Qed.

Lemma dot_is_local pattern :
  pattern ∈ CLOUD_PATTERNS -> contains pattern (lit ".") = false.
Proof.
  unfold CLOUD_PATTERNS. rewrite !elem_of_cons, elem_of_nil.
  intros H. repeat destruct H as [->|H]; try reflexivity. destruct H.
Qed.

(** The text of a path below a directory contains the text of the
    directory, unless the directory is the current one. *)
Lemma fspath_joinpath dir file :
  fspath dir = lit "."
  \/ exists rest, fspath (joinpath dir file) = fspath dir ++ rest.
Proof.
  unfold joinpath. unfold fspath at 2. cbn [parent name].
  destruct (is_nil file).
  - right. exists []. symmetry. apply app_nil_r.
  - unfold str_eqb. destruct (bool_decide_reflect (fspath dir = lit ".")).
    + left. assumption.
    + right. destruct (endswith (fspath dir) (lit "/")); eauto.
Qed.

Lemma is_cloud_path_joinpath dir file :
  is_cloud_path dir = true -> is_cloud_path (joinpath dir file) = true.
Proof.
  rewrite !is_cloud_path_spec. intros (pat & Hin & H).
  exists pat. split; [exact Hin|].
  destruct (fspath_joinpath dir file) as [E|[rest E]].
  - rewrite E in H. change (lower (lit ".")) with (lit ".") in H.
    rewrite (dot_is_local pat Hin) in H. discriminate.
  - rewrite E, lower_app. apply contains_app_l, H.
Qed.

(** X3.  The file name counts as much as the folders: a file whose
    own name contains one of the patterns, in any letter case, is a
    cloud path wherever it lies. *)
Theorem is_cloud_path_by_name dir file pattern :
  pattern ∈ CLOUD_PATTERNS ->
  contains pattern (lower file) = true ->
  is_cloud_path (mkPath dir file) = true.
Proof.
  intros Hin H. apply is_cloud_path_spec. exists pattern.
  split; [exact Hin|]. unfold fspath. cbn [parent name].
  destruct (is_nil file) eqn:En.
  - destruct file; [|discriminate]. cbn [lower map contains] in H.
    rewrite orb_false_r in H. apply startswith_spec in H as [r Hr].
    symmetry in Hr. apply app_eq_nil in Hr as [-> _].
    exfalso. revert Hin. unfold CLOUD_PATTERNS.
    rewrite !elem_of_cons, elem_of_nil. intros Hin.
    repeat destruct Hin as [Hin|Hin]; try discriminate. destruct Hin.
  - destruct (str_eqb dir (lit ".")); [exact H|].
    destruct (endswith dir (lit "/")); rewrite !lower_app;
      repeat apply contains_app_r; exact H.
Qed.

Lemma is_cloud_path_by_name_witness :
  is_cloud_path (in_books "Cloud Atlas.pdf") = true.
Proof.
  apply (is_cloud_path_by_name books (lit "Cloud Atlas.pdf") (lit "cloud")).
  - unfold CLOUD_PATTERNS.
    do 7 apply list_elem_of_further. apply list_elem_of_here.
  - reflexivity.
Defined.

(** ** The two tests for a PDF name *)

Lemma rfind_app c s t :
  rfind c (s ++ t)
  = match rfind c t with
    | Some j => Some (length s + j)
    | None => rfind c s
    end.
Proof.
  induction s as [|a s IH]; cbn [app rfind length].
  - destruct (rfind c t); reflexivity.
  - rewrite IH. destruct (rfind c t); [reflexivity|].
    destruct (rfind c s); reflexivity.
Qed.

Lemma rfind_lt c s i : rfind c s = Some i -> i < length s.
Proof.
  revert i. induction s as [|a s IH]; intros i; cbn [rfind length].
  - discriminate.
  - destruct (rfind c s) as [j|].
    + intros [= <-]. specialize (IH j eq_refl). lia.
    + destruct (Ascii.eqb a c); [intros [= <-]; lia | discriminate].
Qed.

Lemma length_lower s : length (lower s) = length s.
Proof. apply length_map. Qed.

Lemma lower_pdf_inv e :
  lower e = lit ".pdf" -> rfind "." e = Some 0 /\ length e = 4.
Proof.
  destruct e as [|e0 [|e1 [|e2 [|e3 [|e4 e]]]]]; try discriminate.
  cbn [lower map]. intros [= H0 H1 H2 H3]. apply lower_char_dot in H0.
  subst e0. split; [|reflexivity]. cbn [rfind].
  destruct (Ascii.eqb e3 ".") eqn:E3;
    [apply Ascii.eqb_eq in E3; subst e3; discriminate|].
  destruct (Ascii.eqb e2 ".") eqn:E2;
    [apply Ascii.eqb_eq in E2; subst e2; discriminate|].
  destruct (Ascii.eqb e1 ".") eqn:E1;
    [apply Ascii.eqb_eq in E1; subst e1; discriminate|].
  reflexivity.
Qed.

(** X4.  The test on a target ([suffix.lower() == ".pdf"]) and the test
    on a file listed in a directory ([lower().endswith(".pdf")]) agree
    on every name of more than four characters; a file whose whole name
    is [.pdf], in any letter case, passes the second and fails the
    first. *)
Theorem has_pdf_suffix_iff target :
  has_pdf_suffix target
  = is_pdf_name (name target) && (4 <? length (name target)).
Proof.
  apply eq_true_iff_eq. unfold has_pdf_suffix, str_eqb, is_pdf_name.
  rewrite bool_decide_eq_true, andb_true_iff, endswith_spec, Nat.ltb_lt.
  unfold suffix. split.
  - intros H. destruct (rfind "." (name target)) as [i|] eqn:Er;
      [|discriminate].
    destruct ((0 <? i) && (i <? length (name target) - 1)) eqn:Eb;
      [|discriminate].
    apply andb_prop in Eb as [Hi _]. apply Nat.ltb_lt in Hi.
    pose proof (rfind_lt _ _ _ Er) as Hlt. split.
    + exists (lower (take i (name target))).
      rewrite <- H, <- lower_app, take_drop. reflexivity.
    + apply (f_equal length) in H. rewrite length_lower, length_drop in H.
      change (length (lit ".pdf")) with 4 in H. lia.
  - intros [[x Hx] Hlen].
    assert (length x + 4 = length (name target)) as Hl.
    { apply (f_equal length) in Hx.
      rewrite length_lower, length_app in Hx.
      change (length (lit ".pdf")) with 4 in Hx. lia. }
    assert (lower (drop (length x) (name target)) = lit ".pdf") as He.
    { unfold lower in *. rewrite <- skipn_map, Hx.
      apply drop_app_length. }
    destruct (lower_pdf_inv _ He) as [Hr _].
    rewrite <- (take_drop (length x) (name target)) at 1.
    rewrite rfind_app, Hr, length_take, Nat.min_l, Nat.add_0_r by lia.
    replace ((0 <? length x) && (length x <? length (name target) - 1))
      with true; [exact He|].
    symmetry. apply andb_true_iff. split; apply Nat.ltb_lt; lia.
Qed.

Example pdf_tests_on_bare_suffix :
  has_pdf_suffix (in_books "Novel.PDF") = true
  /\ has_pdf_suffix (in_books ".pdf") = false
  /\ is_pdf_name (lit ".pdf") = true.
Proof. repeat split; reflexivity. Qed.

(** ** Discovery *)

Lemma categorized_nil st : categorized st [] = st.
Proof.
  destruct st as [[l c] n]. unfold categorized.
  rewrite !filter_nil, !app_nil_r, Z.add_0_r. reflexivity.
Qed.

Lemma categorized_app st a b :
  categorized (categorized st a) b = categorized st (a ++ b).
Proof.
  destruct st as [[l c] n]. unfold categorized.
  rewrite !filter_app, !app_assoc, length_app, Nat2Z.inj_add, Z.add_assoc.
  reflexivity.
Qed.

Lemma add_pdf_categorized st pdf_path :
  add_pdf st pdf_path = categorized st [pdf_path].
Proof.
  destruct st as [[l c] n]. unfold add_pdf, categorized.
  rewrite !filter_cons, !filter_nil. cbn [length].
  destruct (is_cloud_path pdf_path) eqn:E.
  - rewrite decide_False by discriminate.
    rewrite decide_True by reflexivity. rewrite app_nil_r. reflexivity.
  - rewrite decide_True by reflexivity.
    rewrite decide_False by discriminate. rewrite app_nil_r. reflexivity.
Qed.

Lemma scan_files_categorized current_path files : forall st,
  scan_files current_path files st
  = categorized st (map (joinpath current_path) (filter is_pdf_name files)).
Proof.
  unfold scan_files.
  induction files as [|file files IH]; intros st; cbn [fold_left].
  - rewrite filter_nil. symmetry. apply categorized_nil.
  - rewrite IH, filter_cons. destruct (is_pdf_name file) eqn:E.
    + rewrite decide_True by exact I.
      rewrite add_pdf_categorized, categorized_app. reflexivity.
    + rewrite decide_False by exact id. reflexivity.
Qed.

Lemma scan_walk_categorized (triples : list (Path * list str * list str)) :
  forall st,
  fold_left
    (fun st '(current_path, dirs, files) => scan_files current_path files st)
    triples st
  = categorized st
      (flat_map
         (fun '(current_path, dirs, files) =>
            map (joinpath current_path) (filter is_pdf_name files))
         triples).
Proof.
  induction triples as [|[[cur dirs] files] triples IH]; intros st;
    cbn [fold_left flat_map].
  - symmetry. apply categorized_nil.
  - rewrite IH, scan_files_categorized, categorized_app. reflexivity.
Qed.

Lemma scan_target_categorized disk st target :
  scan_target disk st target
  = categorized st (collect_pdfs_streaming disk target).
Proof.
  unfold scan_target, collect_pdfs_streaming.
  destruct (is_file disk target && has_pdf_suffix target).
  - apply add_pdf_categorized.
  - destruct (is_dir disk target).
    + apply scan_walk_categorized.
    + symmetry. apply categorized_nil.
Qed.

(** The eager scan categorizes what the streaming scan yields, target
    after target. *)
Lemma collect_pdfs_all_state_spec disk targets : forall st,
  fold_left (scan_target disk) targets st
  = categorized st (flat_map (collect_pdfs_streaming disk) targets).
Proof.
  induction targets as [|target targets IH]; intros st;
    cbn [fold_left flat_map].
  - symmetry. apply categorized_nil.
  - rewrite IH, scan_target_categorized, categorized_app. reflexivity.
Qed.

(** X5.  The eager scan finds exactly the paths the streaming scan
    yields for the same targets, taken in the same order: its local
    list is the sub-list of those that are not cloud paths, its cloud
    list the sub-list of those that are, and its count is their
    number. *)
Theorem collect_pdfs_all_partitions disk targets :
  let found := flat_map (collect_pdfs_streaming disk) targets in
  collect_pdfs_all disk targets
  = (filter (fun p => is_cloud_path p = false) found,
     filter (fun p => is_cloud_path p = true) found)
  /\ collect_pdfs_all_state disk targets
     = (fst (collect_pdfs_all disk targets),
        snd (collect_pdfs_all disk targets),
        Z.of_nat (length found)).
Proof.
  intros found. unfold collect_pdfs_all, collect_pdfs_all_state.
  rewrite collect_pdfs_all_state_spec. fold found. cbn.
  split; reflexivity.
Qed.

Lemma node_nested_ind (P : node -> Prop) :
  P File ->
  (forall entries, Forall (fun e => P (snd e)) entries -> P (Folder entries)) ->
  forall n, P n.
Proof.
  intros HF HD. fix IH 1. intros [|entries]; [exact HF|].
  apply HD. induction entries as [|[nm child] entries IHe]; constructor.
  - apply IH.
  - exact IHe.
Qed.

(** The PDFs one triple of the walk contributes. *)
Lemma elem_of_walk_pdfs p (triples : list (Path * list str * list str)) :
  p ∈ flat_map
        (fun '(current_path, dirs, files) =>
           map (joinpath current_path) (filter is_pdf_name files))
        triples
  <-> exists current_path dirs files file,
        (current_path, dirs, files) ∈ triples
        /\ file ∈ files /\ is_pdf_name file = true
        /\ p = joinpath current_path file.
Proof.
  rewrite list_elem_of_In, in_flat_map. split.
  - intros ([[cur dirs] files] & Hin & Hp).
    apply in_map_iff in Hp as (file & <- & Hf).
    apply list_elem_of_In, list_elem_of_filter in Hf as [Hpdf Hf].
    exists cur, dirs, files, file. rewrite list_elem_of_In.
    repeat split; auto. apply Is_true_eq_true, Hpdf.
  - intros (cur & dirs & files & file & Hin & Hf & Hpdf & ->).
    exists (cur, dirs, files). rewrite <- list_elem_of_In.
    split; [exact Hin|]. apply in_map, list_elem_of_In, list_elem_of_filter.
    split; [rewrite Hpdf; exact I | exact Hf].
Qed.

Lemma elem_of_os_walk_files n : forall root current_path dirs files file,
  (current_path, dirs, files) ∈ os_walk root n ->
  file ∈ files -> is_pdf_name file = true ->
  lies_in root n (joinpath current_path file).
Proof.
  induction n as [|entries IH] using node_nested_ind;
    intros root cur dirs files file Hin Hf Hpdf.
  - cbn [os_walk] in Hin. apply elem_of_nil in Hin. destruct Hin.
  - cbn [os_walk] in Hin. apply elem_of_cons in Hin as [E|Hin].
    + injection E as -> -> ->.
      apply list_elem_of_fmap in Hf as ([nm child] & -> & Hf).
      apply list_elem_of_filter in Hf as [Hk Hf]. cbn [fst snd] in *.
      destruct child; [|destruct Hk]. apply LiesHere; assumption.
    + apply list_elem_of_In, in_flat_map in Hin as ([nm child] & He & Hin).
      cbn [fst snd] in Hin. destruct child as [|sub].
      { destruct Hin. }
      apply list_elem_of_In in He, Hin.
      rewrite Forall_forall in IH.
      apply (LiesBelow root entries nm sub); [exact He|].
      apply (IH _ He _ _ _ _ _ Hin Hf Hpdf).
Qed.

Lemma lies_in_os_walk root n p :
  lies_in root n p ->
  exists current_path dirs files file,
    (current_path, dirs, files) ∈ os_walk root n
    /\ file ∈ files /\ is_pdf_name file = true
    /\ p = joinpath current_path file.
Proof.
  induction 1 as [root entries file Hin Hpdf
                 |root entries dir sub p Hin _ IH].
  - eexists root, _, _, file. cbn [os_walk].
    split; [apply list_elem_of_here|]. split; [|auto].
    apply list_elem_of_fmap. exists (file, File). split; [reflexivity|].
    apply list_elem_of_filter. split; [exact I | exact Hin].
  - destruct IH as (cur & dirs & files & file & Hw & Hf & Hpdf & ->).
    exists cur, dirs, files, file. split; [|auto].
    cbn [os_walk]. apply list_elem_of_further, list_elem_of_In, in_flat_map.
    exists (dir, Folder sub). split; [apply list_elem_of_In, Hin|].
    cbn [fst snd]. apply list_elem_of_In, Hw.
Qed.

(** X6.  On a target that is a directory, the streaming scan yields
    exactly the files below it whose names end in [.pdf] in some letter
    case: every path it yields is such a file of the tree, and every
    such file of the tree, at any depth, is yielded. *)
Theorem collect_pdfs_streaming_finds disk target entries p :
  disk !! target = Some (Folder entries) ->
  p ∈ collect_pdfs_streaming disk target
  <-> lies_in target (Folder entries) p.
Proof.
  intros Hd. unfold collect_pdfs_streaming, is_file, is_dir, walk.
  rewrite Hd. cbn [andb]. rewrite elem_of_walk_pdfs. split.
  - intros (cur & dirs & files & file & Hin & Hf & Hpdf & ->).
    eapply elem_of_os_walk_files; eassumption.
  - apply lies_in_os_walk.
Qed.

Lemma collect_pdfs_streaming_finds_witness :
  let p := joinpath (joinpath onedrive (lit "sub")) (lit "B.PDF") in
  p ∈ collect_pdfs_streaming sample_disk onedrive
  <-> lies_in onedrive library p.
Proof.
  intros p.
  apply (collect_pdfs_streaming_finds sample_disk onedrive _ p). reflexivity.
Defined.

(** Below a cloud path the walk visits cloud paths only. *)
Lemma os_walk_cloud n : forall root current_path dirs files,
  is_cloud_path root = true ->
  (current_path, dirs, files) ∈ os_walk root n ->
  is_cloud_path current_path = true.
Proof.
  induction n as [|entries IH] using node_nested_ind;
    intros root cur dirs files Hc Hin.
  - cbn [os_walk] in Hin. apply elem_of_nil in Hin. destruct Hin.
  - cbn [os_walk] in Hin. apply elem_of_cons in Hin as [E|Hin].
    + injection E as -> _ _. exact Hc.
    + apply list_elem_of_In, in_flat_map in Hin as ([nm child] & He & Hin).
      cbn [fst snd] in Hin. destruct child as [|sub]; [destruct Hin|].
      apply list_elem_of_In in He, Hin. rewrite Forall_forall in IH.
      apply (IH _ He (joinpath root nm) cur dirs files);
        [apply is_cloud_path_joinpath, Hc | exact Hin].
Qed.

Lemma collect_pdfs_streaming_cloud disk target p :
  is_cloud_path target = true ->
  p ∈ collect_pdfs_streaming disk target ->
  is_cloud_path p = true.
Proof.
  intros Hc. unfold collect_pdfs_streaming.
  destruct (is_file disk target && has_pdf_suffix target).
  - intros Hp. apply list_elem_of_singleton in Hp. subst p. exact Hc.
  - destruct (is_dir disk target);
      [|intros Hp; apply elem_of_nil in Hp; destruct Hp].
    rewrite elem_of_walk_pdfs.
    intros (cur & dirs & files & file & Hin & _ & _ & ->).
    apply is_cloud_path_joinpath. unfold walk in Hin.
    destruct (disk !! target) as [n|];
      [|apply elem_of_nil in Hin; destruct Hin].
    eapply os_walk_cloud; eassumption.
Qed.

Lemma filter_all {A} (P : A -> Prop) `{forall x, Decision (P x)} (l : list A) :
  Forall P l -> filter P l = l.
Proof.
  induction 1 as [|x l Hx _ IH]; [reflexivity|].
  rewrite filter_cons, decide_True, IH by exact Hx. reflexivity.
Qed.

Lemma filter_none {A} (P : A -> Prop) `{forall x, Decision (P x)} (l : list A) :
  Forall (fun x => ~ P x) l -> filter P l = [].
Proof.
  induction 1 as [|x l Hx _ IH]; [reflexivity|].
  rewrite filter_cons, decide_False, IH by exact Hx. reflexivity.
Qed.

(** X7.  Whatever lies below a cloud path is a cloud path: when every
    target is a cloud path, the eager scan puts every PDF it finds into
    the cloud list, in the order found, and leaves the local list
    empty. *)
Theorem collect_pdfs_all_cloud_targets disk targets :
  Forall (fun target => is_cloud_path target = true) targets ->
  collect_pdfs_all disk targets
  = ([], flat_map (collect_pdfs_streaming disk) targets).
Proof.
  intros Hc. unfold collect_pdfs_all, collect_pdfs_all_state.
  rewrite collect_pdfs_all_state_spec. cbn.
  assert (Forall (fun p => is_cloud_path p = true)
            (flat_map (collect_pdfs_streaming disk) targets)) as Hall.
  { apply Forall_forall. intros p Hp.
    apply list_elem_of_In, in_flat_map in Hp as (target & Ht & Hp).
    rewrite Forall_forall in Hc.
    apply (collect_pdfs_streaming_cloud disk target);
      [apply Hc, list_elem_of_In, Ht | apply list_elem_of_In, Hp]. }
  rewrite (filter_all _ _ Hall), filter_none; [reflexivity|].
  eapply Forall_impl; [exact Hall|]. cbn. intros p ->. discriminate.
Qed.

Lemma collect_pdfs_all_cloud_targets_witness :
  collect_pdfs_all sample_disk [onedrive]
  = ([], flat_map (collect_pdfs_streaming sample_disk) [onedrive]).
Proof.
  apply (collect_pdfs_all_cloud_targets sample_disk [onedrive]).
  repeat constructor.
Defined.

(** ** Capturing and restoring times *)

Lemma file_eta f :
  mkFile (file_pdf f) (file_atime f) (file_mtime f) (file_ctime f) = f.
Proof. destruct f; reflexivity. Qed.

(** X8.  Restoring the times just captured: whatever the path holds,
    with or without [pywin32], [get_file_times] followed by
    [restore_times] returns.  On Windows every file is left as it was.
    Elsewhere the file keeps its contents and its access and
    modification times, its third time, the time of the last metadata
    change, becomes the present, and every other file is left as it
    was.  A path that holds no file gives three [None] and is not
    created. *)
Theorem capture_then_restore path w :
  exists atime mtime ctime w',
    get_file_times path w = (Ret (atime, mtime, ctime), w)
    /\ restore_times path atime mtime ctime w = (Ret tt, w')
    /\ (win32 w = true -> fs w' = fs w)
    /\ (win32 w = false -> forall f, fs w !! path = Some f ->
        fs w' = <[path := mkFile (file_pdf f) (file_atime f) (file_mtime f)
                            (clock w)]> (fs w))
    /\ (fs w !! path = None ->
        atime = None /\ mtime = None /\ ctime = None /\ fs w' = fs w).
Proof.
  destruct (fs w !! path) as [f|] eqn:Hf.
  - rewrite (get_file_times_existing _ _ _ Hf).
    eexists _, _, _, _. split; [reflexivity|].
    split; [apply (restore_times_exact _ _ _ _ _ _ Hf)|].
    cbn [fs set_fs]. split; [|split].
    + intros Hw. rewrite Hw. destruct (pywin32 w); simpl;
        rewrite file_eta; apply insert_id, Hf.
    + intros Hw g [= <-]. rewrite Hw. reflexivity.
    + discriminate.
  - exists None, None, None, w.
    unfold get_file_times, try_except, bind, path_stat. rewrite Hf.
    split; [reflexivity|]. split; [reflexivity|].
    split; [reflexivity|]. split; [discriminate|]. auto.
Qed.

(** X9.  The times restored are the times read back: after
    [restore_times] on an existing file with an access and a
    modification time, [get_file_times] reports exactly these two, and
    the contents of the file are what they were. *)
Theorem restore_then_capture path atime mtime ctime w f :
  fs w !! path = Some f ->
  exists w' f' ctime',
    restore_times path (Some atime) (Some mtime) ctime w = (Ret tt, w')
    /\ fs w' !! path = Some f'
    /\ file_pdf f' = file_pdf f
    /\ get_file_times path w'
       = (Ret (Some atime, Some mtime, Some ctime'), w').
Proof.
  intros Hf.
  destruct (restore_times_spec path atime mtime ctime w f Hf)
    as (c' & w' & E & Hfs & _ & _).
  exists w', (mkFile (file_pdf f) atime mtime c').
  assert (fs w' !! path = Some (mkFile (file_pdf f) atime mtime c')) as Hl
    by (rewrite Hfs; apply lookup_insert_eq).
  eexists. split; [exact E|]. split; [exact Hl|]. split; [reflexivity|].
  rewrite (get_file_times_existing _ _ _ Hl). reflexivity.
Qed.

Lemma restore_then_capture_witness :
  let p := in_books "novel.pdf" in
  let w := world_of {[ p := stored [plain_page] ]} [] in
  exists w' f' ctime',
    restore_times p (Some 11%Z) (Some 22%Z) (Some 33%Z) w = (Ret tt, w')
    /\ fs w' !! p = Some f'
    /\ file_pdf f' = Some [plain_page]
    /\ get_file_times p w' = (Ret (Some 11%Z, Some 22%Z, Some ctime'), w').
Proof.
  intros p w.
  apply (restore_then_capture p 11 22 (Some 33%Z) w (stored [plain_page])).
  reflexivity.
Defined.

(** ** What [process_pdf] touches *)

Lemma fs_only_refl touched w : fs_only touched w w.
Proof. intros q _. reflexivity. Qed.

Lemma fs_only_trans touched w1 w2 w3 :
  fs_only touched w1 w2 -> fs_only touched w2 w3 -> fs_only touched w1 w3.
Proof. intros H12 H23 q Hq. rewrite (H23 q Hq). exact (H12 q Hq). Qed.

Lemma frame_only {A} temp touched (c : M A) :
  temp ∈ touched -> keeps (fs_frame temp) c -> keeps (fs_only touched) c.
Proof.
  intros Hin H w o w' E q Hq. apply (H w o w' E).
  intros ->. exact (Hq Hin).
Qed.

Lemma same_fs_only {A} touched (c : M A) :
  keeps same_fs c -> keeps (fs_only touched) c.
Proof. intros H w o w' E q _. rewrite (H w o w' E). reflexivity. Qed.

Lemma keeps_try_except {A} R (body : M A) handler :
  (forall w1 w2 w3, R w1 w2 -> R w2 w3 -> R w1 w3) ->
  keeps R body -> (forall e, keeps R (handler e)) ->
  keeps R (try_except body handler).
Proof.
  intros T Hb Hh w o w'. unfold try_except.
  destruct (body w) as [[a|e|] w1] eqn:E; intros H.
  - injection H as <- <-. eapply Hb, E.
  - eapply T; [eapply Hb, E | eapply Hh, H].
  - injection H as <- <-. eapply Hb, E.
Qed.

Lemma keeps_restore_times p a m c : keeps (fs_frame p) (restore_times p a m c).
Proof.
  intros w o w' H q Hq.
  destruct a as [a|], m as [m|]; cbn [restore_times] in H;
    try (injection H as <- <-; reflexivity).
  destruct (fs w !! p) as [f|] eqn:Hf.
  - destruct (restore_times_spec p a m c w f Hf) as (c' & w2 & E & Hfs & _).
    cbn [restore_times] in E. rewrite E in H. injection H as <- <-.
    rewrite Hfs. apply lookup_insert_ne. auto.
  - unfold try_except, bind, os_utime in H. rewrite Hf in H.
    injection H as <- <-. reflexivity.
Qed.

Lemma keeps_move_entry src dst : keeps (fs_only [dst; src]) (move_entry src dst).
Proof.
  intros w o w'. unfold move_entry.
  destruct (fs w !! src) as [f|]; intros [= <- <-]; intros q Hq;
    [|reflexivity].
  cbn [fs set_fs]. rewrite !elem_of_cons, elem_of_nil in Hq.
  assert (dst <> q) as Hd by (intros ->; tauto).
  assert (src <> q) as Hs by (intros ->; tauto).
  rewrite lookup_insert_ne, lookup_delete_ne by assumption. reflexivity.
Qed.

Ltac only_step :=
  match goal with
  | |- keeps (fs_only ?t) _ =>
      first [ apply (keeps_ret (fs_only t) (fs_only_refl t))
            | apply (keeps_raise (fs_only t) (fs_only_refl t))
            | apply (keeps_bind (fs_only t) (fs_only_trans t)) ]
  end.

Lemma keeps_process_pdf_body pdf_path temp atime mtime ctime links_only dry_run :
  keeps (fs_only [pdf_path; temp])
    (process_pdf_body pdf_path temp atime mtime ctime links_only dry_run).
Proof.
  assert (temp ∈ [pdf_path; temp]) as Ht
    by apply list_elem_of_further, list_elem_of_here.
  assert (pdf_path ∈ [pdf_path; temp]) as Hp by apply list_elem_of_here.
  unfold process_pdf_body.
  only_step; [apply same_fs_only, keeps_fitz_open|]. intros doc.
  only_step; [apply same_fs_only, keeps_links_pass|]. intros [doc1 lh].
  only_step.
  { apply same_fs_only. destruct (negb links_only);
      [apply keeps_text_pass | keeps_step]. }
  intros [doc2 th]. destruct dry_run.
  { only_step; [apply same_fs_only, keeps_may_raise|]. intros _. only_step. }
  only_step.
  { destruct (_ >? _)%Z;
      [apply (frame_only temp), keeps_doc_save; exact Ht | only_step]. }
  intros _. only_step; [apply same_fs_only, keeps_may_raise|]. intros _.
  destruct (negb _).
  { only_step; [apply (frame_only temp), keeps_unlink_if_exists; exact Ht|].
    intros _. only_step. }
  only_step.
  { unfold shutil_move. only_step; [apply same_fs_only, keeps_may_raise|].
    intros _. apply keeps_move_entry. }
  intros _. only_step; [|intros _; only_step].
  apply (frame_only pdf_path), keeps_restore_times. exact Hp.
Qed.

(** In dry-run mode the [try] block writes nothing at all. *)
Lemma keeps_process_pdf_body_dry_run pdf_path temp atime mtime ctime links_only :
  keeps same_fs
    (process_pdf_body pdf_path temp atime mtime ctime links_only true).
Proof.
  unfold process_pdf_body.
  keeps_step; [apply keeps_fitz_open|]. intros doc.
  keeps_step; [apply keeps_links_pass|]. intros [doc1 lh].
  keeps_step.
  { destruct (negb links_only); [apply keeps_text_pass | keeps_step]. }
  intros [doc2 th].
  keeps_step; [apply keeps_may_raise|]. intros _. keeps_step.
Qed.

(** ** [process_pdf] always returns *)

Lemma halts_bind {A B} (c : M A) (k : A -> M B) :
  halts c -> (forall a, halts (k a)) -> halts (bind c k).
Proof.
  intros Hc Hk w w'. unfold bind.
  destruct (c w) as [[a|e|] w1] eqn:E.
  - apply Hk.
  - discriminate.
  - exfalso. exact (Hc _ _ E).
Qed.

Lemma halts_ret {A} (a : A) : halts (ret a).
Proof. intros w w'. discriminate. Qed.

Lemma halts_raise {A} e : halts (@raise A e).
Proof. intros w w'. discriminate. Qed.

Lemma halts_may_raise : halts may_raise.
Proof.
  intros w w'. unfold may_raise, bind, next_fault.
  destruct (faults w) as [|[ft|] rest]; discriminate.
Qed.

Lemma halts_fitz_open p : halts (fitz_open p).
Proof.
  unfold fitz_open. apply halts_bind; [apply halts_may_raise|].
  intros _ w w'. destruct (fs w !! p) as [f|]; [destruct (file_pdf f)|];
    discriminate.
Qed.

Lemma halts_links_pass pages : forall hits, halts (links_pass pages hits).
Proof.
  induction pages as [|pg rest IH]; intros hits; cbn [links_pass].
  - apply halts_ret.
  - apply halts_bind; [apply halts_may_raise|]. intros _.
    destruct (remove_links pg) as [pg' n].
    apply halts_bind; [apply IH|]. intros [rest' total]. apply halts_ret.
Qed.

Lemma halts_text_pass pages : forall hits, halts (text_pass pages hits).
Proof.
  induction pages as [|pg rest IH]; intros hits; cbn [text_pass].
  - apply halts_ret.
  - apply halts_bind; [apply halts_may_raise|]. intros _.
    destruct (if page_might_contain_phrase pg then _ else _) as [pg' n].
    apply halts_bind; [apply IH|]. intros [rest' total]. apply halts_ret.
Qed.

Lemma halts_doc_save d p : halts (doc_save d p).
Proof.
  intros w w'. unfold doc_save, bind, next_fault.
  destruct (faults w) as [|[ft|] rest]; discriminate.
Qed.

Lemma halts_unlink_if_exists temp : halts (unlink_if_exists temp).
Proof.
  intros w w'. destruct (unlink_if_exists_spec temp w) as (w2 & E & _).
  rewrite E. discriminate.
Qed.

Lemma halts_restore_times p a m c : halts (restore_times p a m c).
Proof.
  intros w w'. destruct (restore_times_returns p a m c w) as (w2 & E).
  rewrite E. discriminate.
Qed.

Lemma halts_shutil_move src dst : halts (shutil_move src dst).
Proof.
  unfold shutil_move. apply halts_bind; [apply halts_may_raise|].
  intros _ w w'. unfold move_entry. destruct (fs w !! src); discriminate.
Qed.

Lemma halts_process_pdf_body pdf_path temp atime mtime ctime links_only dry_run :
  halts (process_pdf_body pdf_path temp atime mtime ctime links_only dry_run).
Proof.
  unfold process_pdf_body.
  apply halts_bind; [apply halts_fitz_open|]. intros doc.
  apply halts_bind; [apply halts_links_pass|]. intros [doc1 lh].
  apply halts_bind.
  { destruct (negb links_only); [apply halts_text_pass | apply halts_ret]. }
  intros [doc2 th]. destruct dry_run.
  { apply halts_bind; [apply halts_may_raise|]. intros _. apply halts_ret. }
  apply halts_bind.
  { destruct (_ >? _)%Z; [apply halts_doc_save | apply halts_ret]. }
  intros _. apply halts_bind; [apply halts_may_raise|]. intros _.
  destruct (negb _).
  { apply halts_bind; [apply halts_unlink_if_exists|]. intros _.
    apply halts_ret. }
  apply halts_bind; [apply halts_shutil_move|]. intros _.
  apply halts_bind; [apply halts_restore_times|]. intros _. apply halts_ret.
Qed.

(** [process_pdf] unfolded at a path whose temporary path is [temp]. *)
Lemma process_pdf_unfold pdf_path links_only dry_run temp w :
  with_suffix pdf_path (suffix pdf_path ++ lit ".tmp") = Ret temp ->
  exists atime mtime ctime,
    get_file_times pdf_path w = (Ret (atime, mtime, ctime), w)
    /\ process_pdf pdf_path links_only dry_run w
       = try_except
           (process_pdf_body pdf_path temp atime mtime ctime links_only dry_run)
           (fun e =>
              let* _ := unlink_if_exists temp in
              ret (false, (-1)%Z, (-1)%Z, Some (exn_msg e))) w.
Proof.
  intros Ht. destruct (get_file_times_total pdf_path w) as ([[a m] c] & E).
  exists a, m, c. split; [exact E|].
  unfold process_pdf, lift, bind at 1. rewrite Ht.
  unfold bind at 1. rewrite E. reflexivity.
Qed.

(** The outcomes of [process_pdf]: the tuple of the [try] block, or the
    failure tuple once the handler has removed the temporary file. *)
Lemma process_pdf_cases pdf_path links_only dry_run temp w :
  with_suffix pdf_path (suffix pdf_path ++ lit ".tmp") = Ret temp ->
  exists atime mtime ctime,
    get_file_times pdf_path w = (Ret (atime, mtime, ctime), w)
    /\ ((exists r w',
           process_pdf_body pdf_path temp atime mtime ctime links_only dry_run w
           = (Ret r, w')
           /\ process_pdf pdf_path links_only dry_run w = (Ret r, w'))
        \/ (exists e w1 w',
              process_pdf_body pdf_path temp atime mtime ctime links_only
                dry_run w = (Raise e, w1)
              /\ unlink_if_exists temp w1 = (Ret tt, w')
              /\ fs w' !! temp = None /\ fs_frame temp w1 w'
              /\ process_pdf pdf_path links_only dry_run w
                 = (Ret (false, (-1)%Z, (-1)%Z, Some (exn_msg e)), w'))).
Proof.
  intros Ht.
  destruct (process_pdf_unfold pdf_path links_only dry_run temp w Ht)
    as (a & m & c & Eg & Ep).
  exists a, m, c. split; [exact Eg|]. rewrite Ep. unfold try_except.
  destruct (process_pdf_body pdf_path temp a m c links_only dry_run w)
    as [[r|e|] w1] eqn:Eb.
  - left. eauto.
  - right. destruct (unlink_if_exists_spec temp w1) as (w' & Eu & Hn & Hf).
    exists e, w1, w'. unfold bind. rewrite Eu. auto 10.
  - exfalso. exact (halts_process_pdf_body _ _ _ _ _ _ _ _ _ Eb).
Qed.

Lemma shutil_move_Ret src dst w w' :
  shutil_move src dst w = (Ret tt, w') ->
  exists f, fs w !! src = Some f /\ fs w' = <[dst := f]> (delete src (fs w)).
Proof.
  intros H. apply bind_inv_Ret in H as (u & w1 & H1 & H2).
  apply keeps_may_raise in H1. unfold same_fs in H1.
  unfold move_entry in H2. rewrite H1 in H2.
  destruct (fs w !! src) as [f|]; [|discriminate].
  injection H2 as E. subst w'. exists f. cbn [fs set_fs]. auto.
Qed.

(** Outside dry-run mode the [try] block leaves no file at the
    temporary path when it returns. *)
Lemma process_pdf_body_no_temp pdf_path temp atime mtime ctime links_only w r w' :
  temp <> pdf_path ->
  process_pdf_body pdf_path temp atime mtime ctime links_only false w
  = (Ret r, w') ->
  fs w' !! temp = None.
Proof.
  intros Hne H. unfold process_pdf_body in H.
  apply bind_inv_Ret in H as (doc & w1 & _ & H).
  apply bind_inv_Ret in H as ([doc1 lh] & w2 & _ & H).
  apply bind_inv_Ret in H as ([doc2 th] & w3 & _ & H). cbv iota in H.
  apply bind_inv_Ret in H as (_ & w4 & _ & H).
  apply bind_inv_Ret in H as (_ & w5 & _ & H).
  destruct (negb _).
  - apply bind_inv_Ret in H as ([] & w6 & Hu & H). injection H as _ <-.
    destruct (unlink_if_exists_spec temp w5) as (w7 & E & Hn & _).
    rewrite E in Hu. injection Hu as <-. exact Hn.
  - apply bind_inv_Ret in H as ([] & w6 & Hm & H).
    apply bind_inv_Ret in H as (u & w7 & Hr & H). injection H as _ <-.
    apply shutil_move_Ret in Hm as (f & _ & Hfs).
    rewrite (keeps_restore_times _ _ _ _ _ _ _ Hr temp Hne), Hfs.
    rewrite lookup_insert_ne by auto. apply lookup_delete_eq.
Qed.

Lemma process_pdf_returns pdf_path links_only dry_run temp w :
  with_suffix pdf_path (suffix pdf_path ++ lit ".tmp") = Ret temp ->
  exists r w', process_pdf pdf_path links_only dry_run w = (Ret r, w').
Proof.
  intros Ht.
  destruct (process_pdf_cases pdf_path links_only dry_run temp w Ht)
    as (a & m & c & _ & [(r & w' & _ & Ep)|(e & w1 & w' & _ & _ & _ & _ & Ep)]);
    eauto.
Qed.

(** X10.  [process_pdf] always returns a tuple, and whatever it
    returns: no file other than the PDF and its temporary file has
    changed; outside dry-run mode no file is left at the temporary
    path; in dry-run mode the PDF itself is what it was, bytes and
    times. *)
Theorem process_pdf_touches_only_its_file pdf_path links_only dry_run temp w :
  with_suffix pdf_path (suffix pdf_path ++ lit ".tmp") = Ret temp ->
  exists r w',
    process_pdf pdf_path links_only dry_run w = (Ret r, w')
    /\ (forall q, q <> pdf_path -> q <> temp -> fs w' !! q = fs w !! q)
    /\ (dry_run = false -> fs w' !! temp = None)
    /\ (dry_run = true -> fs w' !! pdf_path = fs w !! pdf_path).
Proof.
  intros Ht. pose proof (with_suffix_tmp_fresh _ _ Ht) as Hne.
  destruct (process_pdf_cases pdf_path links_only dry_run temp w Ht)
    as (a & m & c & _ & [(r & w' & Eb & Ep)|(e & w1 & w' & Eb & _ & Hn & Hf & Ep)]).
  - exists r, w'. split; [exact Ep|]. split; [|split].
    + intros q Hq1 Hq2. apply (keeps_process_pdf_body _ _ _ _ _ _ _ _ _ _ Eb).
      rewrite !elem_of_cons, elem_of_nil. tauto.
    + intros ->. eapply process_pdf_body_no_temp; eassumption.
    + intros ->. apply keeps_process_pdf_body_dry_run in Eb.
      rewrite Eb. reflexivity.
  - eexists _, w'. split; [exact Ep|].
    pose proof (process_pdf_body_Raise _ _ _ _ _ _ _ _ _ _ Eb) as Hb.
    pose proof (fs_frame_trans _ _ _ _ Hb Hf) as Hall.
    split; [|split].
    + intros q _ Hq. apply Hall, Hq.
    + intros _. exact Hn.
    + intros _. apply Hall. auto.
Qed.

Lemma process_pdf_touches_only_its_file_witness :
  let p := in_books "novel.pdf" in
  let w := world_of {[ p := stored [spaced_page];
                       in_books "other.pdf" := stored [plain_page] ]} [] in
  exists r w',
    process_pdf p false false w = (Ret r, w')
    /\ (forall q, q <> p -> q <> in_books "novel.pdf.tmp" ->
          fs w' !! q = fs w !! q)
    /\ (false = false -> fs w' !! in_books "novel.pdf.tmp" = None)
    /\ (false = true -> fs w' !! p = fs w !! p).
Proof.
  intros p w.
  apply (process_pdf_touches_only_its_file p false false
           (in_books "novel.pdf.tmp") w).
  reflexivity.
Defined.

(** ** A run of [process_pdf] without failure *)

Lemma bind_Ret {A B} (c : M A) (k : A -> M B) w a w1 :
  c w = (Ret a, w1) -> bind c k w = k a w1.
Proof. intros H. unfold bind. rewrite H. reflexivity. Qed.

Lemma fitz_open_no_faults p w f doc :
  faults w = [] -> fs w !! p = Some f -> file_pdf f = Some doc ->
  fitz_open p w = (Ret doc, w).
Proof.
  intros Hw Hf Hd. unfold fitz_open, bind.
  rewrite (may_raise_no_faults w Hw), Hf, Hd. reflexivity.
Qed.

Lemma links_pass_never_removes pages : forall hits w o w',
  links_pass pages hits w = (o, w') ->
  forall d total, o = Ret (d, total) -> d = pages /\ total = hits.
Proof.
  induction pages as [|pg rest IH]; intros hits w o w' H d total ->;
    cbn [links_pass] in H.
  - injection H as <- <- _. auto.
  - apply bind_inv_Ret in H as (u & w1 & _ & H).
    rewrite remove_links_never_removes in H.
    apply bind_inv_Ret in H as ([rest' t] & w2 & H1 & H).
    injection H as <- <- _.
    destruct (IH _ _ _ _ H1 rest' t eq_refl) as [-> ->].
    split; [reflexivity | lia].
Qed.

(** The run of [process_pdf] when nothing fails and the text pass
    redacts something. *)
Lemma process_pdf_cleaning_run pdf_path temp f doc doc' text_hits w :
  faults w = [] ->
  fs w !! pdf_path = Some f ->
  file_pdf f = Some doc ->
  with_suffix pdf_path (suffix pdf_path ++ lit ".tmp") = Ret temp ->
  text_pass doc 0%Z w = (Ret (doc', text_hits), w) ->
  (0 < text_hits)%Z ->
  exists w' ctime',
    process_pdf pdf_path false false w
    = (Ret (true, text_hits, 0%Z, None), w')
    /\ fs w'
       = <[pdf_path := mkFile (Some doc') (file_atime f) (file_mtime f) ctime']>
           (delete temp (fs w))
    /\ faults w' = [].
Proof.
  intros Hw Hf Hd Ht Htext Hpos.
  pose proof (with_suffix_tmp_fresh _ _ Ht) as Hne.
  destruct (process_pdf_unfold pdf_path false false temp w Ht)
    as (a & m & c & Eg & Ep).
  rewrite (get_file_times_existing _ _ _ Hf) in Eg. injection Eg as <- <- <-.
  rewrite Ep. clear Ep. unfold try_except, process_pdf_body.
  rewrite (bind_Ret _ _ _ _ _ (fitz_open_no_faults _ _ _ _ Hw Hf Hd)).
  destruct (links_pass_no_faults w doc 0%Z Hw) as (lh & El & _).
  destruct (links_pass_never_removes _ _ _ _ _ El _ _ eq_refl) as [Ed ->].
  rewrite Ed in El. rewrite (bind_Ret _ _ _ _ _ El). cbn [negb].
  rewrite (bind_Ret _ _ _ _ _ Htext).
  replace (text_hits + 0 >? 0)%Z with true
    by (symmetry; apply Z.gtb_lt; lia).
  cbn [negb].
  set (ftemp := mkFile (Some doc') (clock w) (clock w) (clock w)).
  set (w4 := set_fs w (<[temp := ftemp]> (fs w))).
  assert (doc_save doc' temp w = (Ret tt, w4)) as Es.
  { unfold doc_save, bind, next_fault. rewrite Hw. reflexivity. }
  rewrite (bind_Ret _ _ _ _ _ Es).
  assert (faults w4 = []) as Hw4 by exact Hw.
  rewrite (bind_Ret _ _ _ _ _ (may_raise_no_faults w4 Hw4)).
  set (w5 := set_fs w4 (<[pdf_path := ftemp]> (delete temp (fs w4)))).
  assert (shutil_move temp pdf_path w4 = (Ret tt, w5)) as Em.
  { unfold shutil_move.
    rewrite (bind_Ret _ _ _ _ _ (may_raise_no_faults w4 Hw4)).
    unfold move_entry.
    replace (fs w4 !! temp) with (Some ftemp)
      by (symmetry; apply lookup_insert_eq).
    reflexivity. }
  rewrite (bind_Ret _ _ _ _ _ Em).
  assert (fs w5 !! pdf_path = Some ftemp) as Hl5 by apply lookup_insert_eq.
  destruct (restore_times_spec pdf_path (file_atime f) (file_mtime f)
              (Some (if win32 w then file_ctime f else file_mtime f))
              w5 ftemp Hl5) as (c' & w' & Er & Hfs & Hfl & _).
  rewrite (bind_Ret _ _ _ _ _ Er). exists w', c'. split; [reflexivity|].
  split; [|rewrite Hfl; exact Hw].
  rewrite Hfs. subst w5 w4. cbn [fs set_fs file_pdf ftemp].
  rewrite insert_insert_eq, delete_insert_eq. reflexivity.
Qed.

(** ** The link pass changes nothing *)

(** X11.  With [links_only] set, [process_pdf] is without effect on the
    PDF: the test of [remove_links] never holds, so that it returns
    [(False, 0, 0, None)] when nothing fails and the failure tuple
    otherwise, and in both cases the file is what it was, bytes and
    times; the same holds in dry-run mode but for the flag, which is
    [True]. *)
Theorem process_pdf_links_only_changes_nothing pdf_path dry_run temp w :
  with_suffix pdf_path (suffix pdf_path ++ lit ".tmp") = Ret temp ->
  exists r w',
    process_pdf pdf_path true dry_run w = (Ret r, w')
    /\ (r = (dry_run, 0%Z, 0%Z, None)
        \/ exists err, r = (false, (-1)%Z, (-1)%Z, Some err))
    /\ forall q, q <> temp -> fs w' !! q = fs w !! q.
Proof.
  intros Ht.
  destruct (process_pdf_cases pdf_path true dry_run temp w Ht)
    as (a & m & c & _ & [(r & w' & Eb & Ep)|(e & w1 & w' & Eb & _ & Hn & Hf & Ep)]).
  - exists r, w'. split; [exact Ep|].
    unfold process_pdf_body in Eb.
    apply bind_inv_Ret in Eb as (doc & w1 & H1 & H).
    apply bind_inv_Ret in H as ([doc1 lh] & w2 & H2 & H).
    destruct (links_pass_never_removes _ _ _ _ _ H2 _ _ eq_refl) as [-> ->].
    cbn [negb] in H.
    apply bind_inv_Ret in H as ([doc2 th] & w3 & H3 & H).
    injection H3 as <- <- <-.
    apply keeps_fitz_open in H1. apply keeps_links_pass in H2.
    unfold same_fs in H1, H2.
    destruct dry_run.
    + apply bind_inv_Ret in H as (u & w4 & H4 & H). injection H as <- <-.
      apply keeps_may_raise in H4. unfold same_fs in H4.
      split; [left; reflexivity|]. intros q _. congruence.
    + change (0 + 0 >? 0)%Z with false in H. cbn [negb] in H.
      apply bind_inv_Ret in H as (u & w4 & H4 & H). injection H4 as <-.
      apply bind_inv_Ret in H as (u' & w5 & H5 & H).
      apply bind_inv_Ret in H as (u'' & w6 & H6 & H). injection H as <- <-.
      apply keeps_may_raise in H5. unfold same_fs in H5.
      apply keeps_unlink_if_exists in H6.
      split; [left; reflexivity|]. intros q Hq.
      rewrite (H6 q Hq). congruence.
  - eexists _, w'. split; [exact Ep|]. split; [right; eauto|].
    pose proof (process_pdf_body_Raise _ _ _ _ _ _ _ _ _ _ Eb) as Hb.
    exact (fs_frame_trans _ _ _ _ Hb Hf).
Qed.

Lemma process_pdf_links_only_changes_nothing_witness :
  let p := in_books "novel.pdf" in
  let w := world_of {[ p := stored [watermarked_page] ]} [] in
  exists r w',
    process_pdf p true false w = (Ret r, w')
    /\ (r = (false, 0%Z, 0%Z, None)
        \/ exists err, r = (false, (-1)%Z, (-1)%Z, Some err))
    /\ forall q, q <> in_books "novel.pdf.tmp" -> fs w' !! q = fs w !! q.
Proof.
  intros p w.
  apply (process_pdf_links_only_changes_nothing p false
           (in_books "novel.pdf.tmp") w).
  reflexivity.
Defined.

(** ** Stripping *)

Lemma lstrip_head s :
  lstrip s = [] \/ exists c t, lstrip s = c :: t /\ isspace c = false.
Proof.
  induction s as [|c s IH]; [left; reflexivity|].
  cbn [lstrip]. destruct (isspace c) eqn:E; [exact IH|].
  right. exists c, s. auto.
Qed.

Lemma lstrip_suffix s : exists W, s = W ++ lstrip s.
Proof.
  induction s as [|c s [W IH]]; [exists []; reflexivity|].
  cbn [lstrip]. destruct (isspace c).
  - exists (c :: W). cbn [app]. rewrite <- IH. reflexivity.
  - exists []. reflexivity.
Qed.

Lemma rstrip_prefix s : exists W, s = rstrip s ++ W.
Proof.
  unfold rstrip. destruct (lstrip_suffix (rev s)) as [W E].
  exists (rev W). rewrite <- rev_app_distr, <- E, rev_involutive.
  reflexivity.
Qed.

Lemma ends_with_space_rstrip s : ends_with_space (rstrip s) = false.
Proof.
  unfold rstrip, ends_with_space.
  destruct (lstrip_head (rev s)) as [->|(c & t & -> & Hc)]; [reflexivity|].
  cbn [rev]. rewrite last_snoc. exact Hc.
Qed.

Lemma rstrip_head c t :
  isspace c = false -> exists t', rstrip (c :: t) = c :: t'.
Proof. intros Hc. apply (rstrip_keeps [] c t Hc). Qed.

Lemma strip_head s :
  strip s = [] \/ exists c t, strip s = c :: t /\ isspace c = false.
Proof.
  unfold strip. destruct (lstrip_head s) as [->|(c & t & -> & Hc)].
  - left. reflexivity.
  - right. destruct (rstrip_head c t Hc) as [t' ->]. exists c, t'. auto.
Qed.

Lemma ends_with_space_strip s : ends_with_space (strip s) = false.
Proof. apply ends_with_space_rstrip. Qed.

Lemma strip_fixed s :
  (s = [] \/ exists c t, s = c :: t /\ isspace c = false) ->
  ends_with_space s = false ->
  strip s = s.
Proof.
  intros [->|H] He; [reflexivity|]. apply strip_id; assumption.
Qed.

Lemma strip_idempotent s : strip (strip s) = strip s.
Proof.
  apply strip_fixed; [apply strip_head | apply ends_with_space_strip].
Qed.

Lemma Forall_strip (P : ascii -> Prop) s : Forall P s -> Forall P (strip s).
Proof.
  intros H. unfold strip, rstrip.
  apply Forall_rev, Forall_lstrip, Forall_rev, Forall_lstrip, H.
Qed.

Lemma length_lstrip s : length (lstrip s) <= length s.
Proof.
  destruct (lstrip_suffix s) as [W E]. rewrite E at 2.
  rewrite length_app. lia.
Qed.

Lemma length_strip s : length (strip s) <= length s.
Proof.
  unfold strip. destruct (rstrip_prefix (lstrip s)) as [W E].
  pose proof (length_lstrip s) as H. rewrite E, length_app in H. lia.
Qed.

(** ** [sanitize] *)

Lemma Forall_re_sub_class_nil cls s :
  Forall (fun c => cls c = false) (re_sub_class cls [] s).
Proof.
  unfold re_sub_class. induction s as [|c s IH]; cbn [flat_map].
  - constructor.
  - destruct (cls c) eqn:E; [exact IH|]. constructor; assumption.
Qed.

Lemma length_re_sub_class_nil cls s :
  length (re_sub_class cls [] s) <= length s.
Proof.
  unfold re_sub_class. induction s as [|c s IH]; cbn [flat_map length];
    [lia|].
  destruct (cls c); cbn [app length]; lia.
Qed.

(** X12.  What [sanitize] returns holds none of the nine characters of
    its class (backslash, slash, colon, star, question mark, double
    quote, angle brackets, bar), neither starts nor ends with
    whitespace, and is no longer than the text given; sanitizing it
    again changes nothing. *)
Theorem sanitize_is_clean_and_idempotent s :
  Forall (fun c => illegal_char c = false) (sanitize s)
  /\ strip (sanitize s) = sanitize s
  /\ length (sanitize s) <= length s
  /\ sanitize (sanitize s) = sanitize s.
Proof.
  assert (Forall (fun c => illegal_char c = false) (sanitize s)) as Hc.
  { unfold sanitize. apply Forall_strip, Forall_re_sub_class_nil. }
  split; [exact Hc|]. split; [apply strip_idempotent|]. split.
  - unfold sanitize.
    pose proof (length_strip (re_sub_class illegal_char [] s)).
    pose proof (length_re_sub_class_nil illegal_char s). lia.
  - unfold sanitize at 1. rewrite (re_sub_class_id _ _ Hc).
    apply strip_idempotent.
Qed.

(** ** Rule 3 *)

Lemma single_spaced_go s : forall b,
  single_spaced b (re_sub_plus_go isspace (lit " ") b s) = true.
Proof.
  induction s as [|c s IH]; intros b; [reflexivity|].
  cbn [re_sub_plus_go]. destruct (isspace c) eqn:E.
  - destruct b; cbn [app].
    + apply IH.
    + change (lit " ") with [" "%char]. cbn [app single_spaced].
      change (isspace " ") with true. cbv iota.
      rewrite Ascii.eqb_refl. cbn [negb andb]. apply IH.
  - cbn [single_spaced]. rewrite E. apply IH.
Qed.

Lemma single_spaced_prefix s1 s2 b :
  single_spaced b (s1 ++ s2) = true -> single_spaced b s1 = true.
Proof. rewrite single_spaced_app. intros H. apply andb_prop in H. tauto. Qed.

Lemma single_spaced_lstrip s :
  single_spaced false s = true -> single_spaced true (lstrip s) = true.
Proof.
  destruct s as [|c s]; [reflexivity|]. cbn [single_spaced lstrip].
  destruct (isspace c) eqn:E.
  - intros H. apply andb_prop in H as [_ H].
    destruct s as [|d s]; [reflexivity|]. cbn [single_spaced lstrip] in *.
    destruct (isspace d) eqn:Ed.
    + rewrite andb_false_r in H. discriminate.
    + cbn [single_spaced]. rewrite Ed. exact H.
  - intros H. cbn [single_spaced]. rewrite E. exact H.
Qed.

Lemma single_spaced_strip s :
  single_spaced false s = true -> single_spaced true (strip s) = true.
Proof.
  intros H. apply single_spaced_lstrip in H. unfold strip.
  destruct (rstrip_prefix (lstrip s)) as [W E]. rewrite E in H.
  apply single_spaced_prefix in H. exact H.
Qed.

Lemma no_underscore_go s : forall b,
  Forall (fun c => Ascii.eqb "_" c = false)
    (re_sub_plus_go (Ascii.eqb "_") (lit " ") b s).
Proof.
  induction s as [|c s IH]; intros b; cbn [re_sub_plus_go]; [constructor|].
  destruct (Ascii.eqb "_" c) eqn:E.
  - apply Forall_app. split; [|apply IH].
    destruct b; repeat constructor.
  - constructor; [exact E | apply IH].
Qed.

Lemma tidy_spec s :
  tidy s = true
  <-> Forall (fun c => Ascii.eqb "_" c = false) s
      /\ single_spaced true s = true
      /\ ends_with_space s = false.
Proof.
  unfold tidy. rewrite !andb_true_iff, negb_true_iff, forallb_forall,
    Forall_forall.
  split.
  - intros [[H1 H2] H3]. repeat split; auto.
    intros c Hc. apply negb_true_iff, H1, list_elem_of_In, Hc.
  - intros (H1 & H2 & H3). repeat split; auto.
    intros c Hc. apply negb_true_iff, H1, list_elem_of_In, Hc.
Qed.

Lemma normalize_name_tidy s : tidy (normalize_name s) = true.
Proof.
  apply tidy_spec. unfold normalize_name, re_sub_plus. split; [|split].
  - apply Forall_strip, Forall_re_sub_plus_go; [repeat constructor|].
    apply no_underscore_go.
  - apply single_spaced_strip, single_spaced_go.
  - apply ends_with_space_strip.
Qed.

Lemma normalize_name_fixed s : tidy s = true -> normalize_name s = s.
Proof.
  intros H. apply tidy_spec in H as (Hus & Hsp & He).
  unfold normalize_name, re_sub_plus.
  rewrite (re_sub_plus_go_id (Ascii.eqb "_")) by exact Hus.
  rewrite single_spaced_sub by apply single_spaced_weaken, Hsp.
  apply strip_fixed; [|exact He].
  destruct s as [|c t]; [left; reflexivity|]. right.
  apply single_spaced_head; [exact Hsp | discriminate].
Qed.

(** X13.  Rule 3 of [compute_rename] ([_+] to a space, [\s+] to a
    space, [strip]) yields a text without underscore in which
    whitespace occurs only as single spaces between other characters,
    and leaves every such text as it is: applying the rule twice is
    applying it once. *)
Theorem normalize_name_idempotent s :
  tidy (normalize_name s) = true
  /\ (tidy s = true -> normalize_name s = s)
  /\ normalize_name (normalize_name s) = normalize_name s.
Proof.
  split; [apply normalize_name_tidy|]. split; [apply normalize_name_fixed|].
  apply normalize_name_fixed, normalize_name_tidy.
Qed.

Lemma normalize_name_idempotent_witness :
  normalize_name (lit "Moby Dick") = lit "Moby Dick".
Proof.
  apply (proj1 (proj2 (normalize_name_idempotent (lit "Moby Dick")))).
  reflexivity.
Defined.

(** ** [compute_rename] only computes *)

Lemma with_name_Ret p n q :
  with_name p n = Ret q -> q = mkPath (parent p) n /\ valid_name n = true.
Proof.
  unfold with_name. destruct (is_nil (name p)); [discriminate|].
  destruct (valid_name n); [|discriminate]. intros [= <-]. auto.
Qed.

Lemma unique_path_loop_inv fuel : forall p i w o w',
  unique_path_loop fuel p i w = (o, w') ->
  w' = w
  /\ forall q, o = Ret q ->
       parent q = parent p /\ valid_name (name q) = true
       /\ exists j : nat, name q
                    = (stem p ++ lit " (" ++ lit (pretty j) ++ lit ")")
                      ++ suffix p.
Proof.
  induction fuel as [|fuel IH]; intros p i w o w' H;
    cbn [unique_path_loop] in H.
  - injection H as <- <-. split; [reflexivity | discriminate].
  - unfold bind at 1, lift in H.
    destruct (with_stem p _) as [cand|e|] eqn:Ec.
    + unfold bind at 1 in H. rewrite path_exists_spec in H.
      destruct (negb _).
      * injection H as <- <-. split; [reflexivity|]. intros q [= <-].
        apply with_name_Ret in Ec as [-> Hv]. cbn [parent name].
        repeat split; eauto.
      * apply IH in H. exact H.
    + injection H as <- <-. split; [reflexivity | discriminate].
    + injection H as <- <-. split; [reflexivity | discriminate].
Qed.

Lemma unique_path_inv fuel p w o w' :
  unique_path fuel p w = (o, w') ->
  w' = w
  /\ forall q, o = Ret q ->
       q = p
       \/ (parent q = parent p /\ valid_name (name q) = true
           /\ exists j : nat, name q
                        = (stem p ++ lit " (" ++ lit (pretty j) ++ lit ")")
                          ++ suffix p).
Proof.
  unfold unique_path, bind. rewrite path_exists_spec.
  destruct (negb _).
  - intros [= <- <-]. split; [reflexivity|]. intros q [= <-]. auto.
  - intros H. apply unique_path_loop_inv in H as [-> H].
    split; [reflexivity|]. intros q Hq. right. apply H, Hq.
Qed.

(** The name rules 1 to 3 give to a stem. *)
Lemma compute_rename_unfold fuel p w :
  let new_name :=
    normalize_name (reformat_prefixed (strip_zlib (stem p))) ++ suffix p in
  compute_rename fuel p w
  = match with_name p new_name with
    | Ret new_path =>
        if bool_decide (new_path = p) then (Ret None, w)
        else (let* q := unique_path fuel new_path in ret (Some q)) w
    | Raise e => (Raise e, w)
    | Diverge => (Diverge, w)
    end.
Proof.
  cbv zeta. unfold compute_rename, bind at 1, lift.
  destruct (with_name p _) as [np|e|]; try reflexivity.
  destruct (bool_decide (np = p)); reflexivity.
Qed.

Lemma compute_rename_same_world fuel pdf_path w o w' :
  compute_rename fuel pdf_path w = (o, w') -> w' = w.
Proof.
  rewrite compute_rename_unfold.
  destruct (with_name pdf_path _) as [np|e|] eqn:En.
  - destruct (bool_decide _).
    + intros [= <- <-]. reflexivity.
    + unfold bind. destruct (unique_path fuel _ w) as [[q|e|] w1] eqn:Eu;
        intros [= <- <-]; apply unique_path_inv in Eu as [-> _];
        reflexivity.
  - intros [= <- <-]. reflexivity.
  - intros [= <- <-]. reflexivity.
Qed.

(** X14.  [compute_rename] only computes: whatever it returns or
    raises, the world is what it was.  A path it proposes lies in the
    directory of the file and does not exist. *)
Theorem compute_rename_only_computes fuel pdf_path w o w' :
  compute_rename fuel pdf_path w = (o, w') ->
  w' = w
  /\ forall q, o = Ret (Some q) ->
       parent q = parent pdf_path /\ fs w !! q = None.
Proof.
  intros H. pose proof (compute_rename_same_world _ _ _ _ _ H) as ->.
  split; [reflexivity|]. intros q ->.
  rewrite compute_rename_unfold in H.
  destruct (with_name pdf_path _) as [np|e|] eqn:En; try discriminate.
  apply with_name_Ret in En as [-> _].
  destruct (bool_decide _); [discriminate|].
  apply bind_inv_Ret in H as (q' & w1 & Eu & H). injection H as ->.
  pose proof (unique_path_inv _ _ _ _ _ Eu) as [_ Hq]. split.
  - destruct (Hq q eq_refl) as [->|(Hp & _)]; [reflexivity | exact Hp].
  - eapply unique_path_fresh, Eu.
Qed.

Lemma compute_rename_only_computes_witness :
  let p := in_books "Book___Title__Name.pdf" in
  let w := world_of {[ p := stored [plain_page] ]} [] in
  w = w
  /\ forall q, Ret (Some (in_books "Book Title Name.pdf")) = Ret (Some q) ->
       parent q = parent p /\ fs w !! q = None.
Proof.
  intros p w.
  apply (compute_rename_only_computes 1 p w
           (Ret (Some (in_books "Book Title Name.pdf"))) w).
  vm_compute. reflexivity.
Defined.

(** ** Names that are left alone *)

Lemma tidy_no_underscore s :
  tidy s = true -> Forall (fun c => Ascii.eqb "_" c = false) s.
Proof. intros H. apply tidy_spec in H. tauto. Qed.

Lemma no_underscore_not_zlib s :
  Forall (fun c => Ascii.eqb "_" c = false) s -> strip_zlib s = s.
Proof.
  intros H. unfold strip_zlib.
  destruct (endswith s ZLIB_SUFFIX) eqn:E; [|reflexivity].
  apply endswith_spec in E as [x ->]. apply Forall_app in H as [_ H].
  inversion H as [|? ? Hc _]. discriminate Hc.
Qed.

Lemma no_underscore_not_prefixed s :
  Forall (fun c => Ascii.eqb "_" c = false) s -> reformat_prefixed s = s.
Proof.
  intros H. unfold reformat_prefixed.
  destruct (startswith s PREFIX) eqn:E; [|reflexivity].
  apply startswith_spec in E as [r ->]. inversion H as [|? ? Hc _].
  discriminate Hc.
Qed.

Lemma tidy_rules s :
  tidy s = true -> normalize_name (reformat_prefixed (strip_zlib s)) = s.
Proof.
  intros H. pose proof (tidy_no_underscore s H) as Hu.
  rewrite (no_underscore_not_zlib s Hu), (no_underscore_not_prefixed s Hu).
  apply normalize_name_fixed, H.
Qed.

Lemma compute_rename_tidy fuel p w :
  valid_name (name p) = true -> tidy (stem p) = true ->
  compute_rename fuel p w = (Ret None, w).
Proof.
  intros Hv Ht. rewrite compute_rename_unfold, (tidy_rules _ Ht), stem_suffix.
  unfold with_name. rewrite Hv.
  apply valid_name_spec in Hv as (Hne & _).
  destruct (name p) eqn:En; [congruence|]. cbn [is_nil].
  rewrite <- En. destruct p as [d n]. cbn [parent name].
  rewrite bool_decide_eq_true_2 by reflexivity. reflexivity.
Qed.

(** X15.  [compute_rename] returns [None] exactly for the files whose
    stem rule 3 would leave as it is: for a path with a final
    component, the answer is [None] if and only if the stem has no
    underscore and has whitespace only as single spaces between other
    characters. *)
Theorem compute_rename_None_iff_tidy fuel pdf_path w :
  valid_name (name pdf_path) = true ->
  compute_rename fuel pdf_path w = (Ret None, w)
  <-> tidy (stem pdf_path) = true.
Proof.
  intros Hv. split; [|apply compute_rename_tidy, Hv].
  rewrite compute_rename_unfold.
  destruct (with_name pdf_path _) as [np|e|] eqn:En; try discriminate.
  apply with_name_Ret in En as [-> _].
  destruct (bool_decide_reflect
              (mkPath (parent pdf_path)
                 (normalize_name
                    (reformat_prefixed (strip_zlib (stem pdf_path)))
                  ++ suffix pdf_path) = pdf_path)) as [E|E].
  - intros _. apply (f_equal name) in E. cbn [name] in E.
    rewrite <- (stem_suffix pdf_path) in E.
    apply app_inv_tail in E. rewrite <- E. apply normalize_name_tidy.
  - unfold bind. destruct (unique_path fuel _ w) as [[q|e|] w1];
      discriminate.
Qed.

Lemma compute_rename_None_iff_tidy_witness :
  compute_rename 1 (in_books "Book Title.pdf") (world_of ∅ [])
  = (Ret None, world_of ∅ [])
  <-> tidy (stem (in_books "Book Title.pdf")) = true.
Proof.
  apply (compute_rename_None_iff_tidy 1 (in_books "Book Title.pdf")
           (world_of ∅ [])).
  reflexivity.
Defined.

(** ** Digits, letters of the extension *)

Lemma pretty_N_go_Forall (P : ascii -> Prop) x :
  (forall d, P (pretty_N_char d)) ->
  forall s, Forall P (lit s) -> Forall P (lit (pretty_N_go x s)).
Proof.
  intros Hd. induction (N.lt_wf_0 x) as [x _ IH]; intros s Hs.
  assert (x = 0 \/ 0 < x)%N as [->|Hpos] by lia.
  - rewrite pretty_N_go_0. exact Hs.
  - rewrite pretty_N_go_step by exact Hpos. apply IH.
    + apply N.div_lt; [exact Hpos | reflexivity].
    + apply Forall_cons. split; [apply Hd | exact Hs].
Qed.

Lemma pretty_nat_Forall (P : ascii -> Prop) (i : nat) :
  (forall d, P (pretty_N_char d)) -> Forall P (lit (pretty i)).
Proof.
  intros Hd. unfold pretty, pretty_nat, pretty, pretty_N. case_decide.
  - repeat constructor. apply (Hd 0%N).
  - apply pretty_N_go_Forall; [exact Hd | constructor].
Qed.

Lemma pretty_N_char_solid d : solid (pretty_N_char d) = true.
Proof. unfold pretty_N_char. repeat case_match; reflexivity. Qed.

Lemma solid_spec c :
  solid c = true
  <-> Ascii.eqb "_" c = false /\ isspace c = false
      /\ c <> "."%char /\ c <> "/"%char.
Proof.
  unfold solid. rewrite !andb_true_iff, !negb_true_iff, !Ascii.eqb_neq.
  tauto.
Qed.

(** The numeral [ (i)] that [unique_path] inserts, without its space. *)
Lemma numeral_solid (i : nat) :
  Forall (fun c => solid c = true) (lit "(" ++ lit (pretty i) ++ lit ")").
Proof.
  rewrite !Forall_app. repeat split.
  - repeat constructor.
  - apply pretty_nat_Forall, pretty_N_char_solid.
  - repeat constructor.
Qed.

Lemma lower_char_pdf_solid c :
  (lower_char c = "p" \/ lower_char c = "d" \/ lower_char c = "f")%char ->
  solid c = true.
Proof.
  destruct c as [[] [] [] [] [] [] [] []]; vm_compute;
    intros H; try reflexivity; exfalso;
    repeat (destruct H as [H|H]; try discriminate H).
Qed.

(** The suffix of a name that passes the test on a target: a dot and
    three letters. *)
Lemma pdf_suffix_inv e :
  lower e = lit ".pdf" ->
  exists t, e = "."%char :: t /\ length t = 3
            /\ Forall (fun c => solid c = true) t.
Proof.
  destruct e as [|e0 [|e1 [|e2 [|e3 [|e4 e]]]]]; try discriminate.
  cbn [lower map]. intros [= H0 H1 H2 H3]. apply lower_char_dot in H0.
  subst e0. exists [e1; e2; e3]. split; [reflexivity|].
  split; [reflexivity|].
  repeat constructor; apply lower_char_pdf_solid; auto.
Qed.

(** ** Stems and suffixes of composed names *)

Lemma rfind_solid t :
  Forall (fun x => solid x = true) t -> rfind "." t = None.
Proof.
  induction 1 as [|x t Hx _ IH]; [reflexivity|].
  cbn [rfind]. rewrite IH. apply solid_spec in Hx as (_ & _ & Hd & _).
  apply Ascii.eqb_neq in Hd. rewrite Hd. reflexivity.
Qed.

Lemma rfind_dotted t :
  Forall (fun x => solid x = true) t -> rfind "." ("."%char :: t) = Some 0.
Proof. intros H. cbn [rfind]. rewrite (rfind_solid t H). reflexivity. Qed.

Lemma stem_suffix_composed d n t :
  n <> [] -> t <> [] -> Forall (fun x => solid x = true) t ->
  stem (mkPath d (n ++ "."%char :: t)) = n
  /\ suffix (mkPath d (n ++ "."%char :: t)) = "."%char :: t.
Proof.
  intros Hn Ht Hs. unfold stem, suffix. cbn [name].
  rewrite rfind_app, (rfind_dotted t Hs), Nat.add_0_r.
  assert (0 < length n) by (destruct n; [congruence | cbn; lia]).
  assert (0 < length t) by (destruct t; [congruence | cbn; lia]).
  replace ((0 <? length n)
           && (length n <? length (n ++ "."%char :: t) - 1)) with true.
  - split; [apply take_app_length | apply drop_app_length].
  - symmetry. apply andb_true_iff. rewrite length_app. cbn [length].
    split; apply Nat.ltb_lt; lia.
Qed.

Lemma rfind_None_app c a b :
  rfind c a = None -> rfind c b = None -> rfind c (a ++ b) = None.
Proof. intros Ha Hb. rewrite rfind_app, Hb. exact Ha. Qed.

(** A name that starts with its only dot is its own stem. *)
Lemma stem_leading_dot d t :
  rfind "." t = None -> stem (mkPath d ("."%char :: t)) = "."%char :: t.
Proof.
  intros H. unfold stem. cbn [name rfind]. rewrite H. reflexivity.
Qed.

(** ** Tidy texts *)

Lemma solid_tidy s : Forall (fun c => solid c = true) s -> tidy s = true.
Proof.
  intros H. apply tidy_spec. split; [|split].
  - eapply Forall_impl; [exact H|]. intros c Hc.
    apply solid_spec in Hc. tauto.
  - assert (forall b, single_spaced b s = true) as Hs; [|apply Hs].
    induction H as [|c s Hc _ IH]; intros b; [reflexivity|].
    cbn [single_spaced]. apply solid_spec in Hc as (_ & -> & _). apply IH.
  - unfold ends_with_space. destruct (last s) as [c|] eqn:El; [|reflexivity].
    apply last_Some in El as [s' ->]. apply Forall_app in H as [_ H].
    inversion H as [|? ? Hc _]. apply solid_spec in Hc. tauto.
Qed.

Lemma tidy_app a b :
  tidy a = true -> a <> [] -> tidy b = true -> b <> [] ->
  tidy (a ++ " "%char :: b) = true.
Proof.
  rewrite !tidy_spec. intros (Ha1 & Ha2 & Ha3) Hna (Hb1 & Hb2 & Hb3) Hnb.
  split; [|split].
  - apply Forall_app. split; [exact Ha1|]. constructor; [reflexivity|exact Hb1].
  - rewrite single_spaced_app, Ha2. destruct a as [|x a]; [congruence|].
    cbn [is_nil andb]. rewrite Ha3. cbn [single_spaced].
    change (isspace " ") with true. cbv iota. rewrite Ascii.eqb_refl.
    exact Hb2.
  - unfold ends_with_space in *. rewrite last_app. cbn [last].
    destruct b as [|y b]; [congruence|]. cbn [last] in *.
    destruct (last (y :: b)) eqn:E; [exact Hb3|].
    apply last_None in E. discriminate.
Qed.

(** A tidy text followed by the numeral of [unique_path] is tidy. *)
Lemma tidy_numbered a (i : nat) :
  tidy a = true -> a <> [] ->
  tidy (a ++ lit " (" ++ lit (pretty i) ++ lit ")") = true.
Proof.
  intros Ha Hne.
  change (lit " (" ++ lit (pretty i) ++ lit ")")
    with (" "%char :: (lit "(" ++ lit (pretty i) ++ lit ")")).
  apply tidy_app;
    [exact Ha | exact Hne | apply solid_tidy, numeral_solid | discriminate].
Qed.

(** ** Rule 1 *)

Lemma plain_part_tidy s : plain_part s = true -> tidy s = true.
Proof.
  intros H. apply plain_part_spec in H as (_ & _ & H1 & H2 & H3).
  apply tidy_spec. auto.
Qed.

Lemma plain_part_no_slash s : plain_part s = true -> no_slash s.
Proof.
  intros H. apply plain_part_spec in H as (_ & H & _).
  eapply Forall_impl; [exact H|]. intros c Hc ->. discriminate Hc.
Qed.

(** X16.  Rule 1 alone: for a plain text [B] (not empty, no illegal
    character, no underscore, whitespace only as single spaces between
    other characters), [compute_rename] of [B_ (Z-Library).pdf] is
    [B.pdf] in the same directory, when no file has that name. *)
Theorem compute_rename_zlib_suffix fuel dir B w :
  plain_part B = true ->
  fs w !! mkPath dir (B ++ lit ".pdf") = None ->
  compute_rename fuel (mkPath dir (B ++ ZLIB_SUFFIX ++ lit ".pdf")) w
  = (Ret (Some (mkPath dir (B ++ lit ".pdf"))), w).
Proof.
  intros HB Hfree. rewrite compute_rename_unfold.
  pose proof (plain_part_spec B HB) as (Hne & _).
  assert (B ++ ZLIB_SUFFIX <> []) as Hne2
    by (intros E; apply app_eq_nil in E as [_ E]; discriminate E).
  rewrite (app_assoc B ZLIB_SUFFIX).
  rewrite (stem_pdf dir _ Hne2), (suffix_pdf dir _ Hne2).
  assert (strip_zlib (B ++ ZLIB_SUFFIX) = B) as ->.
  { unfold strip_zlib.
    replace (endswith (B ++ ZLIB_SUFFIX) ZLIB_SUFFIX) with true
      by (symmetry; apply endswith_spec; eauto).
    rewrite length_app, Nat.add_sub. apply take_app_length. }
  rewrite (no_underscore_not_prefixed B)
    by apply tidy_no_underscore, plain_part_tidy, HB.
  rewrite (normalize_name_fixed B (plain_part_tidy B HB)).
  unfold with_name. cbn [name parent].
  replace (is_nil ((B ++ ZLIB_SUFFIX) ++ lit ".pdf")) with false
    by (destruct B; [congruence | reflexivity]).
  assert (valid_name (B ++ lit ".pdf") = true) as ->.
  { apply valid_name_spec. split; [|split].
    - destruct B; [congruence | discriminate].
    - apply Forall_app. split; [apply plain_part_no_slash, HB|].
      repeat constructor; discriminate.
    - intros E. apply (f_equal length) in E. rewrite length_app in E.
      cbn in E. lia. }
  rewrite bool_decide_eq_false_2.
  2:{ intros E. apply (f_equal name) in E. cbn [name] in E.
      apply (f_equal length) in E. rewrite !length_app in E.
      cbn in E. lia. }
  unfold bind, unique_path, bind. rewrite path_exists_spec, Hfree.
  rewrite bool_decide_eq_false_2 by (intros [? ?]; discriminate).
  reflexivity.
Qed.

Lemma compute_rename_zlib_suffix_witness :
  compute_rename 1 (in_books "Moby Dick_ (Z-Library).pdf") (world_of ∅ [])
  = (Ret (Some (in_books "Moby Dick.pdf")), world_of ∅ []).
Proof.
  apply (compute_rename_zlib_suffix 1 books (lit "Moby Dick") (world_of ∅ []));
    reflexivity.
Defined.

(** ** A second run renames nothing *)

Lemma dense_tidy s :
  Forall (fun c => Ascii.eqb "_" c = false /\ isspace c = false) s ->
  tidy s = true.
Proof.
  intros H. apply tidy_spec. split; [|split].
  - eapply Forall_impl; [exact H|]. intros c [Hc _]. exact Hc.
  - assert (forall b, single_spaced b s = true) as Hs; [|apply Hs].
    induction H as [|c s [_ Hc] _ IH]; intros b; [reflexivity|].
    cbn [single_spaced]. rewrite Hc. apply IH.
  - unfold ends_with_space. destruct (last s) as [c|] eqn:El; [|reflexivity].
    apply last_Some in El as [s' ->]. apply Forall_app in H as [_ H].
    inversion H as [|? ? [_ Hc] _]. exact Hc.
Qed.

Lemma tidy_dotted t :
  Forall (fun c => solid c = true) t -> tidy ("."%char :: t) = true.
Proof.
  intros H. apply dense_tidy. constructor; [split; reflexivity|].
  eapply Forall_impl; [exact H|]. intros c Hc. apply solid_spec in Hc. tauto.
Qed.

Lemma rfind_numeral (i : nat) :
  rfind "." (lit " (" ++ lit (pretty i) ++ lit ")") = None.
Proof.
  change (lit " (" ++ lit (pretty i) ++ lit ")")
    with (" "%char :: (lit "(" ++ lit (pretty i) ++ lit ")")).
  cbn [rfind]. rewrite (rfind_solid _ (numeral_solid i)). reflexivity.
Qed.

(** The stem of what [unique_path] returns for a target named
    [n ++ sfx], [sfx] being a dot and letters of an extension, is
    tidy as soon as [n] is. *)
Lemma unique_path_stem_tidy d n t q :
  tidy n = true -> t <> [] -> Forall (fun c => solid c = true) t ->
  let np := mkPath d (n ++ "."%char :: t) in
  (q = np
   \/ exists j : nat,
        name q = (stem np ++ lit " (" ++ lit (pretty j) ++ lit ")")
                 ++ suffix np) ->
  tidy (stem q) = true.
Proof.
  intros Hn Ht Hs np Hq. destruct n as [|c n'].
  - (* the rules left nothing of the stem: the name is the extension *)
    assert (stem np = "."%char :: t) as Est
      by apply stem_leading_dot, rfind_solid, Hs.
    assert (suffix np = []) as Esf.
    { pose proof (stem_suffix np) as E. rewrite Est in E.
      unfold np in E. cbn [name app] in E. injection E as E.
      apply (app_inv_head t). rewrite app_nil_r. exact E. }
    destruct Hq as [->|[j Hj]].
    + rewrite Est. apply tidy_dotted, Hs.
    + rewrite Est, Esf, app_nil_r in Hj. destruct q as [dq nq].
      cbn [name] in Hj. subst nq. cbn [app].
      rewrite stem_leading_dot
        by (apply rfind_None_app; [apply rfind_solid, Hs | apply rfind_numeral]).
      apply (tidy_numbered ("."%char :: t) j);
        [apply tidy_dotted, Hs | discriminate].
  - destruct (stem_suffix_composed d (c :: n') t) as [Est Esf];
      [discriminate | exact Ht | exact Hs |].
    destruct Hq as [->|[j Hj]].
    + fold np in Est. rewrite Est. exact Hn.
    + fold np in Est, Esf. rewrite Est, Esf in Hj. destruct q as [dq nq].
      cbn [name] in Hj. subst nq.
      destruct (stem_suffix_composed dq
                  ((c :: n') ++ lit " (" ++ lit (pretty j) ++ lit ")") t)
        as [-> _]; [discriminate | exact Ht | exact Hs |].
      apply tidy_numbered; [exact Hn | discriminate].
Qed.

(** X17.  Renaming settles: for a file whose suffix is [.pdf] in some
    letter case, a path [compute_rename] proposes is one for which
    [compute_rename] answers [None], whatever files exist then.  A
    second run of the renamer leaves the names of the first. *)
Theorem compute_rename_settles fuel fuel' pdf_path w w' w2 q :
  has_pdf_suffix pdf_path = true ->
  compute_rename fuel pdf_path w = (Ret (Some q), w') ->
  compute_rename fuel' q w2 = (Ret None, w2).
Proof.
  intros Hpdf H. rewrite compute_rename_unfold in H.
  set (n := normalize_name (reformat_prefixed (strip_zlib (stem pdf_path))))
    in H.
  destruct (with_name pdf_path (n ++ suffix pdf_path)) as [np|e|] eqn:En;
    try discriminate.
  apply with_name_Ret in En as [-> Hv].
  destruct (bool_decide _); [discriminate|].
  apply bind_inv_Ret in H as (q' & w1 & Hu & H). injection H as -> _.
  apply unique_path_inv in Hu as [_ Hq]. specialize (Hq q eq_refl).
  unfold has_pdf_suffix, str_eqb in Hpdf. apply bool_decide_eq_true in Hpdf.
  apply pdf_suffix_inv in Hpdf as (t & Et & Hlen & Hs).
  rewrite Et in Hv, Hq.
  assert (t <> []) as Ht by (destruct t; [discriminate | congruence]).
  apply compute_rename_tidy.
  - destruct Hq as [->|(_ & Hvq & _)]; [exact Hv | exact Hvq].
  - apply (unique_path_stem_tidy (parent pdf_path) n t q);
      [apply normalize_name_tidy | exact Ht | exact Hs |].
    destruct Hq as [->|(_ & _ & j & Hj)]; [left; reflexivity|].
    right. exists j. exact Hj.
Qed.

Lemma compute_rename_settles_witness :
  compute_rename 1 (in_books "Fitzgerald - Gatsby.pdf") (world_of ∅ [])
  = (Ret None, world_of ∅ []).
Proof.
  apply (compute_rename_settles 1 1
           (in_books "_OceanofPDFs.com_Gatsby_-_Fitzgerald.pdf")
           (world_of ∅ []) (world_of ∅ []) (world_of ∅ [])
           (in_books "Fitzgerald - Gatsby.pdf")).
  - reflexivity.
  - vm_compute. reflexivity.
Defined.

(** ** When [compute_rename] returns and when it raises *)

Lemma split1_inv sep s : forall a b,
  split1 sep s = [a; b] -> s = a ++ sep ++ b.
Proof.
  induction s as [|c s IH]; intros a b; cbn [split1].
  - destruct (startswith [] sep) eqn:E; [|discriminate].
    intros [= <- <-]. apply startswith_spec in E as [r E].
    symmetry in E. apply app_eq_nil in E as [-> ->]. reflexivity.
  - destruct (startswith (c :: s) sep) eqn:E.
    + intros [= <- <-]. apply startswith_spec in E as [r E].
      rewrite E. rewrite drop_app_length. reflexivity.
    + destruct (split1 sep s) as [|a' [|b' [|? ?]]] eqn:Es; try discriminate.
      intros [= <- <-]. rewrite (IH a' b' eq_refl). reflexivity.
Qed.

Lemma Forall_re_sub_class_nil_keeps (P : ascii -> Prop) cls s :
  Forall P s -> Forall P (re_sub_class cls [] s).
Proof.
  unfold re_sub_class. induction 1 as [|c s Hc _ IH]; cbn [flat_map].
  - constructor.
  - destruct (cls c); [exact IH | constructor; assumption].
Qed.

Lemma Forall_sanitize (P : ascii -> Prop) s :
  Forall P s -> Forall P (sanitize s).
Proof.
  intros H. apply Forall_strip, Forall_re_sub_class_nil_keeps, H.
Qed.

Lemma Forall_reformat_prefixed (P : ascii -> Prop) s :
  P " "%char -> P "-"%char -> Forall P s -> Forall P (reformat_prefixed s).
Proof.
  intros Hsp Hd H. unfold reformat_prefixed.
  destruct (startswith s PREFIX); [|exact H].
  destruct (split1 _ _) as [|title [|author [|? ?]]] eqn:E; try exact H.
  apply split1_inv in E.
  assert (Forall P (drop (length PREFIX) s)) as Hr by apply Forall_drop, H.
  rewrite E in Hr. apply Forall_app in Hr as [Ht Hr].
  apply Forall_app in Hr as [_ Ha].
  rewrite !Forall_app. repeat split.
  - apply Forall_sanitize, Ha.
  - repeat constructor; assumption.
  - apply Forall_sanitize, Ht.
Qed.

Lemma suffix_length p : suffix p = [] \/ 2 <= length (suffix p).
Proof.
  unfold suffix. destruct (rfind "." (name p)) as [i|]; [|left; reflexivity].
  destruct ((0 <? i) && (i <? length (name p) - 1)) eqn:E;
    [|left; reflexivity].
  apply andb_prop in E as [_ E]. apply Nat.ltb_lt in E.
  right. rewrite length_drop. lia.
Qed.

(** X18.  [compute_rename] does not fail on a file that has an
    extension: for a path with a final component and a non-empty
    suffix, and a fuel above the number of files, it returns, [None] or
    a path, and raises nothing. *)
Theorem compute_rename_returns fuel pdf_path w :
  valid_name (name pdf_path) = true ->
  suffix pdf_path <> [] ->
  size (fs w) < fuel ->
  exists r, compute_rename fuel pdf_path w = (Ret r, w).
Proof.
  intros Hv Hsfx Hfuel. rewrite compute_rename_unfold.
  set (n := normalize_name (reformat_prefixed (strip_zlib (stem pdf_path)))).
  pose proof (proj1 (valid_name_spec _) Hv) as (Hne & Hsl & _).
  rewrite <- (stem_suffix pdf_path) in Hsl.
  apply Forall_app in Hsl as [Hs1 Hs2].
  assert (valid_name (n ++ suffix pdf_path) = true) as Hv2.
  { apply valid_name_spec. split; [|split].
    - intros E. apply app_eq_nil in E as [_ E]. exact (Hsfx E).
    - apply Forall_app. split; [|exact Hs2].
      apply Forall_normalize_name; [discriminate|].
      apply Forall_reformat_prefixed; [discriminate | discriminate |].
      apply Forall_strip_zlib, Hs1.
    - intros E. apply (f_equal length) in E. rewrite length_app in E.
      destruct (suffix_length pdf_path) as [H|H]; [exact (Hsfx H)|].
      cbn in E. lia. }
  unfold with_name. rewrite Hv2.
  destruct (name pdf_path) eqn:En; [congruence|]. cbn [is_nil].
  destruct (bool_decide _); [eexists; reflexivity|].
  destruct (unique_path_returns fuel
              (mkPath (parent pdf_path) (n ++ suffix pdf_path)) w Hv2 Hfuel)
    as [q Eq].
  exists (Some q). unfold bind. rewrite Eq. reflexivity.
Qed.

Lemma compute_rename_returns_witness :
  exists r,
    compute_rename 2 (in_books "Book_ (Z-Library).pdf")
      (world_of {[ in_books "Book.pdf" := stored [] ]} [])
    = (Ret r, world_of {[ in_books "Book.pdf" := stored [] ]} []).
Proof.
  apply (compute_rename_returns 2 (in_books "Book_ (Z-Library).pdf")
           (world_of {[ in_books "Book.pdf" := stored [] ]} [])).
  - reflexivity.
  - discriminate.
  - vm_compute. lia.
Defined.

Lemma lstrip_blank s : Forall (fun c => isspace c = true) s -> lstrip s = [].
Proof.
  induction 1 as [|c s Hc _ IH]; [reflexivity|].
  cbn [lstrip]. rewrite Hc. exact IH.
Qed.

Lemma blank_go s : forall b,
  Forall (fun c => Ascii.eqb "_" c = true \/ isspace c = true) s ->
  Forall (fun c => isspace c = true)
    (re_sub_plus_go (Ascii.eqb "_") (lit " ") b s).
Proof.
  induction s as [|c s IH]; intros b H; cbn [re_sub_plus_go]; [constructor|].
  inversion H as [|? ? Hc Hs]; subst. destruct (Ascii.eqb "_" c) eqn:E.
  - apply Forall_app. split; [destruct b; repeat constructor | apply IH, Hs].
  - destruct Hc as [Hc|Hc]; [discriminate|].
    constructor; [exact Hc | apply IH, Hs].
Qed.

Lemma normalize_name_blank s :
  Forall (fun c => Ascii.eqb "_" c = true \/ isspace c = true) s ->
  normalize_name s = [].
Proof.
  intros H. unfold normalize_name, re_sub_plus, strip.
  rewrite lstrip_blank; [reflexivity|].
  apply (Forall_re_sub_plus_go (fun c => isspace c = true));
    [repeat constructor | apply blank_go, H].
Qed.

Lemma rfind_blank s :
  Forall (fun c => Ascii.eqb "_" c = true \/ isspace c = true) s ->
  rfind "." s = None.
Proof.
  induction 1 as [|c s Hc _ IH]; [reflexivity|]. cbn [rfind].
  rewrite IH. destruct (Ascii.eqb c ".") eqn:E; [|reflexivity].
  apply Ascii.eqb_eq in E. subst c. destruct Hc; discriminate.
Qed.

(** X19.  [compute_rename] raises on a name that the rules reduce to
    nothing: for a file whose name consists of underscores and
    whitespace only, the new name is empty, and [with_name] raises
    [ValueError]; nothing is touched. *)
Theorem compute_rename_blank_name_raises fuel pdf_path w :
  name pdf_path <> [] ->
  Forall (fun c => Ascii.eqb "_" c = true \/ isspace c = true)
    (name pdf_path) ->
  exists e,
    compute_rename fuel pdf_path w = (Raise e, w)
    /\ exn_cls e = ValueError.
Proof.
  intros Hne Hb. eexists. rewrite compute_rename_unfold.
  pose proof (rfind_blank _ Hb) as Hr.
  assert (stem pdf_path = name pdf_path) as -> by (unfold stem; rewrite Hr; reflexivity).
  assert (suffix pdf_path = []) as -> by (unfold suffix; rewrite Hr; reflexivity).
  assert (strip_zlib (name pdf_path) = name pdf_path) as ->.
  { unfold strip_zlib.
    destruct (endswith (name pdf_path) ZLIB_SUFFIX) eqn:E; [|reflexivity].
    apply endswith_spec in E as [x E]. rewrite E in Hb.
    apply Forall_app in Hb as [_ Hb].
    apply Forall_inv_tail, Forall_inv_tail, Forall_inv in Hb.
    destruct Hb; discriminate. }
  assert (reformat_prefixed (name pdf_path) = name pdf_path) as ->.
  { unfold reformat_prefixed.
    destruct (startswith (name pdf_path) PREFIX) eqn:E; [|reflexivity].
    apply startswith_spec in E as [r E]. rewrite E in Hb.
    apply Forall_inv_tail, Forall_inv in Hb. destruct Hb; discriminate. }
  rewrite (normalize_name_blank _ Hb). unfold with_name.
  destruct (name pdf_path); [congruence|]. split; reflexivity.
Qed.

Lemma compute_rename_blank_name_raises_witness :
  exists e,
    compute_rename 1 (in_books "__ _") (world_of ∅ []) = (Raise e, world_of ∅ [])
    /\ exn_cls e = ValueError.
Proof.
  apply (compute_rename_blank_name_raises 1 (in_books "__ _") (world_of ∅ [])).
  - discriminate.
  - repeat (constructor; [first [left; reflexivity | right; reflexivity]|]).
    constructor.
Defined.

(** ** Renaming without renaming *)

(** X20.  In dry-run mode [rename_if_needed] touches nothing: the
    world after it is the world before it (no file moved, no rename
    attempted, no failure consumed), and when [compute_rename] proposes
    a path it reports [(True, new_path)] for it. *)
Theorem rename_if_needed_dry_run fuel pdf_path retries w o w' :
  rename_if_needed fuel pdf_path true retries w = (o, w') ->
  w' = w
  /\ forall new_path,
       compute_rename fuel pdf_path w = (Ret (Some new_path), w) ->
       o = Ret (true, new_path).
Proof.
  unfold rename_if_needed, bind at 1.
  destruct (compute_rename fuel pdf_path w) as [r w1] eqn:Ec.
  pose proof (compute_rename_same_world _ _ _ _ _ Ec) as ->.
  destruct r as [[q|]|e|].
  - destruct (get_file_times_total pdf_path w) as ([[a m] c] & Eg).
    unfold bind. rewrite Eg. intros [= <- <-].
    split; [reflexivity|]. intros q' [= <-]. reflexivity.
  - intros [= <- <-]. split; [reflexivity | discriminate].
  - intros [= <- <-]. split; [reflexivity | discriminate].
  - intros [= <- <-]. split; [reflexivity | discriminate].
Qed.

Lemma rename_if_needed_dry_run_witness :
  let p := in_books "Book___Title__Name.pdf" in
  let w := world_of {[ p := stored [plain_page] ]} [] in
  w = w
  /\ forall new_path,
       compute_rename 1 p w = (Ret (Some new_path), w) ->
       Ret (true, in_books "Book Title Name.pdf") = Ret (true, new_path).
Proof.
  intros p w.
  apply (rename_if_needed_dry_run 1 p 3 w
           (Ret (true, in_books "Book Title Name.pdf")) w).
  vm_compute. reflexivity.
Defined.

(** X21.  With a budget of no attempt the loop body never runs: for
    [retries <= 0], outside dry-run mode, [rename_if_needed] returns
    [(False, pdf_path)] for a file whose name is due for a change, and
    renames nothing. *)
Theorem rename_if_needed_without_budget fuel pdf_path new_path retries w :
  compute_rename fuel pdf_path w = (Ret (Some new_path), w) ->
  (retries <= 0)%Z ->
  rename_if_needed fuel pdf_path false retries w = (Ret (false, pdf_path), w).
Proof.
  intros Ec Hr. unfold rename_if_needed.
  rewrite (bind_Ret _ _ _ _ _ Ec).
  destruct (get_file_times_total pdf_path w) as ([[a m] c] & Eg).
  rewrite (bind_Ret _ _ _ _ _ Eg).
  replace (Z.to_nat retries) with 0 by lia. reflexivity.
Qed.

Lemma rename_if_needed_without_budget_witness :
  let p := in_books "Book___Title__Name.pdf" in
  let w := world_of {[ p := stored [plain_page] ]} [] in
  rename_if_needed 1 p false 0 w = (Ret (false, p), w).
Proof.
  intros p w.
  apply (rename_if_needed_without_budget 1 p
           (in_books "Book Title Name.pdf") 0 w).
  - vm_compute. reflexivity.
  - lia.
Defined.

(** ** The dictionary of [process_single_pdf] *)

Lemma success_dict_insert_renamed c :
  <["renamed"%string := VInt 1]> (success_dict c 0) = success_dict c 1.
Proof. apply map_eq. intros k. vm_compute. repeat case_match; reflexivity. Qed.

Lemma success_dict_insert_cleaned r :
  <["cleaned"%string := VInt 1]> (success_dict 0 r) = success_dict 1 r.
Proof. apply map_eq. intros k. vm_compute. repeat case_match; reflexivity. Qed.

(** The step of [process_single_pdf] that renames: the pair of
    [rename_if_needed], or the failure dictionary for what it raised. *)
Lemma renaming_step_inv fuel pdf dry_run no_rename
    (log : message -> M unit) original_name w renaming w' :
  (if negb no_rename then
     try_except
       (let* r := rename_if_needed fuel pdf dry_run 3 in
        ret (inr r))
       (fun e =>
          let* _ := log (MsgRenameFailed original_name (exn_msg e)) in
          ret (inl (failure_dict (exn_msg e) (name pdf))))
   else ret (inr (false, pdf))) w = (Ret renaming, w') ->
  (no_rename = true /\ renaming = inr (false, pdf) /\ w' = w)
  \/ (no_rename = false
      /\ exists r,
           rename_if_needed fuel pdf dry_run 3 w = (Ret r, w')
           /\ renaming = inr r)
  \/ (no_rename = false
      /\ exists e w1,
           rename_if_needed fuel pdf dry_run 3 w = (Raise e, w1)
           /\ log (MsgRenameFailed original_name (exn_msg e)) w1 = (Ret tt, w')
           /\ renaming = inl (failure_dict (exn_msg e) (name pdf))).
Proof.
  destruct no_rename; cbn [negb].
  - intros [= <- <-]. left. auto.
  - unfold try_except, bind at 1.
    destruct (rename_if_needed fuel pdf dry_run 3 w) as [[r|e|] w1] eqn:Er.
    + intros [= <- <-]. right. left. eauto.
    + intros H. apply bind_inv_Ret in H as ([] & w2 & Hl & H).
      injection H as <- <-. right. right. eauto 10.
    + discriminate.
Qed.

(** What [process_single_pdf] can return: the failure dictionary, or
    the dictionary of the three counters with [failed] at [0]. *)
Lemma process_single_pdf_result fuel pdf dry_run links_only no_rename log w r w' :
  process_single_pdf fuel pdf dry_run links_only no_rename log w = (Ret r, w') ->
  (exists err, r = failure_dict err (name pdf))
  \/ (exists c n, r = success_dict c n
                  /\ (c = 0 \/ c = 1)%Z /\ (n = 0 \/ n = 1)%Z).
Proof.
  unfold process_single_pdf. intros H.
  apply bind_inv_Ret in H as ([[[changed th] lh] err] & w1 & _ & H).
  destruct (truthy err).
  { apply bind_inv_Ret in H as (u & w2 & _ & H). injection H as <- _.
    left. eauto. }
  apply bind_inv_Ret in H as (renaming & w2 & Hr & H).
  apply renaming_step_inv in Hr
    as [(_ & -> & _)|[(_ & rn & _ & ->)|(_ & e & w3 & _ & _ & ->)]].
  - right. fold (success_dict 0 0) in H. destruct changed.
    + rewrite success_dict_insert_cleaned in H.
      apply bind_inv_Ret in H as (u & w3 & _ & H). injection H as <- _.
      exists 1%Z, 0%Z. auto.
    + injection H as <- _. exists 0%Z, 0%Z. auto.
  - right. destruct rn as [did_rename new_path].
    fold (success_dict 0 0) in H. destruct did_rename, changed.
    + rewrite success_dict_insert_renamed, success_dict_insert_cleaned in H.
      apply bind_inv_Ret in H as (u & w3 & _ & H). injection H as <- _.
      exists 1%Z, 1%Z. auto.
    + rewrite success_dict_insert_renamed in H.
      apply bind_inv_Ret in H as (u & w3 & _ & H). injection H as <- _.
      exists 0%Z, 1%Z. auto.
    + rewrite success_dict_insert_cleaned in H.
      apply bind_inv_Ret in H as (u & w3 & _ & H). injection H as <- _.
      exists 1%Z, 0%Z. auto.
    + injection H as <- _. exists 0%Z, 0%Z. auto.
  - injection H as <- _. left. eauto.
Qed.

(** ** The statistics of a run *)

Lemma update_statistics_failure t err filename :
  update_statistics t (failure_dict err filename)
  = Ret (mkTally (cleaned t) (renamed t) (failed t + 1)
           (setdefault_append (errors t) (VStr err) (VStr filename))).
Proof. reflexivity. Qed.

Lemma update_statistics_success t c n :
  update_statistics t (success_dict c n)
  = Ret (mkTally (cleaned t) (renamed t) (failed t + 0) (errors t)).
Proof. reflexivity. Qed.

Lemma length_setdefault_append errors key filename :
  length (flat_map snd (setdefault_append errors key filename))
  = S (length (flat_map snd errors)).
Proof.
  induction errors as [|[k files] rest IH]; [reflexivity|].
  cbn [setdefault_append]. destruct (bool_decide (k = key));
    cbn [flat_map snd]; rewrite !length_app.
  - cbn [length]. lia.
  - rewrite IH. lia.
Qed.

Lemma elem_of_setdefault_append errors key filename x :
  x ∈ map fst (setdefault_append errors key filename) ->
  x ∈ map fst errors \/ x = key.
Proof.
  induction errors as [|[k files] rest IH]; cbn [setdefault_append map fst].
  - intros H. apply list_elem_of_singleton in H. auto.
  - destruct (bool_decide (k = key)); cbn [map fst]; [auto|].
    rewrite !elem_of_cons. intros [->|H]; [auto|].
    destruct (IH H); auto.
Qed.

Lemma NoDup_setdefault_append errors key filename :
  NoDup (map fst errors) ->
  NoDup (map fst (setdefault_append errors key filename)).
Proof.
  induction errors as [|[k files] rest IH]; cbn [setdefault_append map fst].
  - intros _. apply NoDup_singleton.
  - intros H. apply NoDup_cons in H as [Hk Hr].
    destruct (bool_decide_reflect (k = key)) as [E|E]; cbn [map fst].
    + apply NoDup_cons. auto.
    + apply NoDup_cons. split; [|apply IH, Hr].
      intros Hin. apply elem_of_setdefault_append in Hin as [Hin|Hin];
        [exact (Hk Hin) | exact (E Hin)].
Qed.

(** One step of the loop keeps [cleaned] and [renamed], and counts a
    failure exactly when it lists a file name. *)
Lemma update_statistics_step fuel pdf dry_run links_only no_rename log w r w' t t' :
  process_single_pdf fuel pdf dry_run links_only no_rename log w = (Ret r, w') ->
  update_statistics t r = Ret t' ->
  cleaned t' = cleaned t /\ renamed t' = renamed t
  /\ (NoDup (map fst (errors t)) -> NoDup (map fst (errors t')))
  /\ ((failed t' = failed t /\ listed t' = listed t)
      \/ (failed t' = failed t + 1
          /\ length (listed t') = S (length (listed t))))%Z.
Proof.
  intros Hp Hu.
  apply process_single_pdf_result in Hp as [[err ->]|(c & n & -> & _)].
  - rewrite update_statistics_failure in Hu. injection Hu as <-.
    cbn [cleaned renamed failed errors]. split; [reflexivity|].
    split; [reflexivity|]. split; [apply NoDup_setdefault_append|].
    right. split; [reflexivity|].
    unfold listed. cbn [errors]. apply length_setdefault_append.
  - rewrite update_statistics_success in Hu. injection Hu as <-.
    cbn [cleaned renamed failed errors]. split; [reflexivity|].
    split; [reflexivity|]. split; [auto|]. left. split; [lia | reflexivity].
Qed.

Lemma main_loop_invariant fuel dry_run links_only no_rename log pdfs :
  forall t w t' w',
    main_loop fuel pdfs dry_run links_only no_rename log t w = (Ret t', w') ->
    cleaned t' = cleaned t /\ renamed t' = renamed t
    /\ (NoDup (map fst (errors t)) -> NoDup (map fst (errors t')))
    /\ exists k,
         k <= length pdfs
         /\ failed t' = (failed t + Z.of_nat k)%Z
         /\ length (listed t') = length (listed t) + k.
Proof.
  induction pdfs as [|pdf rest IH]; intros t w t' w' H; cbn [main_loop] in H.
  - injection H as <- _. repeat split; [auto|]. exists 0. cbn [length].
    repeat split; lia.
  - apply bind_inv_Ret in H as (r & w1 & Hp & H).
    apply bind_inv_Ret in H as (t1 & w2 & Hu & H).
    unfold lift in Hu. injection Hu as Hu _.
    destruct (update_statistics_step _ _ _ _ _ _ _ _ _ _ _ Hp Hu)
      as (Hc & Hn & Hd & Hf).
    apply IH in H as (Hc' & Hn' & Hd' & k & Hk & Hf' & Hl').
    split; [congruence|]. split; [congruence|]. split; [auto|].
    destruct Hf as [[Hf Hl]|[Hf Hl]].
    + exists k. cbn [length]. rewrite Hf', Hl', Hf, Hl.
      repeat split; lia.
    + exists (S k). cbn [length]. rewrite Hf', Hl', Hf, Hl.
      repeat split; lia.
Qed.

(** X22.  The statistics of a run.  However many files are cleaned or
    renamed, the counters [cleaned] and [renamed] stay at [0]: every
    dictionary [process_single_pdf] returns has the key ['failed'], so
    that the branch of [main] that would add to them is never taken.
    The counter [failed] is the number of file names listed in
    [errors], at most the number of files; no error text is listed
    twice; and the exit code is [2] exactly when a name is listed. *)
Theorem main_loop_statistics fuel pdfs dry_run links_only no_rename log w t w' :
  main_loop fuel pdfs dry_run links_only no_rename log no_statistics w
  = (Ret t, w') ->
  cleaned t = 0%Z /\ renamed t = 0%Z
  /\ failed t = Z.of_nat (length (listed t))
  /\ length (listed t) <= length pdfs
  /\ NoDup (map fst (errors t))
  /\ exit_code t = (if is_nil (listed t) then 0 else 2)%Z.
Proof.
  intros H.
  apply main_loop_invariant in H as (Hc & Hn & Hd & k & Hk & Hf & Hl).
  cbn in Hc, Hn, Hf, Hl. subst k. repeat split; auto.
  - apply Hd. constructor.
  - unfold exit_code. rewrite Hf. destruct (listed t); reflexivity.
Qed.

Lemma main_loop_statistics_witness :
  let t := mkTally 0 0 1
             [(VStr (lit "Failed to open file"), [VStr (lit "broken.pdf")])] in
  cleaned t = 0%Z /\ renamed t = 0%Z
  /\ failed t = Z.of_nat (length (listed t))
  /\ length (listed t) <= length sample_run
  /\ NoDup (map fst (errors t))
  /\ exit_code t = (if is_nil (listed t) then 0 else 2)%Z.
Proof.
  intros t.
  apply (main_loop_statistics 3 sample_run false false false silent
           sample_world t
           (snd (main_loop 3 sample_run false false false silent
                   no_statistics sample_world))).
  vm_compute. reflexivity.
Defined.

(** ** The temporary path *)

Lemma rfind_Some_inv c s : forall i,
  rfind c s = Some i ->
  exists a b, s = a ++ c :: b /\ length a = i.
Proof.
  induction s as [|x s IH]; intros i; cbn [rfind]; [discriminate|].
  destruct (rfind c s) as [j|].
  - intros [= <-]. destruct (IH j eq_refl) as (a & b & -> & <-).
    exists (x :: a), b. auto.
  - destruct (Ascii.eqb x c) eqn:E; [|discriminate].
    intros [= <-]. apply Ascii.eqb_eq in E. subst x. exists [], s. auto.
Qed.

Lemma suffix_dot p : suffix p = [] \/ exists t, suffix p = "."%char :: t.
Proof.
  unfold suffix. destruct (rfind "." (name p)) as [i|] eqn:E;
    [|left; reflexivity].
  destruct (_ && _); [|left; reflexivity]. right.
  apply rfind_Some_inv in E as (a & b & -> & <-).
  exists b. apply drop_app_length.
Qed.

Lemma take_stem p :
  take (length (name p) - length (suffix p)) (name p) = stem p.
Proof.
  pose proof (stem_suffix p) as E.
  set (st := stem p) in *. set (sf := suffix p) in *. rewrite <- E.
  rewrite length_app, Nat.add_sub. apply take_app_length.
Qed.

(** The temporary file of [process_pdf] is the file name with [.tmp]
    appended, in the same directory. *)
Lemma with_suffix_tmp p :
  valid_name (name p) = true ->
  with_suffix p (suffix p ++ lit ".tmp")
  = Ret (mkPath (parent p) (name p ++ lit ".tmp")).
Proof.
  intros Hv. apply valid_name_spec in Hv as (Hne & Hsl & _).
  unfold with_suffix.
  assert (no_slash (suffix p)) as Hs.
  { rewrite <- (stem_suffix p) in Hsl. apply Forall_app in Hsl. tauto. }
  replace (existsb (Ascii.eqb "/") (suffix p ++ lit ".tmp")) with false.
  2:{ symmetry. apply existsb_slash_false, Forall_app. split; [exact Hs|].
      repeat constructor; discriminate. }
  replace ((negb (is_nil (suffix p ++ lit ".tmp"))
            && negb (startswith (suffix p ++ lit ".tmp") (lit ".")))
           || str_eqb (suffix p ++ lit ".tmp") (lit ".")) with false.
  2:{ symmetry. apply orb_false_iff. split.
      - destruct (suffix_dot p) as [->|[t ->]]; reflexivity.
      - unfold str_eqb. apply bool_decide_eq_false. intros E.
        apply (f_equal length) in E. rewrite length_app in E. cbn in E. lia. }
  destruct (name p) as [|c n] eqn:En; [congruence|]. cbn [is_nil].
  rewrite <- En. f_equal. f_equal.
  destruct (suffix p) as [|x sfx] eqn:Es; cbn [is_nil]; [reflexivity|].
  rewrite <- Es, take_stem, app_assoc, stem_suffix. reflexivity.
Qed.

(** ** [process_pdf] creates no file *)

Lemma fitz_open_Ret p w d w' :
  fitz_open p w = (Ret d, w') -> is_Some (fs w !! p).
Proof.
  intros H. apply bind_inv_Ret in H as (u & w1 & H1 & H).
  apply keeps_may_raise in H1. unfold same_fs in H1. rewrite <- H1.
  destruct (fs w1 !! p); [eauto | discriminate].
Qed.

Lemma process_pdf_no_new_file pdf_path links_only dry_run temp w o w' :
  with_suffix pdf_path (suffix pdf_path ++ lit ".tmp") = Ret temp ->
  process_pdf pdf_path links_only dry_run w = (o, w') ->
  no_new_file w w'.
Proof.
  intros Ht Hp. pose proof (with_suffix_tmp_fresh _ _ Ht) as Hne.
  destruct (process_pdf_cases pdf_path links_only dry_run temp w Ht)
    as (a & m & c & _ & [(r & w1 & Eb & Ep)|(e & w1 & w2 & Eb & _ & Hn & Hf & Ep)]);
    rewrite Ep in Hp; injection Hp as <- <-; intros q Hq.
  - destruct dry_run.
    { apply keeps_process_pdf_body_dry_run in Eb. rewrite <- Eb. exact Hq. }
    destruct (decide (q = temp)) as [->|Hqt].
    { rewrite (process_pdf_body_no_temp _ _ _ _ _ _ _ _ _ Hne Eb) in Hq.
      destruct Hq; discriminate. }
    destruct (decide (q = pdf_path)) as [->|Hqp].
    { unfold process_pdf_body in Eb.
      apply bind_inv_Ret in Eb as (doc & w2 & Ho & _).
      eapply fitz_open_Ret, Ho. }
    rewrite <- (keeps_process_pdf_body _ _ _ _ _ _ _ _ _ _ Eb q); [exact Hq|].
    rewrite !elem_of_cons, elem_of_nil. tauto.
  - pose proof (process_pdf_body_Raise _ _ _ _ _ _ _ _ _ _ Eb) as Hb.
    destruct (decide (q = temp)) as [->|Hqt].
    { rewrite Hn in Hq. destruct Hq; discriminate. }
    rewrite <- (Hb q Hqt), <- (Hf q Hqt). exact Hq.
Qed.

Lemma no_new_file_size w w' : no_new_file w w' -> size (fs w') <= size (fs w).
Proof.
  intros H. rewrite <- !size_dom. apply subseteq_size.
  intros q Hq. apply elem_of_dom in Hq. apply elem_of_dom, H, Hq.
Qed.

(** ** The renaming step halts *)

Lemma compute_rename_halts fuel p w w' :
  size (fs w) < fuel -> compute_rename fuel p w <> (Diverge, w').
Proof.
  intros Hfuel. rewrite compute_rename_unfold.
  destruct (with_name p _) as [np|e|] eqn:En.
  - apply with_name_Ret in En as [-> Hv].
    destruct (bool_decide _); [discriminate|].
    destruct (unique_path_returns fuel (mkPath (parent p) _) w Hv Hfuel)
      as [q Eq].
    unfold bind. rewrite Eq. discriminate.
  - discriminate.
  - unfold with_name in En. destruct (is_nil (name p)); [discriminate|].
    destruct (valid_name _); discriminate.
Qed.

Lemma halts_try_except_OSError {A} (body : M A) handler :
  halts body -> (forall e, halts (handler e)) ->
  halts (try_except_OSError body handler).
Proof.
  intros Hb Hh w w'. unfold try_except_OSError.
  destruct (body w) as [[a|e|] w1] eqn:E.
  - discriminate.
  - destruct (exn_cls e); [apply Hh | discriminate | discriminate].
  - exfalso. exact (Hb _ _ E).
Qed.

Lemma halts_path_rename src dst : halts (path_rename src dst).
Proof.
  unfold path_rename. apply halts_bind; [intros w w'; discriminate|].
  intros _. apply halts_bind; [apply halts_may_raise|].
  intros _ w w'. unfold move_entry. destruct (fs w !! src); discriminate.
Qed.

Lemma halts_rename_attempts n : forall attempt retries src dst a m c,
  halts (rename_attempts n attempt retries src dst a m c).
Proof.
  induction n as [|n IH]; intros attempt retries src dst a m c;
    cbn [rename_attempts].
  - apply halts_ret.
  - apply halts_try_except_OSError.
    + apply halts_bind; [apply halts_path_rename|]. intros _.
      apply halts_bind; [apply halts_restore_times|]. intros _.
      apply halts_ret.
    + intros e. destruct (_ && _); [|apply halts_raise].
      apply halts_bind; [intros w w'; discriminate|]. intros _. apply IH.
Qed.

Lemma rename_if_needed_halts fuel p dry_run retries w w' :
  size (fs w) < fuel ->
  rename_if_needed fuel p dry_run retries w <> (Diverge, w').
Proof.
  intros Hfuel. unfold rename_if_needed, bind at 1.
  destruct (compute_rename fuel p w) as [[[q|]|e|] w1] eqn:Ec;
    try discriminate.
  - destruct (get_file_times_total p w1) as ([[a m] c] & Eg).
    unfold bind. rewrite Eg. destruct dry_run; [discriminate|].
    apply halts_rename_attempts.
  - exfalso. exact (compute_rename_halts _ _ _ _ Hfuel Ec).
Qed.

(** ** [process_single_pdf] always returns *)

(** X23.  No exception leaves [process_single_pdf], and it does not
    hang: for a path with a final component, a logging function that
    only prints, and a fuel above the number of files, it returns a
    dictionary, which is either the failure dictionary
    [{'failed': 1, 'error': ..., 'filename': pdf.name}] or the three
    counters [{'cleaned': c, 'renamed': n, 'failed': 0}] with [c] and
    [n] in [{0, 1}]. *)
Theorem process_single_pdf_always_returns
    fuel pdf dry_run links_only no_rename log w :
  valid_name (name pdf) = true ->
  quiet log ->
  size (fs w) < fuel ->
  exists r w',
    process_single_pdf fuel pdf dry_run links_only no_rename log w
    = (Ret r, w')
    /\ ((exists err, r = failure_dict err (name pdf))
        \/ (exists c n, r = success_dict c n
                        /\ (c = 0 \/ c = 1)%Z /\ (n = 0 \/ n = 1)%Z)).
Proof.
  intros Hv Hq Hfuel.
  assert (exists r w',
            process_single_pdf fuel pdf dry_run links_only no_rename log w
            = (Ret r, w')) as (r & w' & E);
    [|exists r, w'; split; [exact E | eapply process_single_pdf_result, E]].
  pose proof (with_suffix_tmp pdf Hv) as Ht.
  destruct (process_pdf_returns pdf links_only dry_run _ w Ht)
    as ([[[changed th] lh] err] & w1 & Ep).
  pose proof (process_pdf_no_new_file _ _ _ _ _ _ _ Ht Ep) as Hnew.
  apply no_new_file_size in Hnew.
  unfold process_single_pdf. rewrite (bind_Ret _ _ _ _ _ Ep).
  destruct (truthy err).
  { rewrite (bind_Ret _ _ _ _ _ (Hq _ _)). eauto. }
  assert (exists renaming w2,
            (if negb no_rename then
               try_except
                 (let* r := rename_if_needed fuel pdf dry_run 3 in
                  ret (inr r))
                 (fun e =>
                    let* _ := log (MsgRenameFailed (name pdf) (exn_msg e)) in
                    ret (inl (failure_dict (exn_msg e) (name pdf))))
             else ret (inr (false, pdf))) w1 = (Ret renaming, w2))
    as (renaming & w2 & Er).
  { destruct no_rename; cbn [negb]; [eauto|].
    unfold try_except, bind at 1.
    destruct (rename_if_needed fuel pdf dry_run 3 w1) as [[rn|e|] w2] eqn:En.
    - eauto.
    - rewrite (bind_Ret _ _ _ _ _ (Hq _ _)). eauto.
    - exfalso. eapply rename_if_needed_halts; [|exact En]. lia. }
  rewrite (bind_Ret _ _ _ _ _ Er).
  destruct renaming as [failure|[did_rename new_path]]; [eauto|].
  destruct changed; [rewrite (bind_Ret _ _ _ _ _ (Hq _ _)); eauto|].
  destruct did_rename; [rewrite (bind_Ret _ _ _ _ _ (Hq _ _)); eauto|].
  eauto.
Qed.

Lemma process_single_pdf_always_returns_witness :
  let pdf := in_books "_OceanofPDFs.com_Gatsby_-_Fitzgerald.pdf" in
  let w := world_of {[ pdf := stored [spaced_page] ]} [] in
  exists r w',
    process_single_pdf 2 pdf false false false silent w = (Ret r, w')
    /\ ((exists err, r = failure_dict err (name pdf))
        \/ (exists c n, r = success_dict c n
                        /\ (c = 0 \/ c = 1)%Z /\ (n = 0 \/ n = 1)%Z)).
Proof.
  intros pdf w.
  apply (process_single_pdf_always_returns 2 pdf false false false silent w).
  - reflexivity.
  - intros m w0. reflexivity.
  - vm_compute. lia.
Defined.

(** ** What the flags promise *)

Lemma keeps_process_pdf pdf_path links_only dry_run temp :
  with_suffix pdf_path (suffix pdf_path ++ lit ".tmp") = Ret temp ->
  keeps (fs_only [pdf_path; temp]) (process_pdf pdf_path links_only dry_run).
Proof.
  intros Ht w o w' Hp.
  destruct (process_pdf_cases pdf_path links_only dry_run temp w Ht)
    as (a & m & c & _ & [(r & w1 & Eb & Ep)|(e & w1 & w2 & Eb & _ & Hn & Hf & Ep)]);
    rewrite Ep in Hp; injection Hp as <- <-.
  - eapply keeps_process_pdf_body, Eb.
  - pose proof (process_pdf_body_Raise _ _ _ _ _ _ _ _ _ _ Eb) as Hb.
    intros q Hq. apply (fs_frame_trans _ _ _ _ Hb Hf).
    intros ->. apply Hq, list_elem_of_further, list_elem_of_here.
Qed.

Lemma keeps_process_pdf_dry_run pdf_path links_only temp :
  with_suffix pdf_path (suffix pdf_path ++ lit ".tmp") = Ret temp ->
  keeps (fs_frame temp) (process_pdf pdf_path links_only true).
Proof.
  intros Ht w o w' Hp.
  destruct (process_pdf_cases pdf_path links_only true temp w Ht)
    as (a & m & c & _ & [(r & w1 & Eb & Ep)|(e & w1 & w2 & Eb & _ & Hn & Hf & Ep)]);
    rewrite Ep in Hp; injection Hp as <- <-.
  - apply keeps_process_pdf_body_dry_run in Eb. intros q _.
    rewrite Eb. reflexivity.
  - pose proof (process_pdf_body_Raise _ _ _ _ _ _ _ _ _ _ Eb) as Hb.
    exact (fs_frame_trans _ _ _ _ Hb Hf).
Qed.

Lemma same_world_refl w : same_world w w.
Proof. reflexivity. Qed.

Lemma same_world_trans w1 w2 w3 :
  same_world w1 w2 -> same_world w2 w3 -> same_world w1 w3.
Proof. unfold same_world. congruence. Qed.

Ltac world_step :=
  first [ apply (keeps_ret same_world same_world_refl)
        | apply (keeps_raise same_world same_world_refl)
        | apply (keeps_bind same_world same_world_trans) ].

Lemma keeps_quiet log m : quiet log -> keeps same_world (log m).
Proof. intros Hq w o w' H. rewrite Hq in H. injection H as _ <-. reflexivity. Qed.

Lemma keeps_rename_if_needed_dry_run fuel pdf retries :
  keeps same_world (rename_if_needed fuel pdf true retries).
Proof.
  intros w o w'. unfold rename_if_needed, bind at 1.
  destruct (compute_rename fuel pdf w) as [r w1] eqn:Ec.
  pose proof (compute_rename_same_world _ _ _ _ _ Ec) as ->.
  destruct r as [[q|]|e|]; try (intros [= _ <-]; reflexivity).
  destruct (get_file_times_total pdf w) as ([[a m] c] & Eg).
  unfold bind. rewrite Eg. intros [= _ <-]. reflexivity.
Qed.

(** After [process_pdf], [process_single_pdf] leaves the world alone
    when renaming is off or the run is dry. *)
Lemma keeps_after_process_pdf fuel pdf dry_run no_rename log
    (changed : bool) (text_hits link_hits : Z) (err : option str) :
  quiet log -> no_rename = true \/ dry_run = true ->
  keeps same_world
    (if truthy err then
       let err := default [] err in
       let* _ := log (MsgFailed (name pdf) err) in
       ret (failure_dict err (name pdf))
     else
       let* renaming :=
         (if negb no_rename then
            try_except
              (let* r := rename_if_needed fuel pdf dry_run 3 in
               ret (inr r))
              (fun e =>
                 let* _ := log (MsgRenameFailed (name pdf) (exn_msg e)) in
                 ret (inl (failure_dict (exn_msg e) (name pdf))))
          else ret (inr (false, pdf))) in
       match renaming with
       | inl failure => ret failure
       | inr (did_rename, new_path) =>
           let result : gmap string pyval :=
             {[ "cleaned"%string := VInt 0;
                "renamed"%string := VInt 0;
                "failed"%string := VInt 0 ]} in
           let result :=
             if did_rename then <["renamed"%string := VInt 1]> result
             else result in
           if changed then
             let result := <["cleaned"%string := VInt 1]> result in
             let rename_str :=
               if did_rename then Some (name new_path) else None in
             let* _ :=
               log (MsgCleaned dry_run (name pdf)
                      (text_hits + link_hits)%Z rename_str) in
             ret result
           else if did_rename then
             let* _ :=
               log (MsgRenamed dry_run (name pdf) (name new_path)) in
             ret result
           else ret result
       end).
Proof.
  intros Hq Hflag. destruct (truthy err).
  { world_step; [apply keeps_quiet, Hq|]. intros _. world_step. }
  world_step.
  - destruct no_rename; cbn [negb]; [world_step|].
    destruct Hflag as [Hflag| ->]; [discriminate|].
    apply keeps_try_except; [apply same_world_trans | |].
    + world_step; [apply keeps_rename_if_needed_dry_run|].
      intros r. world_step.
    + intros e. world_step; [apply keeps_quiet, Hq|]. intros _. world_step.
  - intros [failure|[did_rename new_path]]; [world_step|].
    destruct changed.
    { world_step; [apply keeps_quiet, Hq|]. intros _. world_step. }
    destruct did_rename; [|world_step].
    world_step; [apply keeps_quiet, Hq|]. intros _. world_step.
Qed.

(** X24.  What the flags promise.  With a logging function that only
    prints: when [no_rename] is set, [process_single_pdf] leaves every
    file other than the PDF and its temporary file as it was, so that
    no file changes its name; when [dry_run] is set, it leaves every
    file as it was, the PDF included, but for a file found at the
    temporary path, which the failure handler removes. *)
Theorem process_single_pdf_flags
    fuel pdf dry_run links_only no_rename log w o w' :
  valid_name (name pdf) = true ->
  quiet log ->
  process_single_pdf fuel pdf dry_run links_only no_rename log w = (o, w') ->
  (no_rename = true ->
   forall q, q <> pdf -> q <> temp_of pdf -> fs w' !! q = fs w !! q)
  /\ (dry_run = true ->
      forall q, q <> temp_of pdf -> fs w' !! q = fs w !! q).
Proof.
  intros Hv Hq H. pose proof (with_suffix_tmp pdf Hv) as Ht.
  fold (temp_of pdf) in Ht.
  unfold process_single_pdf, bind at 1 in H.
  destruct (process_pdf pdf links_only dry_run w) as [r w1] eqn:Ep.
  assert (no_rename = true \/ dry_run = true -> w' = w1) as Hrest.
  { intros Hflag. destruct r as [[[[changed th] lh] err]|e|];
      [|injection H as _ <-; reflexivity..].
    eapply (keeps_after_process_pdf fuel pdf dry_run no_rename log
              changed th lh err Hq Hflag), H. }
  split.
  - intros Hn q Hq1 Hq2. rewrite (Hrest (or_introl Hn)).
    apply (keeps_process_pdf _ _ _ _ Ht _ _ _ Ep).
    rewrite !elem_of_cons, elem_of_nil. tauto.
  - intros Hd q Hq2. rewrite (Hrest (or_intror Hd)). subst dry_run.
    apply (keeps_process_pdf_dry_run _ _ _ Ht _ _ _ Ep q Hq2).
Qed.

Lemma process_single_pdf_flags_witness :
  let pdf := in_books "_OceanofPDFs.com_Gatsby_-_Fitzgerald.pdf" in
  let w := world_of {[ pdf := stored [spaced_page];
                       in_books "other.pdf" := stored [plain_page] ]} [] in
  let run := process_single_pdf 3 pdf false false true silent w in
  (true = true ->
   forall q, q <> pdf -> q <> temp_of pdf -> fs (snd run) !! q = fs w !! q)
  /\ (false = true ->
      forall q, q <> temp_of pdf -> fs (snd run) !! q = fs w !! q).
Proof.
  intros pdf w run.
  apply (process_single_pdf_flags 3 pdf false false true silent w
           (fst run) (snd run)).
  - reflexivity.
  - intros m w0. reflexivity.
  - apply surjective_pairing.
Defined.

(** ** A failure without text *)

(** X25.  A failure whose exception has an empty text is not reported.
    When the [try] block of [process_pdf] raises an exception [e] whose
    [str(e)] is empty, the error text of the failure tuple is false for
    [if err:], and [process_single_pdf] (renaming off) goes on as for
    a file that needed nothing: it logs nothing and returns
    [{'cleaned': 0, 'renamed': 0, 'failed': 0}], for which [main]
    counts no failure. *)
Theorem process_single_pdf_silent_failure
    fuel pdf temp atime mtime ctime dry_run links_only log e w w1 :
  with_suffix pdf (suffix pdf ++ lit ".tmp") = Ret temp ->
  get_file_times pdf w = (Ret (atime, mtime, ctime), w) ->
  process_pdf_body pdf temp atime mtime ctime links_only dry_run w
  = (Raise e, w1) ->
  exn_msg e = [] ->
  exists w',
    process_single_pdf fuel pdf dry_run links_only true log w
    = (Ret (success_dict 0 0), w')
    /\ update_statistics no_statistics (success_dict 0 0) = Ret no_statistics.
Proof.
  intros Ht Hg Hb Hmsg.
  destruct (process_pdf_cases pdf links_only dry_run temp w Ht)
    as (a & m & c & Eg & [(r & w' & Eb & _)|(e' & w1' & w' & Eb & _ & _ & _ & Ep)]);
    rewrite Hg in Eg; injection Eg as <- <- <-; rewrite Hb in Eb;
    [discriminate|].
  injection Eb as <- <-. rewrite Hmsg in Ep.
  exists w'. split; [|reflexivity].
  unfold process_single_pdf. rewrite (bind_Ret _ _ _ _ _ Ep). reflexivity.
Qed.

Lemma process_single_pdf_silent_failure_witness :
  let pdf := in_books "novel.pdf" in
  let w := world_of {[ pdf := stored [plain_page] ]}
             [Some (mkFault (mkExn OtherError []) false)] in
  exists w',
    process_single_pdf 1 pdf false false true silent w
    = (Ret (success_dict 0 0), w')
    /\ update_statistics no_statistics (success_dict 0 0) = Ret no_statistics.
Proof.
  intros pdf w.
  apply (process_single_pdf_silent_failure 1 pdf (in_books "novel.pdf.tmp")
           (Some 1000%Z) (Some 2000%Z) (Some 2000%Z) false false silent
           (mkExn OtherError []) w (set_faults w []));
    reflexivity.
Defined.

(** ** A file that needs nothing *)

Lemma redact_if_needed_clean pg : clean_page pg -> redact_if_needed pg = (pg, 0%Z).
Proof.
  intros H. unfold redact_if_needed.
  destruct (page_might_contain_phrase pg); [|reflexivity].
  apply redact_phrase_clean, H.
Qed.

Lemma text_pass_clean w doc :
  faults w = [] -> Forall clean_page doc ->
  text_pass doc 0%Z w = (Ret (doc, 0%Z), w).
Proof.
  intros Hw Hc. destruct (text_pass_no_faults w doc 0%Z Hw) as (total & E & Ht).
  rewrite E. f_equal. f_equal. f_equal.
  - clear E Ht. induction Hc as [|pg doc Hpg _ IH]; [reflexivity|].
    cbn [map]. rewrite (redact_if_needed_clean pg Hpg), IH. reflexivity.
  - apply Ht. eapply Forall_impl; [exact Hc|]. intros pg Hpg.
    rewrite (redact_if_needed_clean pg Hpg). reflexivity.
Qed.

Lemma links_pass_clean w doc :
  faults w = [] -> links_pass doc 0%Z w = (Ret (doc, 0%Z), w).
Proof.
  intros Hw. destruct (links_pass_no_faults w doc 0%Z Hw) as (lh & El & _).
  destruct (links_pass_never_removes _ _ _ _ _ El _ _ eq_refl) as [Ed ->].
  rewrite El, Ed. reflexivity.
Qed.

(** X26.  A file that needs nothing is left exactly as it is.  When
    nothing fails, for a PDF none of whose spans matches the pattern,
    with a tidy stem, and with no file at its temporary path,
    [process_single_pdf] (not a dry run) returns
    [{'cleaned': 0, 'renamed': 0, 'failed': 0}], logs nothing, and the
    world after it is the world before it: nothing was written, moved
    or re-timed. *)
Theorem process_single_pdf_leaves_clean_file
    fuel pdf f doc links_only no_rename log w :
  faults w = [] ->
  fs w !! pdf = Some f ->
  file_pdf f = Some doc ->
  Forall clean_page doc ->
  valid_name (name pdf) = true ->
  tidy (stem pdf) = true ->
  fs w !! temp_of pdf = None ->
  process_single_pdf fuel pdf false links_only no_rename log w
  = (Ret (success_dict 0 0), w).
Proof.
  intros Hw Hf Hd Hc Hv Ht Htmp.
  pose proof (with_suffix_tmp pdf Hv) as Hs. fold (temp_of pdf) in Hs.
  assert (process_pdf pdf links_only false w
          = (Ret (false, 0%Z, 0%Z, None), w)) as Ep.
  { destruct (process_pdf_unfold pdf links_only false _ w Hs)
      as (a & m & c & _ & ->).
    unfold try_except, process_pdf_body.
    rewrite (bind_Ret _ _ _ _ _ (fitz_open_no_faults _ _ _ _ Hw Hf Hd)).
    rewrite (bind_Ret _ _ _ _ _ (links_pass_clean w doc Hw)).
    assert ((if negb links_only then text_pass doc 0%Z else ret (doc, 0%Z)) w
            = (Ret (doc, 0%Z), w)) as Et
      by (destruct links_only; [reflexivity | apply text_pass_clean; auto]).
    rewrite (bind_Ret _ _ _ _ _ Et).
    change (0 + 0 >? 0)%Z with false. cbn [negb].
    unfold bind at 1, ret at 1.
    rewrite (bind_Ret _ _ _ _ _ (may_raise_no_faults w Hw)).
    unfold unlink_if_exists, bind, path_exists. rewrite Htmp.
    rewrite bool_decide_eq_false_2 by (intros [? ?]; discriminate).
    reflexivity. }
  unfold process_single_pdf. rewrite (bind_Ret _ _ _ _ _ Ep). cbn [truthy].
  destruct no_rename; cbn [negb]; [reflexivity|].
  unfold try_except, bind at 1, bind at 1, rename_if_needed.
  rewrite (bind_Ret _ _ _ _ _ (compute_rename_tidy fuel pdf w Hv Ht)).
  reflexivity.
Qed.

Lemma process_single_pdf_leaves_clean_file_witness :
  let pdf := in_books "Moby Dick.pdf" in
  let w := world_of {[ pdf := stored [plain_page] ]} [] in
  process_single_pdf 1 pdf false false false silent w
  = (Ret (success_dict 0 0), w).
Proof.
  intros pdf w.
  apply (process_single_pdf_leaves_clean_file 1 pdf (stored [plain_page])
           [plain_page] false false silent w); try reflexivity.
  repeat constructor.
Defined.

(** ** What [redact_phrase] removes *)

(** X27.  On a page with no redaction pending, [redact_phrase] returns
    the number of spans whose text matches the pattern; it leaves the
    links of the page alone, and the spans of the page afterwards are
    those whose box is not the box of a matching span, in their
    order. *)
Theorem redact_phrase_counts pg :
  page_redactions pg = [] ->
  let hit := filter span_matches (all_spans pg) in
  snd (redact_phrase pg) = Z.of_nat (length hit)
  /\ page_links (fst (redact_phrase pg)) = page_links pg
  /\ all_spans (fst (redact_phrase pg))
     = filter (fun sp => span_bbox sp ∉ map span_bbox hit) (all_spans pg).
Proof.
  intros Hr hit. rewrite redact_phrase_unfold, redact_span_loop. fold hit.
  rewrite Hr. cbn [app]. rewrite Z.add_0_l.
  destruct (Z.of_nat (length hit) =? 0)%Z eqn:E; cbn [fst snd].
  - split; [reflexivity|]. split; [reflexivity|].
    apply Z.eqb_eq in E.
    assert (hit = []) as -> by (destruct hit; [reflexivity | cbn [length] in E; lia]).
    unfold all_spans at 1. cbn [page_blocks map].
    symmetry. apply filter_all, Forall_forall. intros sp _. apply not_elem_of_nil.
  - split; [reflexivity|]. split; [reflexivity|].
    rewrite all_spans_apply_redactions. reflexivity.
Qed.

Lemma redact_phrase_counts_witness :
  let hit := filter span_matches (all_spans spaced_page) in
  snd (redact_phrase spaced_page) = Z.of_nat (length hit)
  /\ page_links (fst (redact_phrase spaced_page)) = page_links spaced_page
  /\ all_spans (fst (redact_phrase spaced_page))
     = filter (fun sp => span_bbox sp ∉ map span_bbox hit)
         (all_spans spaced_page).
Proof. apply (redact_phrase_counts spaced_page). reflexivity. Defined.

(** ** The pre-check hides no hit *)

Lemma re_search_substring r s a b :
  re_search r s = true -> re_search r (a ++ s ++ b) = true.
Proof.
  rewrite !re_search_spec. intros (x & p & y & -> & H).
  exists (a ++ x), p, (y ++ b). rewrite <- !app_assoc. auto.
Qed.

Lemma flat_map_substring {A} (f : A -> str) l x :
  x ∈ l -> exists a b, flat_map f l = a ++ f x ++ b.
Proof.
  induction l as [|y l IH]; intros Hx; [apply elem_of_nil in Hx; destruct Hx|].
  apply elem_of_cons in Hx as [->|Hx]; cbn [flat_map].
  - exists [], (flat_map f l). reflexivity.
  - destruct (IH Hx) as (a & b & ->). exists (f y ++ a), b.
    rewrite <- app_assoc. reflexivity.
Qed.

(** The plain text of a page holds the text of each of its spans. *)
Lemma span_text_in_page pg sp :
  sp ∈ all_spans pg ->
  exists a b, get_text_plain pg = a ++ span_text sp ++ b.
Proof.
  unfold all_spans, get_text_plain. intros H.
  apply list_elem_of_In, in_flat_map in H as (blk & Hb & H).
  apply in_flat_map in H as (ln & Hl & H).
  apply list_elem_of_In in Hb, Hl, H.
  destruct (flat_map_substring
              (fun b => flat_map line_text (block_lines b)) _ _ Hb)
    as (a1 & b1 & ->).
  destruct (flat_map_substring line_text _ _ Hl) as (a2 & b2 & ->).
  unfold line_text.
  destruct (flat_map_substring span_text _ _ H) as (a3 & b3 & ->).
  eexists (a1 ++ a2 ++ a3), _. rewrite <- !app_assoc. reflexivity.
Qed.

Lemma page_without_phrase_is_clean pg :
  page_might_contain_phrase pg = false -> clean_page pg.
Proof.
  intros E. apply Forall_forall. intros sp Hsp.
  destruct (span_matches sp) eqn:Em; [|reflexivity]. exfalso.
  unfold span_matches in Em. apply andb_prop in Em as [Hne Hm].
  destruct (span_text_in_page pg sp Hsp) as (a & b & Et).
  unfold page_might_contain_phrase in E. rewrite Et in E.
  rewrite (re_search_substring _ _ a b Hm), andb_true_r in E.
  destruct (span_text sp); [discriminate|].
  destruct a; discriminate.
Qed.

(** X28.  The pre-check of the text pass hides no hit: on a page whose
    plain text the pattern does not match, no span matches either, so
    that skipping [redact_phrase] there, as [process_pdf] does, gives
    what calling it would give. *)
Theorem pre_check_hides_no_hit pg :
  (if page_might_contain_phrase pg then redact_phrase pg else (pg, 0%Z))
  = redact_phrase pg.
Proof.
  destruct (page_might_contain_phrase pg) eqn:E; [reflexivity|].
  symmetry. apply redact_phrase_clean, page_without_phrase_is_clean, E.
Qed.

(** ** A successful cleaning, and a second one *)

Lemma redact_if_needed_leaves_clean pg : clean_page (fst (redact_if_needed pg)).
Proof.
  unfold redact_if_needed.
  destruct (page_might_contain_phrase pg) eqn:E; cbn [fst].
  - apply redact_phrase_result.
  - apply page_without_phrase_is_clean, E.
Qed.

Lemma text_pass_leaves_clean w doc doc' text_hits w' :
  faults w = [] ->
  text_pass doc 0%Z w = (Ret (doc', text_hits), w') ->
  Forall clean_page doc'.
Proof.
  intros Hw H. destruct (text_pass_no_faults w doc 0%Z Hw) as (total & E & _).
  rewrite E in H. injection H as <- _ _.
  apply Forall_forall. intros pg Hpg.
  apply list_elem_of_fmap in Hpg as (pg0 & -> & _).
  apply redact_if_needed_leaves_clean.
Qed.

(** X29.  A cleaning that succeeds replaces the contents in place,
    keeps the times, and is not repeated.  When nothing fails, the file
    holds a document, and the text pass redacts at least one span,
    [process_pdf] returns [(True, text_hits, 0, None)]; afterwards the
    path holds the redacted document with the access and modification
    times the file had, no file is at the temporary path, and every
    other file is what it was.  A second run on the same path then
    finds nothing: it returns [(False, 0, 0, None)] and leaves the
    world as the first run left it. *)
Theorem process_pdf_cleans_in_place pdf_path temp f doc doc' text_hits w :
  faults w = [] ->
  fs w !! pdf_path = Some f ->
  file_pdf f = Some doc ->
  with_suffix pdf_path (suffix pdf_path ++ lit ".tmp") = Ret temp ->
  text_pass doc 0%Z w = (Ret (doc', text_hits), w) ->
  (0 < text_hits)%Z ->
  exists w' ctime',
    process_pdf pdf_path false false w
    = (Ret (true, text_hits, 0%Z, None), w')
    /\ fs w'
       = <[pdf_path := mkFile (Some doc') (file_atime f) (file_mtime f) ctime']>
           (delete temp (fs w))
    /\ process_pdf pdf_path false false w'
       = (Ret (false, 0%Z, 0%Z, None), w').
Proof.
  intros Hw Hf Hd Ht Htext Hpos.
  pose proof (with_suffix_tmp_fresh _ _ Ht) as Hne.
  destruct (process_pdf_cleaning_run pdf_path temp f doc doc' text_hits w
              Hw Hf Hd Ht Htext Hpos) as (w' & c' & E & Hfs & Hw').
  exists w', c'. split; [exact E|]. split; [exact Hfs|].
  assert (fs w' !! pdf_path
          = Some (mkFile (Some doc') (file_atime f) (file_mtime f) c')) as Hf'
    by (rewrite Hfs; apply lookup_insert_eq).
  assert (fs w' !! temp = None) as Htmp.
  { rewrite Hfs, lookup_insert_ne by auto. apply lookup_delete_eq. }
  destruct (process_pdf_unfold pdf_path false false temp w' Ht)
    as (a & m & c & _ & ->).
  unfold try_except, process_pdf_body.
  rewrite (bind_Ret _ _ _ _ _
             (fitz_open_no_faults _ _ _ doc' Hw' Hf' eq_refl)).
  rewrite (bind_Ret _ _ _ _ _ (links_pass_clean w' doc' Hw')). cbn [negb].
  rewrite (bind_Ret _ _ _ _ _
             (text_pass_clean w' doc' Hw'
                (text_pass_leaves_clean _ _ _ _ _ Hw Htext))).
  change (0 + 0 >? 0)%Z with false. cbn [negb].
  unfold bind at 1, ret at 1.
  rewrite (bind_Ret _ _ _ _ _ (may_raise_no_faults w' Hw')).
  unfold unlink_if_exists, bind, path_exists. rewrite Htmp.
  rewrite bool_decide_eq_false_2 by (intros [? ?]; discriminate).
  reflexivity.
Qed.

Lemma process_pdf_cleans_in_place_witness :
  let p := in_books "novel.pdf" in
  let w := world_of {[ p := stored [spaced_page] ]} [] in
  exists w' ctime',
    process_pdf p false false w = (Ret (true, 1%Z, 0%Z, None), w')
    /\ fs w'
       = <[p := mkFile (Some [fst (redact_phrase spaced_page)])
                   1000 2000 ctime']>
           (delete (in_books "novel.pdf.tmp") (fs w))
    /\ process_pdf p false false w' = (Ret (false, 0%Z, 0%Z, None), w').
Proof.
  intros p w.
  apply (process_pdf_cleans_in_place p (in_books "novel.pdf.tmp")
           (stored [spaced_page]) [spaced_page]
           [fst (redact_phrase spaced_page)] 1 w);
    reflexivity.
Defined.
